(** * Track lifecycle and delivery: server/routes.ts and server/storage.ts

    A shallow embedding of the Express route handlers of the DJ Mix
    Extender server (the hardened [routes.ts] that carries
    [validateAndSanitizePath]) together with the parts of the JavaScript
    runtime they rely on: string primitives, [parseInt], the POSIX flavour
    of Node's [path] module and the option checks of
    [fs.createReadStream].

    Conventions.
    - JavaScript strings are modelled by the [string] of their UTF-8
      bytes; the handlers search and cut them at ASCII characters only,
      which gives the same result on the bytes.
    - JavaScript numbers that occur in the handlers are integers (ids,
      byte offsets, file sizes, version indices) or [NaN]; they are
      modelled by [num].  Integers are exact in JavaScript below 2^53,
      and that is the range the model is meant for: beyond it
      JavaScript rounds what [parseInt] reads and prints large numbers
      with an exponent, which [num] does not follow.
    - [process.cwd()] is a variable of the development ([cwd]); the
      platform is POSIX ([path.sep] is a slash).
    - [null] and [undefined] are modelled by [None].
    - The functions of Node that the handlers call ([path.resolve],
      [path.join], [path.extname], [path.basename], [parseInt],
      [fs.createReadStream]) follow Node's documentation; an
      exception thrown inside a handler's [try] block is modelled by
      the answer of its [catch] block. *)

From Stdlib Require Import ZArith NArith List String Ascii Lia Bool.
From Stdlib Require Import DecimalString DecimalN QArith.
From stdpp Require Import gmap strings list.

Open Scope string_scope.
Open Scope Z_scope.

(* ================================================================== *)
(** * JavaScript primitives *)
(* ================================================================== *)

(** ** Numbers *)

Inductive num : Type :=
| NaN : num
| Num : Z -> num.

Definition MAX_SAFE_INTEGER : Z := 2 ^ 53 - 1.

(** [a - b] and [a + b] on numbers: [NaN] is absorbing. *)
Definition num_sub (a b : num) : num :=
  match a, b with
  | Num x, Num y => Num (x - y)
  | _, _ => NaN
  end.

Definition num_add (a b : num) : num :=
  match a, b with
  | Num x, Num y => Num (x + y)
  | _, _ => NaN
  end.

(** Truthiness of a number: [0] and [NaN] are falsy. *)
Definition num_truthy (a : num) : bool :=
  match a with
  | NaN => false
  | Num z => negb (z =? 0)
  end.

(** [a || d] on numbers. *)
Definition num_or (a d : num) : num := if num_truthy a then a else d.

(** [a > b]: false as soon as one side is [NaN]. *)
Definition num_gt (a b : num) : bool :=
  match a, b with
  | Num x, Num y => y <? x
  | _, _ => false
  end.

(** [a >= b]. *)
Definition num_ge (a b : num) : bool :=
  match a, b with
  | Num x, Num y => y <=? x
  | _, _ => false
  end.

(** ** Strings *)

(** [s.startsWith(p)] *)
Fixpoint startsWith (s p : string) {struct p} : bool :=
  match p, s with
  | EmptyString, _ => true
  | String _ _, EmptyString => false
  | String c p', String d s' => Ascii.eqb c d && startsWith s' p'
  end.

(** [s.includes(sub)] *)
Fixpoint includes (s sub : string) : bool :=
  startsWith s sub
  || match s with
     | EmptyString => false
     | String _ s' => includes s' sub
     end.

Fixpoint drop_chars (n : nat) (s : string) : string :=
  match n, s with
  | O, _ => s
  | S _, EmptyString => EmptyString
  | S n', String _ s' => drop_chars n' s'
  end.

(** [s.replace(/pat/, rep)] for a literal pattern: the first occurrence
    only. *)
Fixpoint replace_first (pat rep s : string) : string :=
  if startsWith s pat then rep ++ drop_chars (String.length pat) s
  else match s with
       | EmptyString => EmptyString
       | String c s' => String c (replace_first pat rep s')
       end.

(** [s.split(sep)] for a one-character separator. *)
Fixpoint split (sep : ascii) (s : string) : list string :=
  match s with
  | EmptyString => [EmptyString]
  | String c s' =>
      if Ascii.eqb c sep then EmptyString :: split sep s'
      else match split sep s' with
           | h :: t => String c h :: t
           | [] => [String c EmptyString]
           end
  end.

(** [parts.join(sep)] *)
Fixpoint join_with (sep : string) (parts : list string) : string :=
  match parts with
  | [] => EmptyString
  | [p] => p
  | p :: rest => p ++ sep ++ join_with sep rest
  end.

Fixpoint map_chars (f : ascii -> ascii) (s : string) : string :=
  match s with
  | EmptyString => EmptyString
  | String c s' => String (f c) (map_chars f s')
  end.

Definition lower_char (c : ascii) : ascii :=
  let n := nat_of_ascii c in
  if ((65 <=? n) && (n <=? 90))%nat then ascii_of_nat (n + 32) else c.

(** [s.toLowerCase()], for the comparison with the ASCII extensions of
    [ALLOWED_EXTENSIONS]: the letters [A]-[Z] are lowered; no other
    character lowers to one of the characters of those extensions. *)
Definition toLowerCase (s : string) : string := map_chars lower_char s.

(** Truthiness of a string: only the empty string is falsy. *)
Definition str_truthy (s : string) : bool := negb (String.eqb s "").

(** ** Number to string and [parseInt] *)

(** Decimal digits of a natural number, without leading zeros. *)
Definition N_toString (n : N) : string :=
  NilZero.string_of_uint (N.to_uint n).

(** [String(n)] for a number, as used in template literals. *)
Definition num_toString (a : num) : string :=
  match a with
  | NaN => "NaN"
  | Num z =>
      if z <? 0 then "-" ++ N_toString (Z.to_N (- z))
      else N_toString (Z.to_N z)
  end.

Definition is_digit (c : ascii) : bool :=
  let n := nat_of_ascii c in ((48 <=? n) && (n <=? 57))%nat.

(** White space skipped by [parseInt] ([StrWhiteSpaceChar]) that is
    one byte long: space, tab, LF, VT, FF, CR. *)
Definition is_space (c : ascii) : bool :=
  let n := nat_of_ascii c in
  ((n =? 32) || ((9 <=? n) && (n <=? 13)))%nat.

(** The no-break space U+00A0, two bytes in UTF-8. *)
Definition is_space2 (a b : ascii) : bool :=
  ((nat_of_ascii a =? 194) && (nat_of_ascii b =? 160))%nat.

(** The white space of three bytes: U+1680, U+2000 to U+200A, the line
    and paragraph separators U+2028 and U+2029, U+202F, U+205F, U+3000
    and the byte order mark U+FEFF. *)
Definition is_space3 (a b c : ascii) : bool :=
  let x := nat_of_ascii a in
  let y := nat_of_ascii b in
  let z := nat_of_ascii c in
  ((x =? 225) && ((y =? 154) && (z =? 128))
   || (x =? 226)
      && ((y =? 128)
          && ((128 <=? z) && (z <=? 138) || (z =? 168) || (z =? 169)
              || (z =? 175))
          || (y =? 129) && (z =? 159))
   || (x =? 227) && ((y =? 128) && (z =? 128))
   || (x =? 239) && ((y =? 187) && (z =? 191)))%nat.

(** The string without the white space [parseInt] skips at its
    start. *)
Fixpoint trimStart (s : string) : string :=
  match s with
  | EmptyString => EmptyString
  | String a s1 =>
      if is_space a then trimStart s1
      else
        match s1 with
        | String b s2 =>
            if is_space2 a b then trimStart s2
            else
              match s2 with
              | String c s3 => if is_space3 a b c then trimStart s3 else s
              | EmptyString => s
              end
        | EmptyString => s
        end
  end.

(** The longest prefix made of decimal digits. *)
Fixpoint take_digits (s : string) : string :=
  match s with
  | EmptyString => EmptyString
  | String c s' => if is_digit c then String c (take_digits s') else EmptyString
  end.

Definition digits_value (ds : string) : Z :=
  match NilEmpty.uint_of_string ds with
  | Some d => Z.of_N (N.of_uint d)
  | None => 0
  end.

(** The optional sign in front of the digits. *)
Definition split_sign (t : string) : bool * string :=
  match t with
  | String c r =>
      if Ascii.eqb c "-" then (true, r)
      else if Ascii.eqb c "+" then (false, r)
      else (false, t)
  | EmptyString => (false, t)
  end.

(** [parseInt(s, 10)]: leading white space, an optional sign, then the
    longest run of decimal digits; [NaN] when that run is empty. *)
Definition parseInt10 (s : string) : num :=
  let '(neg, body) := split_sign (trimStart s) in
  let ds := take_digits body in
  if String.eqb ds "" then NaN
  else if neg then Num (- digits_value ds) else Num (digits_value ds).

Definition hex_digit (c : ascii) : option Z :=
  let n := Z.of_nat (nat_of_ascii c) in
  if (48 <=? n) && (n <=? 57) then Some (n - 48)
  else if (97 <=? n) && (n <=? 102) then Some (n - 87)
  else if (65 <=? n) && (n <=? 70) then Some (n - 55)
  else None.

(** Value of the longest prefix of hexadecimal digits, [None] when it is
    empty. *)
Fixpoint hex_prefix_value (s : string) (acc : option Z) : option Z :=
  match s with
  | EmptyString => acc
  | String c s' =>
      match hex_digit c with
      | Some d =>
          hex_prefix_value s' (Some (16 * (match acc with Some a => a | None => 0 end) + d))
      | None => acc
      end
  end.

(** [parseInt(s)] without a radix: as [parseInt(s, 10)], except that a
    [0x] or [0X] prefix after the sign selects radix 16. *)
Definition parseInt (s : string) : num :=
  let '(neg, body) := split_sign (trimStart s) in
  match body with
  | String "0" (String x r) =>
      if Ascii.eqb x "x" || Ascii.eqb x "X" then
        match hex_prefix_value r None with
        | Some v => if neg then Num (- v) else Num v
        | None => NaN
        end
      else parseInt10 s
  | _ => parseInt10 s
  end.

(** [parseInt(q)] where [q] may be [undefined]: [String(undefined)] has
    no digits. *)
Definition parseInt_opt (q : option string) : num :=
  match q with
  | Some s => parseInt s
  | None => NaN
  end.

(* ================================================================== *)
(** * Node's [path] module, POSIX flavour *)
(* ================================================================== *)

Module path.

Definition sep : string := "/".

Definition isAbsolute (p : string) : bool := startsWith p "/".

(** One step of [normalizeString]: the segments kept so far are held
    most recent first. *)
Definition norm_step (allowAboveRoot : bool) (acc : list string) (seg : string)
  : list string :=
  if String.eqb seg "" || String.eqb seg "." then acc
  else if String.eqb seg ".." then
    match acc with
    | top :: rest =>
        if String.eqb top ".." then
          (if allowAboveRoot then seg :: acc else acc)
        else rest
    | [] => if allowAboveRoot then [seg] else []
    end
  else seg :: acc.

(** [normalizeString(path, allowAboveRoot, "/", isPosixPathSeparator)]:
    empty and [.] segments are dropped, [..] removes the segment before
    it (and is kept only above the root of a relative path). *)
Definition normalizeString (p : string) (allowAboveRoot : bool) : string :=
  join_with "/" (rev (fold_left (norm_step allowAboveRoot) (split "/" p) [])).

Definition ends_with_slash (p : string) : bool :=
  match rev (split "/" p) with
  | last :: _ :: _ => String.eqb last ""
  | _ => false
  end.

(** [path.normalize(p)] *)
Definition normalize (p : string) : string :=
  if String.eqb p "" then "."
  else
    let abs := isAbsolute p in
    let trailing := ends_with_slash p in
    let n := normalizeString p (negb abs) in
    if String.eqb n "" then
      (if abs then "/" else if trailing then "./" else ".")
    else
      let n := if trailing then n ++ "/" else n in
      if abs then "/" ++ n else n.

(** [path.join(a, b)] *)
Definition join (a b : string) : string :=
  let joined :=
    match String.eqb a "", String.eqb b "" with
    | true, true => None
    | false, true => Some a
    | true, false => Some b
    | false, false => Some (a ++ "/" ++ b)
    end in
  match joined with
  | None => "."
  | Some j => normalize j
  end.

(** The right-most path component, trailing slashes ignored. *)
Definition last_component (p : string) : string :=
  match filter (fun s => negb (String.eqb s "")) (rev (split "/" p)) with
  | c :: _ => c
  | [] => ""
  end.

(** Index of the last dot of [s], if any. *)
Fixpoint last_dot (s : string) : option nat :=
  match s with
  | EmptyString => None
  | String c s' =>
      match last_dot s' with
      | Some i => Some (S i)
      | None => if Ascii.eqb c "." then Some O else None
      end
  end.

(** [path.extname(p)]: from the last dot of the last component to its
    end; empty when there is no dot, when the only dot is the first
    character of the component, or when the component is [..]. *)
Definition extname (p : string) : string :=
  let comp := last_component p in
  match last_dot comp with
  | None => ""
  | Some O => ""
  | Some d => if String.eqb comp ".." then "" else drop_chars d comp
  end.

Fixpoint take_chars (n : nat) (s : string) : string :=
  match n, s with
  | O, _ => EmptyString
  | S _, EmptyString => EmptyString
  | S n', String c s' => String c (take_chars n' s')
  end.

Definition endsWith (s suffix : string) : bool :=
  (String.length suffix <=? String.length s)%nat
  && String.eqb (drop_chars (String.length s - String.length suffix) s) suffix.

(** [path.basename(p, suffix)]: the last component, without [suffix]
    when the component ends with it and is longer than it.  (The
    handlers only pass the [extname] of [p] itself as [suffix]; Node's
    answer for a suffix that is longer than the component is not
    modelled.) *)
Definition basename (p suffix : string) : string :=
  let comp := last_component p in
  if negb (String.eqb suffix "")
     && (String.length suffix <=? String.length p)%nat then
    if String.eqb suffix p then ""
    else if endsWith comp suffix && negb (String.eqb comp suffix)
    then take_chars (String.length comp - String.length suffix) comp
    else comp
  else comp.

Section Resolve.
(** [process.cwd()] *)
Variable cwd : string.

(** [path.resolve(p)] with one argument: [p] is taken first and the
    working directory is prepended unless [p] is already absolute. *)
Definition resolve (p : string) : string :=
  let '(rp, abs) :=
    if String.eqb p "" then ("", false) else (p ++ "/", isAbsolute p) in
  let '(rp, abs) :=
    if abs then (rp, abs)
    else if String.eqb cwd "" then (rp, abs)
    else (cwd ++ "/" ++ rp, isAbsolute cwd) in
  let n := normalizeString rp (negb abs) in
  if abs then "/" ++ n
  else if String.eqb n "" then "." else n.
End Resolve.

End path.

(* ================================================================== *)
(** * server/storage.ts: the track store *)
(* ================================================================== *)

(** [status] column: the values the handlers write, and the value a new
    row starts with. *)
Inductive Status : Type :=
| uploaded | processing | regenerate | completed | error.

(** The processing settings accepted by [processingSettingsSchema]. *)
Record Settings : Type := {
  introLength : Z;
  outroLength : Z;
  preserveVocals : bool;
  beatDetection : string
}.

(** A row of [audioTracks], with the columns the handlers read or
    write.  [extendedPaths] and [extendedDurations] are JSON columns:
    [None] stands for a value that is not an array, and an array entry
    may be [null]. *)
Record AudioTrack : Type := {
  id : Z;
  userId : Z;
  originalFilename : string;
  originalPath : string;
  format : option string;
  bitrate : option Z;
  duration : option Q;
  bpm : option Z;
  key : option string;
  status : Status;
  settings : option Settings;
  extendedPaths : option (list (option string));
  extendedDurations : option (list (option Q));
  versionCount : option Z
}.

(** The argument of [updateAudioTrack]: the columns that are present in
    the object literal; an absent column keeps its value. *)
Record UpdateAudioTrack : Type := {
  set_format : option (option string);
  set_bitrate : option (option Z);
  set_duration : option (option Q);
  set_bpm : option (option Z);
  set_key : option (option string);
  set_status : option Status;
  set_settings : option Settings;
  set_extendedPaths : option (list (option string));
  set_extendedDurations : option (list (option Q));
  set_versionCount : option Z
}.

Definition or_keep {A : Type} (new : option A) (old : A) : A :=
  match new with
  | Some v => v
  | None => old
  end.

(** [.set(update)] on one row. *)
Definition apply_update (t : AudioTrack) (u : UpdateAudioTrack) : AudioTrack :=
  {| id := id t;
     userId := userId t;
     originalFilename := originalFilename t;
     originalPath := originalPath t;
     format := or_keep (set_format u) (format t);
     bitrate := or_keep (set_bitrate u) (bitrate t);
     duration := or_keep (set_duration u) (duration t);
     bpm := or_keep (set_bpm u) (bpm t);
     key := or_keep (set_key u) (key t);
     status := or_keep (set_status u) (status t);
     settings := or_keep (Some <$> set_settings u) (settings t);
     extendedPaths := or_keep (Some <$> set_extendedPaths u) (extendedPaths t);
     extendedDurations :=
       or_keep (Some <$> set_extendedDurations u) (extendedDurations t);
     versionCount := or_keep (Some <$> set_versionCount u) (versionCount t) |}.

(** The table, keyed by [id]. *)
Abbreviation Store := (gmap Z AudioTrack).

(** [storage.getAudioTrack(id)] *)
Definition getAudioTrack (db : Store) (i : Z) : option AudioTrack := db !! i.

(** [storage.updateAudioTrack(id, update)]: the row with that id, when
    there is one, gets the listed columns. *)
Definition updateAudioTrack (db : Store) (i : Z) (u : UpdateAudioTrack) : Store :=
  match db !! i with
  | Some t => <[i := apply_update t u]> db
  | None => db
  end.

(** [storage.getAudioTracksByUserId(userId)] *)
Definition getAudioTracksByUserId (db : Store) (uid : Z) : list AudioTrack :=
  filter (fun t => userId t = uid) (snd <$> map_to_list db).

(** [storage.deleteAllUserTracks(userId)] *)
Definition deleteAllUserTracks (db : Store) (uid : Z) : Store :=
  filter (fun kv => userId (snd kv) ≠ uid) db.

(** Modelled from the spec: the table definition ([shared/schema.ts]) is
    not part of the sources.  A track is created at upload time with
    [status = uploaded] and empty version arrays; the default of
    [versionCount] is left open ([vc0]). *)
Definition new_track (i uid : Z) (filename file_path : string) (vc0 : option Z)
  : AudioTrack :=
  {| id := i; userId := uid;
     originalFilename := filename; originalPath := file_path;
     format := None; bitrate := None; duration := None; bpm := None;
     key := None; status := uploaded; settings := None;
     extendedPaths := Some []; extendedDurations := Some [];
     versionCount := vc0 |}.

(** [storage.createAudioTrack(track)] for a row whose generated id is
    [i]. *)
Definition createAudioTrack (db : Store) (t : AudioTrack) : Store :=
  <[id t := t]> db.

(** [Array.isArray(x) ? x : []] *)
Definition asArray {A : Type} (x : option (list A)) : list A :=
  match x with
  | Some l => l
  | None => []
  end.

(** [arr[i]] for a number [i]: [undefined] outside the array. *)
Definition array_get {A : Type} (arr : list A) (i : num) : option A :=
  match i with
  | Num z => if z <? 0 then None else arr !! Z.to_nat z
  | NaN => None
  end.

(** A nullable number column read as a number; [null] compares and
    tests like a falsy value. *)
Definition num_of_column (c : option Z) : num :=
  match c with
  | Some z => Num z
  | None => Num 0
  end.

(* ================================================================== *)
(** * The file system and HTTP responses *)
(* ================================================================== *)

(** The files on disk: the size of each existing file. *)
Definition Fs : Type := string -> option Z.

Definition existsSync (fs : Fs) (p : string) : bool :=
  match fs p with
  | Some _ => true
  | None => false
  end.

(** [fs.statSync(p).size] of an existing file. *)
Definition stat_size (fs : Fs) (p : string) : Z :=
  match fs p with
  | Some n => n
  | None => 0
  end.

(** The [start] and [end] options of [fs.createReadStream] are checked
    when the stream is constructed: each must be an integer between 0
    and [Number.MAX_SAFE_INTEGER], and [start] must not exceed [end];
    otherwise the constructor throws [ERR_OUT_OF_RANGE]. *)
Definition valid_offset (n : num) : bool :=
  match n with
  | Num z => (0 <=? z) && (z <=? MAX_SAFE_INTEGER)
  | NaN => false
  end.

Definition createReadStream_accepts (start end_ : num) : bool :=
  valid_offset start && valid_offset end_ && num_ge end_ start.

Inductive HeaderValue : Type :=
| HStr : string -> HeaderValue
| HNum : num -> HeaderValue.

(** What a handler sends back. *)
Inductive Response : Type :=
| Json (code : Z) (message : string)
    (** [res.status(code).json({ message, ... })] *)
| Started (code : Z) (message : string) (trackId : Z) (state : string)
    (** the acknowledgement of [/process] *)
| Piped (code : Z) (head : list (string * HeaderValue)) (file : string)
        (range : option (num * num))
    (** [res.writeHead(code, head)] followed by a read stream piped into
        the response *)
| Download (file : string) (filename : string)
    (** the call [res.download(file, filename)]; what Express then
        answers is not the handler's doing: it sends the file, or
        refuses it (404 for a file whose name starts with a dot) *).


(** The calls a delivery handler makes, in program order. *)
Inductive Call : Type :=
| CallValidate (filePath : string)
| CallExistsSync (p : string)
| CallStatSync (p : string)
| CallCreateReadStream (p : string) (range : option (num * num))
| CallDownload (p : string).


(* ================================================================== *)
(** * server/routes.ts *)
(* ================================================================== *)

Section Server.

(** [process.cwd()] *)
Variable cwd : string.

(** [processingSettingsSchema.parse(req.body)]: the schema lives in
    [shared/schema.ts], which is not part of the sources; [None] when
    it throws. *)
Variable processingSettingsSchema_parse : string -> option Settings.

Definition uploadsDir : string := path.join cwd "uploads".
Definition resultDir : string := path.join cwd "results".

Definition ALLOWED_DIRECTORIES : list string :=
  [path.resolve cwd uploadsDir; path.resolve cwd resultDir].

Definition ALLOWED_EXTENSIONS : list string :=
  [".mp3"; ".wav"; ".flac"; ".aiff"].

Definition str_in (s : string) (l : list string) : bool :=
  existsb (String.eqb s) l.

(** ** PathGuard *)

(** [ALLOWED_DIRECTORIES.some(...)] of [validateAndSanitizePath] *)
Definition isInAllowedDirectory (resolvedPath : string) : bool :=
  existsb
    (fun allowedDir =>
       startsWith resolvedPath (allowedDir ++ path.sep)
       || String.eqb resolvedPath allowedDir)
    ALLOWED_DIRECTORIES.

(** [null] is [None].  The [try]/[catch] around the body has nothing to
    catch: [path.resolve] and [path.extname] only throw on arguments
    that are not strings. *)
Definition validateAndSanitizePath (filePath : string) : option string :=
  let resolvedPath := path.resolve cwd filePath in
  if negb (isInAllowedDirectory resolvedPath) then None
  else
    let fileExtension := toLowerCase (path.extname resolvedPath) in
    if negb (str_in fileExtension ALLOWED_EXTENSIONS) then None
    else if includes resolvedPath ".." || includes resolvedPath "~" then None
    else Some resolvedPath.

(** The character class of the sanitising regular expression: slash,
    backslash, colon, star, question mark, double quote, angle
    brackets and bar. *)
Definition is_unsafe_char (c : ascii) : bool :=
  existsb (Ascii.eqb c)
    ["/"; "\"; ":"; "*"; "?"; "034"; "<"; ">"; "|"]%char.

Definition sanitize_filename (filename : string) : string :=
  map_chars (fun c => if is_unsafe_char c then "_"%char else c) filename.

Definition createSafeOutputPath (baseDir filename : string) : option string :=
  let sanitizedFilename := sanitize_filename filename in
  let resolvedBaseDir := path.resolve cwd baseDir in
  let isAllowedBaseDir :=
    existsb (fun allowedDir => startsWith resolvedBaseDir allowedDir)
      ALLOWED_DIRECTORIES in
  if negb isAllowedBaseDir then None
  else
    let outputPath := path.join resolvedBaseDir sanitizedFilename in
    validateAndSanitizePath outputPath.

(** ** POST /api/tracks/:id/process *)

(** A background job handed to [PythonShell.run("audioProcessor.py")]. *)
Record Job : Type := {
  job_id : Z;
  job_outputPath : string;
  job_args : list string
}.

Definition bool_toString (b : bool) : string :=
  if b then "true" else "false".

(** [`${outputBase}_extended_v${version + 1}${fileExt}`] *)
Definition safeFilename (track : AudioTrack) : string :=
  let outputBase :=
    path.basename (originalFilename track)
      (path.extname (originalFilename track)) in
  let fileExt := path.extname (originalFilename track) in
  let version := Z.of_nat (length (asArray (extendedPaths track))) in
  outputBase ++ "_extended_v" ++ num_toString (Num (version + 1)) ++ fileExt.

Definition limit_message : string := "Maximum version limit (3) reached".

(** The handler: the table afterwards, the response, and the job it
    starts in the background, if any. *)
Definition process_handler (db : Store) (params_id body : string)
  : Store * Response * option Job :=
  match parseInt10 params_id with
  | NaN => (db, Json 400 "Invalid track ID", None)
  | Num i =>
      match getAudioTrack db i with
      | None => (db, Json 404 "Track not found", None)
      | Some track =>
          if num_gt (num_of_column (versionCount track)) (Num 3) then
            (db, Json 400 limit_message, None)
          else
            match processingSettingsSchema_parse body with
            | None => (db, Json 500 "Error processing track", None)
            | Some settings =>
                let db1 :=
                  updateAudioTrack db i
                    {| set_format := None; set_bitrate := None;
                       set_duration := None; set_bpm := None;
                       set_key := None;
                       set_status :=
                         Some (if (0 <? Z.of_nat (length (asArray (extendedPaths track))))
                               then regenerate else processing);
                       set_settings := Some settings;
                       set_extendedPaths := None;
                       set_extendedDurations := None;
                       set_versionCount := None |} in
                match createSafeOutputPath resultDir (safeFilename track) with
                | None =>
                    (db1,
                     Json 400 "Invalid output path - unable to create safe file path",
                     None)
                | Some outputPath =>
                    (db1,
                     Started 202 "Processing started" i "processing",
                     Some {| job_id := i;
                             job_outputPath := outputPath;
                             job_args :=
                               [originalPath track; outputPath;
                                num_toString (Num (introLength settings));
                                num_toString (Num (outroLength settings));
                                bool_toString (preserveVocals settings);
                                beatDetection settings] |})
                end
            end
      end
  end.

(** ** The background job started by [/process] *)

(** How a [PythonShell.run] promise settles. *)
Inductive ToolOutcome : Type :=
| ToolFailed
| ToolDone.

(** How the analysis of the output file ([utils.py]) settles: the
    promise is rejected, or it resolves and [audioInfo.duration] is
    read from its first line ([None] when there is no line, when the
    line does not parse, or when the field is missing). *)
Inductive InfoOutcome : Type :=
| InfoFailed
| InfoDone (audioInfo_duration : option Q).

(** [audioInfo.duration || null] *)
Definition extendedDuration_of (audioInfo_duration : option Q) : option Q :=
  match audioInfo_duration with
  | Some d => if Qeq_bool d 0 then None else Some d
  | None => None
  end.

(** The update written when the job succeeds, computed from the row
    [track] that was fetched again after processing. *)
Definition completed_update (track : AudioTrack) (outputPath : string)
    (extendedDuration : option Q) : UpdateAudioTrack :=
  let currentPaths := asArray (extendedPaths track) in
  let currentDurations := asArray (extendedDurations track) in
  {| set_format := None; set_bitrate := None; set_duration := None;
     set_bpm := None; set_key := None;
     set_status := Some completed;
     set_settings := None;
     set_extendedPaths := Some (currentPaths ++ [Some outputPath])%list;
     set_extendedDurations :=
       Some (currentDurations ++ [extendedDuration])%list;
     set_versionCount :=
       match num_add (num_or (num_of_column (versionCount track)) (Num 1)) (Num 1) with
       | Num z => Some z
       | NaN => None
       end |}.

(** The update written by the [catch] handler. *)
Definition error_update : UpdateAudioTrack :=
  {| set_format := None; set_bitrate := None; set_duration := None;
     set_bpm := None; set_key := None;
     set_status := Some error;
     set_settings := None; set_extendedPaths := None;
     set_extendedDurations := None; set_versionCount := None |}.

(** The two storage operations of the success continuation are
    separate asynchronous calls: the row is fetched, and later the
    update computed from that row is written. *)
Definition job_refetch (db : Store) (j : Job) : option AudioTrack :=
  getAudioTrack db (job_id j).

Definition job_write (db : Store) (j : Job) (track : AudioTrack)
    (extendedDuration : option Q) : Store :=
  updateAudioTrack db (job_id j)
    (completed_update track (job_outputPath j) extendedDuration).

Definition job_fail (db : Store) (j : Job) : Store :=
  updateAudioTrack db (job_id j) error_update.

(** What a job does, in program order. *)
Inductive JobCall : Type :=
| RunScript (script : string) (args : list string)
| StorageGet (i : Z)
| StorageUpdate (i : Z) (u : UpdateAudioTrack).

(** One job from start to end, when no other handler or job touches
    the table between its storage calls. *)
Definition run_job (db : Store) (j : Job) (tool : ToolOutcome)
    (info : InfoOutcome) : Store * list JobCall :=
  let run_tool := RunScript "audioProcessor.py" (job_args j) in
  let run_info := RunScript "utils.py" [job_outputPath j] in
  let on_error := StorageUpdate (job_id j) error_update in
  match tool with
  | ToolFailed => (job_fail db j, [run_tool; on_error])
  | ToolDone =>
      match info with
      | InfoFailed => (job_fail db j, [run_tool; run_info; on_error])
      | InfoDone d =>
          match job_refetch db j with
          | None =>
              (job_fail db j,
               [run_tool; run_info; StorageGet (job_id j); on_error])
          | Some track =>
              (job_write db j track (extendedDuration_of d),
               [run_tool; run_info; StorageGet (job_id j);
                StorageUpdate (job_id j)
                  (completed_update track (job_outputPath j)
                     (extendedDuration_of d))])
          end
      end
  end.

(** ** GET /api/audio/:id/:type *)

(** A falsy path ([undefined], [null] or the empty string) is no
    path. *)
Definition truthy_path (p : option string) : option string :=
  match p with
  | Some s => if str_truthy s then Some s else None
  | None => None
  end.

(** [parseInt(req.query.version) || 0] *)
Definition requested_version (query_version : option string) : num :=
  num_or (parseInt_opt query_version) (Num 0).

(** The range branch: the response, and whether the read stream could
    be constructed. *)
Definition range_response (safePath : string) (fileSize : Z) (range : string)
  : Response * num * num :=
  let parts := split "-" (replace_first "bytes=" "" range) in
  let start := parseInt10 (default "" (parts !! 0%nat)) in
  let end_ :=
    match truthy_path (parts !! 1%nat) with
    | Some e => parseInt10 e
    | None => Num (fileSize - 1)
    end in
  let chunksize := num_add (num_sub end_ start) (Num 1) in
  if createReadStream_accepts start end_ then
    (Piped 206
       [("Content-Range",
         HStr ("bytes " ++ num_toString start ++ "-" ++ num_toString end_
               ++ "/" ++ num_toString (Num fileSize)));
        ("Accept-Ranges", HStr "bytes");
        ("Content-Length", HNum chunksize);
        ("Content-Type", HStr "audio/mpeg")]
       safePath (Some (start, end_)),
     start, end_)
  else (Json 500 "Error streaming audio", start, end_).

(** The first part of the handler, up to [fs.statSync]: either it has
    answered already, or it holds the path read from the row, the
    validated path and the size of the file. *)
Definition audio_locate (db : Store) (fs : Fs) (params_id type_ : string)
    (query_version : option string)
  : (Response * list Call) + (string * string * Z) :=
  match parseInt10 params_id with
  | NaN => inl (Json 400 "Invalid track ID", [])
  | Num i =>
      if negb (String.eqb type_ "original") && negb (String.eqb type_ "extended")
      then inl (Json 400 "Invalid audio type", [])
      else
        match getAudioTrack db i with
        | None => inl (Json 404 "Track not found", [])
        | Some track =>
            let filePath :=
              if String.eqb type_ "extended" then
                mjoin (array_get (asArray (extendedPaths track))
                         (requested_version query_version))
              else Some (originalPath track) in
            match truthy_path filePath with
            | None => inl (Json 404 (type_ ++ " audio file not found"), [])
            | Some filePath =>
                match validateAndSanitizePath filePath with
                | None =>
                    inl (Json 400 "Invalid file path - path validation failed",
                         [CallValidate filePath])
                | Some safePath =>
                    if negb (existsSync fs safePath) then
                      inl (Json 404 "Audio file not found on disk",
                           [CallValidate filePath; CallExistsSync safePath])
                    else inr (filePath, safePath, stat_size fs safePath)
                end
            end
        end
  end.

Definition audio_handler (db : Store) (fs : Fs) (params_id type_ : string)
    (query_version : option string) (range : option string)
  : Response * list Call :=
  match audio_locate db fs params_id type_ query_version with
  | inl answered => answered
  | inr (filePath, safePath, fileSize) =>
      let located :=
        [CallValidate filePath; CallExistsSync safePath; CallStatSync safePath] in
      match truthy_path range with
      | Some r =>
          let '(resp, start, end_) := range_response safePath fileSize r in
          (resp, located ++ [CallCreateReadStream safePath (Some (start, end_))])%list
      | None =>
          (Piped 200
             [("Content-Length", HNum (Num fileSize));
              ("Content-Type", HStr "audio/mpeg")]
             safePath None,
           located ++ [CallCreateReadStream safePath None])%list
      end
  end.

(** ** GET /api/tracks/:id/download *)

Definition download_handler (db : Store) (fs : Fs) (params_id : string)
    (query_version : option string) : Response * list Call :=
  match parseInt10 params_id with
  | NaN => (Json 400 "Invalid track ID", [])
  | Num i =>
      match getAudioTrack db i with
      | None => (Json 404 "Track not found", [])
      | Some track =>
          let version := requested_version query_version in
          let extendedPaths := asArray (extendedPaths track) in
          let entry := truthy_path (mjoin (array_get extendedPaths version)) in
          if num_ge version (Num (Z.of_nat (length extendedPaths))) then
            (Json 404 "Extended version not found", [])
          else
            match entry with
            | None => (Json 404 "Extended version not found", [])
            | Some filePath =>
                match validateAndSanitizePath filePath with
                | None =>
                    (Json 400 "Invalid file path - path validation failed",
                     [CallValidate filePath])
                | Some safePath =>
                    if negb (existsSync fs safePath) then
                      (Json 404 "Extended audio file not found on disk",
                       [CallValidate filePath; CallExistsSync safePath])
                    else
                      let originalNameWithoutExt :=
                        path.basename (originalFilename track)
                          (path.extname (originalFilename track)) in
                      let downloadFilename :=
                        originalNameWithoutExt ++ "_extended_v"
                        ++ num_toString (num_add version (Num 1))
                        ++ path.extname (originalFilename track) in
                      (Download safePath downloadFilename,
                       [CallValidate filePath; CallExistsSync safePath;
                        CallDownload safePath])
                end
            end
      end
  end.

End Server.

(* ================================================================== *)
(** * Runs of the server *)
(* ================================================================== *)

(** The update of the upload route, written when the analysis of the
    uploaded file returns: [format] is set when the analysis reports
    one, the other four columns are set to the reported value or to
    [null]. *)
Definition analysis_update (audioInfo_format : option string)
    (bitrate : option Z) (duration : option Q) (bpm : option Z)
    (key : option string) : UpdateAudioTrack :=
  {| set_format := Some <$> audioInfo_format;
     set_bitrate := Some bitrate;
     set_duration := Some duration;
     set_bpm := Some bpm;
     set_key := Some key;
     set_status := None; set_settings := None; set_extendedPaths := None;
     set_extendedDurations := None; set_versionCount := None |}.

(** The two version arrays of a row have the same length. *)
Definition paired (t : AudioTrack) : Prop :=
  length (asArray (extendedPaths t)) = length (asArray (extendedDurations t)).

(** A job between its two storage calls: it holds the row it fetched
    and the duration it is about to append. *)
Record Pending : Type := {
  pending_job : Job;
  pending_row : AudioTrack;
  pending_duration : option Q
}.

Section Runs.

Variable cwd : string.
Variable processingSettingsSchema_parse : string -> option Settings.

(** One atomic step of the server: everything that happens between two
    awaits of a handler or of a job continuation.  The state is the
    table and the jobs that have fetched their row but not written
    yet. *)
Inductive step : Store * list Pending -> Store * list Pending -> Prop :=
| step_upload (db : Store) (P : list Pending) (i uid : Z)
    (filename file_path : string) (vc0 : option Z) :
    db !! i = None ->
    step (db, P)
         (createAudioTrack db (new_track i uid filename file_path vc0), P)
| step_analysis (db : Store) (P : list Pending) (i : Z)
    (f : option string) (b : option Z) (d : option Q) (m : option Z)
    (k : option string) :
    step (db, P) (updateAudioTrack db i (analysis_update f b d m k), P)
| step_process (db : Store) (P : list Pending) (params_id body : string) :
    step (db, P)
         ((process_handler cwd processingSettingsSchema_parse db params_id body).1.1,
          P)
| step_settings (db : Store) (P : list Pending) (i : Z) (st : Status)
    (settings : Settings) :
    (* the write of [/process] on its own: its values may come from a
       row that was read at an earlier step *)
    step (db, P)
         (updateAudioTrack db i
            {| set_format := None; set_bitrate := None; set_duration := None;
               set_bpm := None; set_key := None; set_status := Some st;
               set_settings := Some settings; set_extendedPaths := None;
               set_extendedDurations := None; set_versionCount := None |},
          P)
| step_refetch (db : Store) (P : list Pending) (j : Job) (t : AudioTrack)
    (d : option Q) :
    job_refetch db j = Some t ->
    step (db, P)
         (db, {| pending_job := j; pending_row := t; pending_duration := d |} :: P)
| step_write (db : Store) (P1 P2 : list Pending) (w : Pending) :
    step (db, (P1 ++ w :: P2)%list)
         (job_write db (pending_job w) (pending_row w) (pending_duration w),
          (P1 ++ P2)%list)
| step_fail (db : Store) (P : list Pending) (j : Job) :
    step (db, P) (job_fail db j, P)
| step_clear (db : Store) (P : list Pending) (uid : Z) :
    step (db, P) (deleteAllUserTracks db uid, P).

(** Every stored row and every fetched row is paired. *)
Definition all_paired (s : Store * list Pending) : Prop :=
  (forall i t, s.1 !! i = Some t -> paired t)
  /\ Forall (fun w => paired (pending_row w)) s.2.

(** A handler or a whole job run without anything else in between. *)
Inductive Op : Type :=
| OpProcess (params_id body : string)
| OpJob (j : Job) (tool : ToolOutcome) (info : InfoOutcome)
| OpAnalysis (i : Z) (f : option string) (b : option Z) (d : option Q)
    (m : option Z) (k : option string).

Definition exec_op (db : Store) (op : Op) : Store :=
  match op with
  | OpProcess params_id body =>
      (process_handler cwd processingSettingsSchema_parse db params_id body).1.1
  | OpJob j tool info => (run_job db j tool info).1
  | OpAnalysis i f b d m k => updateAudioTrack db i (analysis_update f b d m k)
  end.

(** The pair a successful job for track [i] appends. *)
Definition completed_by (i : Z) (op : Op) : option (option string * option Q) :=
  match op with
  | OpJob j ToolDone (InfoDone d) =>
      if decide (job_id j = i)
      then Some (Some (job_outputPath j), extendedDuration_of d)
      else None
  | _ => None
  end.

End Runs.

(* ================================================================== *)
(** * server/routes.ts: the other routes *)
(* ================================================================== *)

(** What the routes that return data send back. *)
Inductive DataResponse : Type :=
| DataMessage (code : Z) (message : string)
| DataTrack (code : Z) (track : AudioTrack)
| DataTracks (code : Z) (tracks : list AudioTrack)
| DataStatus (code : Z) (st : Status).

Definition data_code (r : DataResponse) : Z :=
  match r with
  | DataMessage c _ | DataTrack c _ | DataTracks c _ | DataStatus c _ => c
  end.

(** [req.file] as multer leaves it. *)
Record UploadedFile : Type := {
  originalname : string;
  mimetype : string;
  upload_path : string
}.

(** How the analysis of an uploaded file ([utils.py]) settles: the
    promise is rejected, it resolves without a line, its first line
    does not parse, or it parses to the five reported values. *)
Inductive AnalysisOutcome : Type :=
| AnalysisRejected
| AnalysisNoResults
| AnalysisUnparsable
| AnalysisInfo (audioInfo_format : option string) (bitrate : option Z)
    (duration : option Q) (bpm : option Z) (key : option string).

(** [x || null] for a number, a duration and a string. *)
Definition Z_or_null (x : option Z) : option Z :=
  match x with
  | Some z => if z =? 0 then None else Some z
  | None => None
  end.

Definition string_or_null (x : option string) : option string :=
  match x with
  | Some s => if str_truthy s then Some s else None
  | None => None
  end.

(** [fs.unlinkSync(p)] *)
Definition unlinkSync (fs : Fs) (p : string) : Fs :=
  fun q => if String.eqb q p then None else fs q.

Section OtherRoutes.

Variable cwd : string.
Variable processingSettingsSchema_parse : string -> option Settings.

(** [demoUser.id] *)
Variable demoUser : Z.

(** ** multer configuration *)

Definition allowedMimeTypes : list string :=
  ["audio/mpeg"; "audio/wav"; "audio/flac"; "audio/aiff"; "audio/x-aiff"].

(** [fileFilter]: whether the callback accepts the file. *)
Definition fileFilter (file_mimetype : string) : bool :=
  str_in file_mimetype allowedMimeTypes.

(** [filename] of the disk storage, for [Date.now()] equal to [now] and
    [Math.round(Math.random() * 1e9)] equal to [rnd]. *)
Definition storage_filename (now rnd : N) (file_originalname : string) : string :=
  N_toString now ++ "-" ++ N_toString rnd ++ path.extname file_originalname.

(** The [path] multer gives to a stored file: its destination joined
    with its file name. *)
Definition stored_path (now rnd : N) (file_originalname : string) : string :=
  path.join (uploadsDir cwd) (storage_filename now rnd file_originalname).

(** ** POST /api/tracks/upload *)

(** The handler: the table and the disk afterwards, the response, and
    the argument of the analysis it starts, if any.  [i] is the id the
    table gives to the new row and [vc0] its default counter. *)
Definition upload_handler (db : Store) (fs : Fs) (file : option UploadedFile)
    (i : Z) (vc0 : option Z)
  : Store * Fs * DataResponse * option string :=
  match file with
  | None => (db, fs, DataMessage 400 "No file uploaded", None)
  | Some f =>
      match validateAndSanitizePath cwd (upload_path f) with
      | None =>
          (db,
           if existsSync fs (upload_path f) then unlinkSync fs (upload_path f)
           else fs,
           DataMessage 400 "Invalid upload path - file rejected",
           None)
      | Some safeUploadPath =>
          let track := new_track i demoUser (originalname f) safeUploadPath vc0 in
          (createAudioTrack db track, fs, DataTrack 201 track, Some safeUploadPath)
      end
  end.

(** The continuation of the analysis started by the upload. *)
Definition run_analysis (db : Store) (i : Z) (outcome : AnalysisOutcome) : Store :=
  match outcome with
  | AnalysisInfo f b d m k =>
      updateAudioTrack db i
        (analysis_update f (Z_or_null b) (extendedDuration_of d) (Z_or_null m)
           (string_or_null k))
  | _ => db
  end.

(** ** GET /api/tracks/:id, GET /api/tracks, GET /api/tracks/:id/status *)

Definition get_track_handler (db : Store) (params_id : string) : DataResponse :=
  match parseInt10 params_id with
  | NaN => DataMessage 400 "Invalid track ID"
  | Num i =>
      match getAudioTrack db i with
      | None => DataMessage 404 "Track not found"
      | Some track => DataTrack 200 track
      end
  end.

Definition list_tracks_handler (db : Store) : DataResponse :=
  DataTracks 200 (getAudioTracksByUserId db demoUser).

Definition status_handler (db : Store) (params_id : string) : DataResponse :=
  match parseInt10 params_id with
  | NaN => DataMessage 400 "Invalid track ID"
  | Num i =>
      match getAudioTrack db i with
      | None => DataMessage 404 "Track not found"
      | Some track => DataStatus 200 (status track)
      end
  end.

(** ** DELETE /api/tracks *)

(** [validateAndSanitizePath(p)] followed by
    [if (safe && fs.existsSync(safe)) fs.unlinkSync(safe)]; an entry
    that is [null] is not a string and validates to [null]. *)
Definition unlink_if_safe (fs : Fs) (filePath : option string) : Fs :=
  match filePath with
  | Some p =>
      match validateAndSanitizePath cwd p with
      | Some safePath =>
          if existsSync fs safePath then unlinkSync fs safePath else fs
      | None => fs
      end
  | None => fs
  end.

(** The body of the loop over the tracks. *)
Definition delete_track_files (fs : Fs) (track : AudioTrack) : Fs :=
  foldl unlink_if_safe
    (unlink_if_safe fs (Some (originalPath track)))
    (asArray (extendedPaths track)).

Definition clear_handler (db : Store) (fs : Fs) : Store * Fs * DataResponse :=
  let tracks := getAudioTracksByUserId db demoUser in
  (deleteAllUserTracks db demoUser,
   foldl delete_track_files fs tracks,
   DataMessage 200 "All tracks cleared").

(** ** A request to [/process] followed by the end of its job *)

Definition process_round (db : Store) (params_id body : string)
    (tool : ToolOutcome) (info : InfoOutcome) : Store * Response :=
  let '(db1, resp, job) :=
    process_handler cwd processingSettingsSchema_parse db params_id body in
  match job with
  | Some j => ((run_job db1 j tool info).1, resp)
  | None => (db1, resp)
  end.

End OtherRoutes.

(* ================================================================== *)
(** * src/server/routes.ts: the delivery routes without PathGuard *)
(* ================================================================== *)

(** [track.extendedPaths || []]; the column holds [null] or an array. *)
Definition legacy_audio_handler (db : Store) (fs : Fs) (params_id type_ : string)
    (query_version : option string) (range : option string) : Response :=
  match parseInt10 params_id with
  | NaN => Json 400 "Invalid track ID"
  | Num i =>
      if negb (String.eqb type_ "original") && negb (String.eqb type_ "extended")
      then Json 400 "Invalid audio type"
      else
        match getAudioTrack db i with
        | None => Json 404 "Track not found"
        | Some track =>
            let filePath :=
              if String.eqb type_ "extended" then
                mjoin (array_get (asArray (extendedPaths track))
                         (requested_version query_version))
              else Some (originalPath track) in
            match truthy_path filePath with
            | None => Json 404 (type_ ++ " audio file not found")
            | Some filePath =>
                if negb (existsSync fs filePath) then
                  Json 404 "Audio file not found on disk"
                else
                  let fileSize := stat_size fs filePath in
                  match truthy_path range with
                  | Some r => (range_response filePath fileSize r).1.1
                  | None =>
                      Piped 200
                        [("Content-Length", HNum (Num fileSize));
                         ("Content-Type", HStr "audio/mpeg")]
                        filePath None
                  end
            end
        end
  end.

Definition legacy_download_handler (db : Store) (fs : Fs) (params_id : string)
    (query_version : option string) : Response :=
  match parseInt10 params_id with
  | NaN => Json 400 "Invalid track ID"
  | Num i =>
      match getAudioTrack db i with
      | None => Json 404 "Track not found"
      | Some track =>
          let version := requested_version query_version in
          match truthy_path (mjoin (array_get (asArray (extendedPaths track)) version)) with
          | None => Json 404 "Extended version not found"
          | Some filePath =>
              if negb (existsSync fs filePath) then
                Json 404 "Extended audio file not found on disk"
              else
                let originalNameWithoutExt :=
                  path.basename (originalFilename track)
                    (path.extname (originalFilename track)) in
                let downloadFilename :=
                  originalNameWithoutExt ++ "_extended_v"
                  ++ num_toString (num_add version (Num 1))
                  ++ path.extname (originalFilename track) in
                Download filePath downloadFilename
          end
      end
  end.

(* ================================================================== *)
(** * The server as a whole *)
(* ================================================================== *)

Section Service.

Variable cwd : string.
Variable processingSettingsSchema_parse : string -> option Settings.
Variable demoUser : Z.

(** One step of the whole server, from one storage call to the next.
    The state is the table, the jobs that have been started and have
    not ended, and the jobs between their two storage calls.  The
    routes that only read are no step. *)
Inductive serve
  : Store * list Job * list Pending -> Store * list Job * list Pending -> Prop :=
| serve_upload (db : Store) (J : list Job) (P : list Pending) (fs : Fs)
    (file : option UploadedFile) (i : Z) (vc0 : option Z) :
    db !! i = None ->
    serve (db, J, P)
          ((upload_handler cwd demoUser db fs file i vc0).1.1.1, J, P)
| serve_analysis (db : Store) (J : list Job) (P : list Pending) (i : Z)
    (outcome : AnalysisOutcome) :
    serve (db, J, P) (run_analysis db i outcome, J, P)
| serve_process (db : Store) (J : list Job) (P : list Pending)
    (params_id body : string) :
    serve (db, J, P)
          ((process_handler cwd processingSettingsSchema_parse db params_id
              body).1.1,
           (option_list
              (process_handler cwd processingSettingsSchema_parse db params_id
                 body).2 ++ J)%list,
           P)
| serve_settings (db : Store) (J : list Job) (P : list Pending) (i : Z)
    (st : Status) (settings : Settings) :
    (* the write of [/process] on its own, with values from a row that
       was read at an earlier step *)
    serve (db, J, P)
          (updateAudioTrack db i
             {| set_format := None; set_bitrate := None; set_duration := None;
                set_bpm := None; set_key := None; set_status := Some st;
                set_settings := Some settings; set_extendedPaths := None;
                set_extendedDurations := None; set_versionCount := None |},
           J, P)
| serve_dispatch (db : Store) (J : list Job) (P : list Pending) (j : Job)
    (filename : string) :
    (* the job of [/process] on its own: its output path was made from a
       row that was read at an earlier step *)
    createSafeOutputPath cwd (resultDir cwd) filename
    = Some (job_outputPath j) ->
    serve (db, J, P) (db, j :: J, P)
| serve_failed (db : Store) (J1 J2 : list Job) (P : list Pending) (j : Job) :
    serve (db, (J1 ++ j :: J2)%list, P) (job_fail db j, (J1 ++ J2)%list, P)
| serve_refetch (db : Store) (J1 J2 : list Job) (P : list Pending) (j : Job)
    (t : AudioTrack) (d : option Q) :
    job_refetch db j = Some t ->
    serve (db, (J1 ++ j :: J2)%list, P)
          (db, (J1 ++ J2)%list,
           {| pending_job := j; pending_row := t;
              pending_duration := extendedDuration_of d |} :: P)
| serve_write (db : Store) (J : list Job) (P1 P2 : list Pending) (w : Pending) :
    serve (db, J, (P1 ++ w :: P2)%list)
          (job_write db (pending_job w) (pending_row w) (pending_duration w),
           J, (P1 ++ P2)%list)
| serve_clear (db : Store) (J : list Job) (P : list Pending) (fs : Fs) :
    serve (db, J, P) ((clear_handler cwd demoUser db fs).1.1, J, P).

End Service.

(* ================================================================== *)
(** * Notions used by the statements *)
(* ================================================================== *)

(** The row [t] with another status and every other column as it is. *)
Definition with_status (t : AudioTrack) (s : Status) : AudioTrack :=
  {| id := id t; userId := userId t;
     originalFilename := originalFilename t; originalPath := originalPath t;
     format := format t; bitrate := bitrate t; duration := duration t;
     bpm := bpm t; key := key t;
     status := s;
     settings := settings t;
     extendedPaths := extendedPaths t;
     extendedDurations := extendedDurations t;
     versionCount := versionCount t |}.

(** The value of [(track.versionCount || 1) + 1] for a counter [vc]. *)
Definition next_versionCount (vc : option Z) : Z :=
  match vc with
  | Some v => if v =? 0 then 2 else v + 1
  | None => 2
  end.

(** [track.versionCount > 3] *)
Definition over_limit (t : AudioTrack) : Prop :=
  exists v, versionCount t = Some v /\ 3 < v.

(** The head of a 206 answer for the bytes [first..last] of a file of
    [size] bytes. *)
Definition partial_head (first last size : Z) : list (string * HeaderValue) :=
  [("Content-Range",
    HStr ("bytes " ++ num_toString (Num first) ++ "-" ++ num_toString (Num last)
          ++ "/" ++ num_toString (Num size)));
   ("Accept-Ranges", HStr "bytes");
   ("Content-Length", HNum (Num (last - first + 1)));
   ("Content-Type", HStr "audio/mpeg")].

(** The [Range] header values [bytes=first-last] and [bytes=first-]. *)
Definition range_closed (first last : N) : string :=
  "bytes=" ++ N_toString first ++ "-" ++ N_toString last.

Definition range_open (first : N) : string :=
  "bytes=" ++ N_toString first ++ "-".

(** [g] is an ordinary file name: not empty, not [.] or [..], and
    without a slash. *)
Definition plain_name (g : string) : Prop :=
  g <> "" /\ g <> "." /\ g <> ".." /\ split "/" g = [g].

(** Every character of [s] is a decimal digit. *)
Fixpoint all_digits (s : string) : bool :=
  match s with
  | EmptyString => true
  | String c s' => is_digit c && all_digits s'
  end.

(** [r] is the directory [dir] itself or lies below it. *)
Definition inside (dir r : string) : Prop :=
  r = dir \/ exists rest, r = dir ++ "/" ++ rest.

(** [r] lies outside every allowed directory. *)
Definition outside_allowed (cwd r : string) : Prop :=
  forall d, In d (ALLOWED_DIRECTORIES cwd) -> ~ inside d r.

(** [sub] occurs in [s]. *)
Definition occurs_in (sub s : string) : Prop :=
  exists a b, s = a ++ sub ++ b.

(** The version selector [v] does not name a stored path of [t]: it is
    outside the bounds of [extendedPaths], or the entry there is
    [null]. *)
Definition version_missing (t : AudioTrack) (v : num) : Prop :=
  match v with
  | Num n =>
      n < 0
      \/ Z.of_nat (length (asArray (extendedPaths t))) <= n
      \/ asArray (extendedPaths t) !! Z.to_nat n = Some None
  | NaN => True
  end.

(** [fp] is a path held by the row [t]: its [originalPath] or an entry
    of its [extendedPaths]. *)
Definition from_record (t : AudioTrack) (fp : string) : Prop :=
  fp = originalPath t \/ In (Some fp) (asArray (extendedPaths t)).

(** An original file name that PathGuard has nothing against: its
    extension is allowed and it holds neither [..] nor a tilde. *)
Definition audio_name (o : string) : Prop :=
  str_in (toLowerCase (path.extname o)) ALLOWED_EXTENSIONS = true
  /\ includes o ".." = false
  /\ includes o "~" = false.

(** The stored name of an upload without its extension:
    [Date.now() + "-" + Math.round(Math.random() * 1e9)]. *)
Definition upload_stem (now rnd : N) : string :=
  N_toString now ++ "-" ++ N_toString rnd.

(** Every non-empty path the row holds is one that PathGuard returns
    unchanged. *)
Definition stable_row (cwd : string) (t : AudioTrack) : Prop :=
  forall fp, from_record t fp -> fp <> "" ->
    validateAndSanitizePath cwd fp = Some fp.

Definition stable_paths (cwd : string) (db : Store) : Prop :=
  forall i t, db !! i = Some t -> stable_row cwd t.

(** PathGuard returns the output path of the job unchanged. *)
Definition stable_job (cwd : string) (j : Job) : Prop :=
  validateAndSanitizePath cwd (job_outputPath j) = Some (job_outputPath j).

(** Everything the server holds is stable: the rows of the table, the
    output paths of the running jobs, and the rows and output paths of
    the jobs that are about to write. *)
Definition all_stable (cwd : string)
    (s : Store * list Job * list Pending) : Prop :=
  stable_paths cwd s.1.1
  /\ Forall (stable_job cwd) s.1.2
  /\ Forall (fun w => stable_row cwd (pending_row w)
                      /\ stable_job cwd (pending_job w)) s.2.


(** A small installation used to exercise the statements: the server
    runs in [/app], one uploaded track, one file on disk. *)
Module Demo.
Definition cwd : string := "/app".

Definition parse (body : string) : option Settings :=
  if String.eqb body "" then None
  else Some {| introLength := 10; outroLength := 5;
               preserveVocals := true; beatDetection := "auto" |}.

Definition song (vc : option Z) : AudioTrack :=
  new_track 1 7 "song.mp3" "/app/uploads/1700000000000-42.mp3" vc.

Definition db (vc : option Z) : Store := {[ 1 := song vc ]}.

(** A track whose original file name has an extension that PathGuard
    does not allow. *)
Definition notes : AudioTrack :=
  new_track 2 7 "notes.txt" "/app/uploads/1700000000001-43.mp3" None.

(** A track whose original file name has a tilde. *)
Definition backup : AudioTrack :=
  new_track 3 7 "mix~old.mp3" "/app/uploads/1700000000002-44.mp3" None.

(** The job that [/process] starts for [song] when [k] versions
    exist. *)
Definition job (k : Z) : Job :=
  let out :=
    "/app/results/song_extended_v" ++ num_toString (Num (k + 1)) ++ ".mp3" in
  {| job_id := 1;
     job_outputPath := out;
     job_args :=
       ["/app/uploads/1700000000000-42.mp3"; out; "10"; "5"; "true"; "auto"] |}.

Definition disk : Fs :=
  fun p =>
    if String.eqb p "/app/uploads/1700000000000-42.mp3" then Some 1000
    else None.
End Demo.

(* ================================================================== *)
(** * Sanity checks of the runtime model *)
(* ================================================================== *)

Example extname_html : path.extname "index.html" = ".html".
Proof. reflexivity. Qed.
Example extname_two : path.extname "index.coffee.md" = ".md".
Proof. reflexivity. Qed.
Example extname_dot : path.extname "index." = ".".
Proof. reflexivity. Qed.
Example extname_none : path.extname "index" = "".
Proof. reflexivity. Qed.
Example extname_hidden : path.extname ".index" = "".
Proof. reflexivity. Qed.
Example extname_hidden_md : path.extname "/a/b/.index.md" = ".md".
Proof. reflexivity. Qed.
Example basename_ext : path.basename "/foo/bar/quux.html" ".html" = "quux".
Proof. reflexivity. Qed.
Example resolve_rel : path.resolve "/app" "uploads/x/../a.mp3" = "/app/uploads/a.mp3".
Proof. reflexivity. Qed.
Example resolve_abs : path.resolve "/app" "/tmp//file/" = "/tmp/file".
Proof. reflexivity. Qed.
Example resolve_root : path.resolve "/app" "/../.." = "/".
Proof. reflexivity. Qed.
Example join_ex : path.join "/foo" "bar/baz/asdf/quux/.." = "/foo/bar/baz/asdf".
Proof. reflexivity. Qed.
Example parseInt_ex : parseInt10 "  -12px" = Num (-12).
Proof. reflexivity. Qed.
Example parseInt_hex : parseInt "0x1f" = Num 31.
Proof. reflexivity. Qed.
Example parseInt_nan : parseInt10 "" = NaN.
Proof. reflexivity. Qed.
Example parseInt_nbsp :
  parseInt10 (String (ascii_of_nat 194) (String (ascii_of_nat 160) "12"))
  = Num 12.
Proof. reflexivity. Qed.
Example parseInt_bom_tab :
  parseInt10
    (String (ascii_of_nat 239) (String (ascii_of_nat 187)
       (String (ascii_of_nat 191) (String (ascii_of_nat 9) "7x"))))
  = Num 7.
Proof. reflexivity. Qed.
Example parseInt_not_space :
  parseInt10 (String (ascii_of_nat 194) (String (ascii_of_nat 133) "12")) = NaN.
Proof. reflexivity. Qed.
Example split_ex : split "-" "100-" = ["100"; ""].
Proof. reflexivity. Qed.
Example toString_ex : num_toString (Num 1000) = "1000".
Proof. reflexivity. Qed.

(* ================================================================== *)
(** * The track store *)
(* ================================================================== *)

Lemma updateAudioTrack_alter (db : Store) (i : Z) (u : UpdateAudioTrack) :
  updateAudioTrack db i u = alter (fun t => apply_update t u) i db.
Proof.
  unfold updateAudioTrack. apply map_eq. intros k.
  destruct (db !! i) as [t|] eqn:Hi.
  - rewrite lookup_alter, lookup_insert.
    destruct (decide (i = k)) as [->|Hne]; [by rewrite Hi | done].
  - rewrite lookup_alter.
    destruct (decide (i = k)) as [->|Hne]; [by rewrite Hi | done].
Qed.

Lemma lookup_updateAudioTrack_eq (db : Store) (i : Z) (u : UpdateAudioTrack) :
  updateAudioTrack db i u !! i = (fun t => apply_update t u) <$> db !! i.
Proof. rewrite updateAudioTrack_alter. apply lookup_alter_eq. Qed.

Lemma lookup_updateAudioTrack_ne (db : Store) (i k : Z) (u : UpdateAudioTrack) :
  i <> k -> updateAudioTrack db i u !! k = db !! k.
Proof. intros Hne. rewrite updateAudioTrack_alter. by apply lookup_alter_ne. Qed.

Lemma apply_error_update (t : AudioTrack) :
  apply_update t error_update = with_status t error.
Proof. reflexivity. Qed.

(* ================================================================== *)
(** * Failure of the external tool *)
(* ================================================================== *)

Lemma run_job_failed_store (db : Store) (j : Job) (info : InfoOutcome) :
  (run_job db j ToolFailed info).1
  = alter (fun t => with_status t error) (job_id j) db.
Proof. unfold run_job, job_fail. simpl. by rewrite updateAudioTrack_alter. Qed.

(** C7.  When the audio-extension tool fails, the job runs the tool
    once and writes one update, [{ status: "error" }]; nothing is run
    again.  The table afterwards is the table before with the status of
    the job's track set to [error]: the version arrays, the counter and
    every other column of that row are as they were, and so is every
    other row. *)
Theorem tool_failure_sets_error_only (db : Store) (j : Job) (info : InfoOutcome) :
  let '(db', calls) := run_job db j ToolFailed info in
  calls = [RunScript "audioProcessor.py" (job_args j);
           StorageUpdate (job_id j) error_update]
  /\ db' = alter (fun t => with_status t error) (job_id j) db
  /\ (forall k, k <> job_id j -> db' !! k = db !! k)
  /\ (forall t,
        db !! job_id j = Some t ->
        exists t',
          db' !! job_id j = Some t'
          /\ status t' = error
          /\ extendedPaths t' = extendedPaths t
          /\ extendedDurations t' = extendedDurations t
          /\ versionCount t' = versionCount t
          /\ settings t' = settings t
          /\ (id t', userId t', originalFilename t', originalPath t')
             = (id t, userId t, originalFilename t, originalPath t)
          /\ (format t', bitrate t', duration t', bpm t', key t')
             = (format t, bitrate t, duration t, bpm t, key t)).
Proof.
  pose proof (run_job_failed_store db j info) as Hdb.
  unfold run_job in *. simpl in *. split_and!; try done.
  - intros k Hk. rewrite Hdb. by apply lookup_alter_ne.
  - intros t Ht. exists (with_status t error). split; [|done].
    by rewrite Hdb, lookup_alter_eq, Ht.
Qed.

Lemma tool_failure_sets_error_only_witness :
  exists t',
    (run_job (Demo.db (Some 1)) (Demo.job 0) ToolFailed InfoFailed).1 !! 1 = Some t'
    /\ status t' = error
    /\ extendedPaths t' = Some []
    /\ extendedDurations t' = Some []
    /\ versionCount t' = Some 1.
Proof.
  pose proof (tool_failure_sets_error_only (Demo.db (Some 1)) (Demo.job 0)
                InfoFailed) as H.
  cbv beta iota zeta delta [run_job] in H.
  destruct H as (_ & _ & _ & H).
  destruct (H (Demo.song (Some 1)) eq_refl)
    as (t' & Ht' & Hs & Hp & Hd & Hv & _).
  exists t'. split_and!; [exact Ht' | exact Hs | exact Hp | exact Hd | exact Hv].
Defined.

(* ================================================================== *)
(** * The version limit *)
(* ================================================================== *)

(** Closes the goals in which the handler gave an answer that is not the
    one under discussion. *)
Ltac other_answer :=
  try (by intros Hresp; inversion Hresp);
  try (by split; [intros Hresp; inversion Hresp|]);
  try (by intros _; split; [intros Hresp; inversion Hresp|]).

Lemma num_gt_over_limit (t : AudioTrack) :
  num_gt (num_of_column (versionCount t)) (Num 3) = true <-> over_limit t.
Proof.
  unfold over_limit. destruct (versionCount t) as [v|]; simpl.
  - rewrite Z.ltb_lt. split.
    + intros Hv. by exists v.
    + intros (w & Hw & Hlt). by inversion Hw; subst.
  - split; [done | by intros (w & Hw & _)].
Qed.

(** C3.  For a request that names an existing track, the handler answers
    with the 400 version-limit error exactly when [versionCount > 3];
    that answer leaves the table as it is and starts no job.  A track
    with [versionCount = 4] gets it; a track with [versionCount = 3]
    does not, and is accepted (202, one job started) once its settings
    parse and its output path is safe. *)
Theorem version_limit_iff (cwd : string) (parse : string -> option Settings)
    (db : Store) (params_id body : string) (i : Z) (track : AudioTrack) :
  parseInt10 params_id = Num i ->
  getAudioTrack db i = Some track ->
  let '(db', resp, job) := process_handler cwd parse db params_id body in
  (resp = Json 400 limit_message <-> over_limit track)
  /\ (resp = Json 400 limit_message -> db' = db /\ job = None)
  /\ (versionCount track = Some 4 -> resp = Json 400 limit_message /\ db' = db)
  /\ (versionCount track = Some 3 ->
      resp <> Json 400 limit_message
      /\ forall settings outputPath,
           parse body = Some settings ->
           createSafeOutputPath cwd (resultDir cwd) (safeFilename track)
             = Some outputPath ->
           resp = Started 202 "Processing started" i "processing"
           /\ exists j, job = Some j /\ job_id j = i
                        /\ job_outputPath j = outputPath).
Proof.
  intros Hid Htrack. unfold process_handler. rewrite Hid, Htrack.
  pose proof (num_gt_over_limit track) as Hlim.
  destruct (num_gt (num_of_column (versionCount track)) (Num 3)) eqn:Hgt.
  - assert (Hover : over_limit track) by by apply Hlim.
    split_and!; try done.
    intros H3. destruct Hover as (v & Hv & Hlt). rewrite H3 in Hv.
    inversion Hv; subst. lia.
  - assert (Hnot : ~ over_limit track).
    { intros Hover. apply Hlim in Hover. discriminate. }
    assert (H4 : versionCount track <> Some 4).
    { intros H4. apply Hnot. exists 4. split; [done | lia]. }
    destruct (parse body) as [settings|] eqn:Hparse.
    + destruct (createSafeOutputPath cwd (resultDir cwd) (safeFilename track))
        as [outputPath|] eqn:Hout.
      * split_and!; try done.
        intros _. split; [done|].
        intros st op Hst Hop. inversion Hst; inversion Hop; subst.
        split; [done | eauto].
      * split_and!; try done; other_answer.
    + split_and!; try done; other_answer.
Qed.

Lemma version_limit_iff_witness :
  let '(db', resp, job) :=
    process_handler Demo.cwd Demo.parse (Demo.db (Some 3)) "1" "{}" in
  (resp = Json 400 limit_message <-> over_limit (Demo.song (Some 3)))
  /\ (resp = Json 400 limit_message -> db' = Demo.db (Some 3) /\ job = None)
  /\ (versionCount (Demo.song (Some 3)) = Some 4 ->
      resp = Json 400 limit_message /\ db' = Demo.db (Some 3))
  /\ (versionCount (Demo.song (Some 3)) = Some 3 ->
      resp <> Json 400 limit_message
      /\ forall settings outputPath,
           Demo.parse "{}" = Some settings ->
           createSafeOutputPath Demo.cwd (resultDir Demo.cwd)
             (safeFilename (Demo.song (Some 3))) = Some outputPath ->
           resp = Started 202 "Processing started" 1 "processing"
           /\ exists j, job = Some j /\ job_id j = 1
                        /\ job_outputPath j = outputPath).
Proof.
  apply (version_limit_iff Demo.cwd Demo.parse (Demo.db (Some 3)) "1" "{}" 1
           (Demo.song (Some 3))); reflexivity.
Defined.

(* ================================================================== *)
(** * What [versionCount] counts *)
(* ================================================================== *)

Lemma completed_update_versionCount (t : AudioTrack) (out : string) (d : option Q) :
  set_versionCount (completed_update t out d) = Some (next_versionCount (versionCount t)).
Proof.
  unfold completed_update, next_versionCount, num_or, num_truthy; simpl.
  destruct (versionCount t) as [v|]; simpl; [|done].
  destruct (v =? 0) eqn:Hv; simpl; [done|]. f_equal.
Qed.

Lemma process_handler_job (cwd : string) (parse : string -> option Settings)
    (db db1 : Store) (params_id body : string) (resp : Response) (j : Job) :
  process_handler cwd parse db params_id body = (db1, resp, Some j) ->
  exists track settings,
    parseInt10 params_id = Num (job_id j)
    /\ db !! job_id j = Some track
    /\ ~ over_limit track
    /\ parse body = Some settings
    /\ createSafeOutputPath cwd (resultDir cwd) (safeFilename track)
       = Some (job_outputPath j)
    /\ resp = Started 202 "Processing started" (job_id j) "processing"
    /\ db1 !! job_id j
       = Some (apply_update (with_status track
                 (if (0 <? Z.of_nat (length (asArray (extendedPaths track))))
                  then regenerate else processing))
               {| set_format := None; set_bitrate := None; set_duration := None;
                  set_bpm := None; set_key := None; set_status := None;
                  set_settings := Some settings; set_extendedPaths := None;
                  set_extendedDurations := None; set_versionCount := None |})
    /\ (forall k, k <> job_id j -> db1 !! k = db !! k).
Proof.
  unfold process_handler, getAudioTrack.
  destruct (parseInt10 params_id) as [|i]; [intros H; inversion H|].
  destruct (db !! i) as [track|] eqn:Htrack; [|intros H; inversion H].
  pose proof (num_gt_over_limit track) as Hlim.
  destruct (num_gt _ _) eqn:Hgt; [intros H; inversion H|].
  destruct (parse body) as [settings|] eqn:Hparse; [|intros H; inversion H].
  destruct (createSafeOutputPath _ _ _) as [out|] eqn:Hout;
    [|intros H; inversion H].
  intros H. inversion H; subst; simpl. exists track, settings.
  split_and!; try done.
  - intros Hover. apply Hlim in Hover. discriminate.
  - rewrite lookup_updateAudioTrack_eq, Htrack. reflexivity.
  - intros k Hk. apply lookup_updateAudioTrack_ne. congruence.
Qed.

Lemma run_job_failed_lookup (db : Store) (j : Job) (info : InfoOutcome) :
  (run_job db j ToolFailed info).1 !! job_id j
  = (fun t => with_status t error) <$> db !! job_id j.
Proof. rewrite run_job_failed_store. apply lookup_alter_eq. Qed.

Lemma run_job_done_lookup (db : Store) (j : Job) (d : option Q) (t : AudioTrack) :
  db !! job_id j = Some t ->
  (run_job db j ToolDone (InfoDone d)).1 !! job_id j
  = Some (apply_update t
            (completed_update t (job_outputPath j) (extendedDuration_of d))).
Proof.
  intros Ht. unfold run_job, job_refetch, getAudioTrack. rewrite Ht. simpl.
  unfold job_write. by rewrite lookup_updateAudioTrack_eq, Ht.
Qed.

(** C4, as the code has it.  [versionCount] counts completed jobs, not
    dispatched ones: accepting a request leaves the counter as it is, a
    job whose tool fails leaves it as it is, and a job that completes
    sets it to [(versionCount || 1) + 1], which is 2 for a track whose
    counter was unset, 0 or 1. *)
Theorem versionCount_counts_completions (cwd : string)
    (parse : string -> option Settings) (db db1 : Store)
    (params_id body : string) (resp : Response) (j : Job) :
  process_handler cwd parse db params_id body = (db1, resp, Some j) ->
  exists t,
    db !! job_id j = Some t
    /\ versionCount <$> db1 !! job_id j = Some (versionCount t)
    /\ (forall info,
          versionCount <$> (run_job db1 j ToolFailed info).1 !! job_id j
          = Some (versionCount t))
    /\ (forall d,
          versionCount <$> (run_job db1 j ToolDone (InfoDone d)).1 !! job_id j
          = Some (Some (next_versionCount (versionCount t))))
    /\ next_versionCount (versionCount t) <> 1
    /\ (versionCount t = None \/ versionCount t = Some 0 \/ versionCount t = Some 1 ->
        next_versionCount (versionCount t) = 2).
Proof.
  intros Hrun.
  destruct (process_handler_job _ _ _ _ _ _ _ _ Hrun)
    as (t & st & _ & Ht & Hlim & _ & _ & _ & H1 & _).
  exists t. split_and!; try done.
  - by rewrite H1.
  - intros info. by rewrite run_job_failed_lookup, H1.
  - intros d. rewrite (run_job_done_lookup _ _ _ _ H1).
    cbn [fmap option_fmap option_map]. do 2 f_equal.
    unfold apply_update. cbn [versionCount].
    by rewrite completed_update_versionCount.
  - unfold next_versionCount. destruct (versionCount t) as [v|]; [|done].
    destruct (v =? 0) eqn:Hv; [done|].
    apply Z.eqb_neq in Hv. lia.
  - intros [-> | [-> | ->]]; reflexivity.
Qed.

Lemma versionCount_counts_completions_witness :
  exists t,
    Demo.db (Some 0) !! 1 = Some t /\ versionCount t = Some 0.
Proof.
  destruct (versionCount_counts_completions Demo.cwd Demo.parse
              (Demo.db (Some 0))
              (process_handler Demo.cwd Demo.parse (Demo.db (Some 0)) "1" "{}").1.1
              "1" "{}"
              (Started 202 "Processing started" 1 "processing")
              {| job_id := 1;
                 job_outputPath := "/app/results/song_extended_v1.mp3";
                 job_args :=
                   ["/app/uploads/1700000000000-42.mp3";
                    "/app/results/song_extended_v1.mp3";
                    "10"; "5"; "true"; "auto"] |}
              eq_refl)
    as (t & Ht & _).
  exists t. split; [exact Ht|].
  simpl in Ht. vm_compute in Ht. by inversion Ht.
Defined.

(** C4, as the claim has it, fails on a fresh track whose counter is 0:
    accepting the request and a failing tool leave the counter at 0 (the
    claim: incremented by the dispatch), and one completed job leaves it
    at 2 (the claim: 1). *)
Lemma versionCount_dispatch_counterexample :
  let '(db1, resp, job) :=
    process_handler Demo.cwd Demo.parse (Demo.db (Some 0)) "1" "{}" in
  exists j,
    job = Some j
    /\ resp = Started 202 "Processing started" 1 "processing"
    /\ versionCount <$> db1 !! 1 = Some (Some 0)
    /\ versionCount <$> (run_job db1 j ToolFailed InfoFailed).1 !! 1
       = Some (Some 0)
    /\ versionCount
         <$> (run_job db1 j ToolDone (InfoDone (Some (215 # 1)%Q))).1 !! 1
       = Some (Some 2).
Proof. vm_compute. eexists. split_and!; reflexivity. Qed.

(* ================================================================== *)
(** * Version selectors *)
(* ================================================================== *)

Lemma requested_version_num (q : option string) :
  exists n, requested_version q = Num n.
Proof.
  unfold requested_version, num_or.
  destruct (parseInt_opt q) as [|n]; simpl; [by exists 0|].
  destruct (n =? 0); simpl; eauto.
Qed.

Lemma version_missing_no_path (t : AudioTrack) (v : num) :
  version_missing t v ->
  truthy_path (mjoin (array_get (asArray (extendedPaths t)) v)) = None.
Proof.
  unfold version_missing, array_get. destruct v as [|n]; [done|].
  intros [Hneg | [Hge | Hnull]].
  - apply Z.ltb_lt in Hneg. by rewrite Hneg.
  - destruct (n <? 0); [done|].
    rewrite lookup_ge_None_2; [done | lia].
  - destruct (n <? 0); [done|]. by rewrite Hnull.
Qed.

Lemma located_path_in_record (arr : list (option string)) (v : num) (fp : string) :
  truthy_path (mjoin (array_get arr v)) = Some fp -> In (Some fp) arr.
Proof.
  unfold array_get. destruct v as [|n]; [done|].
  destruct (n <? 0); [done|].
  destruct (arr !! Z.to_nat n) as [[s|]|] eqn:Hl; simpl; try done.
  destruct (str_truthy s); [|done]. intros [= ->].
  apply list_elem_of_In. by eapply list_elem_of_lookup_2.
Qed.

(** C8.  For a request that names an existing track and a version
    selector that is outside the bounds of [extendedPaths] or points at
    a [null] entry, the streaming route (type [extended]) and the
    download route both answer 404, having touched no file; a missing
    selector is read as index 0. *)
Theorem unknown_version_404 (cwd : string) (db : Store) (fs : Fs)
    (params_id : string) (query_version range : option string)
    (i : Z) (t : AudioTrack) :
  parseInt10 params_id = Num i ->
  getAudioTrack db i = Some t ->
  version_missing t (requested_version query_version) ->
  audio_handler cwd db fs params_id "extended" query_version range
  = (Json 404 "extended audio file not found", [])
  /\ download_handler cwd db fs params_id query_version
     = (Json 404 "Extended version not found", [])
  /\ requested_version None = Num 0.
Proof.
  intros Hid Ht Hmiss.
  pose proof (version_missing_no_path _ _ Hmiss) as Hnone.
  split_and!; [| |done].
  - unfold audio_handler, audio_locate. rewrite Hid, Ht. simpl.
    by rewrite Hnone.
  - unfold download_handler. rewrite Hid, Ht. cbv zeta. rewrite Hnone.
    by destruct (num_ge _ _).
Qed.

Lemma unknown_version_404_witness :
  let t :=
    apply_update (Demo.song (Some 3))
      {| set_format := None; set_bitrate := None; set_duration := None;
         set_bpm := None; set_key := None; set_status := Some completed;
         set_settings := None;
         set_extendedPaths :=
           Some [Some "/app/results/song_extended_v1.mp3";
                 Some "/app/results/song_extended_v2.mp3"];
         set_extendedDurations := Some [None; None];
         set_versionCount := None |} in
  audio_handler Demo.cwd {[ 1 := t ]} Demo.disk "1" "extended" (Some "5") None
  = (Json 404 "extended audio file not found", [])
  /\ download_handler Demo.cwd {[ 1 := t ]} Demo.disk "1" (Some "5")
     = (Json 404 "Extended version not found", [])
  /\ requested_version None = Num 0.
Proof.
  intros t.
  apply (unknown_version_404 Demo.cwd {[ 1 := t ]} Demo.disk "1" (Some "5")
           None 1 t); [reflexivity | reflexivity |].
  subst t. vm_compute. right; left. intros H; discriminate H.
Defined.

(* ================================================================== *)
(** * Path validation in the delivery routes *)
(* ================================================================== *)



(* ================================================================== *)
(** * String facts *)
(* ================================================================== *)

Lemma ascii_eqb_true (c d : ascii) : Ascii.eqb c d = true <-> c = d.
Proof. apply Ascii.eqb_eq. Qed.

Lemma str_app_cons (x : ascii) (a b : string) :
  String x a ++ b = String x (a ++ b).
Proof. reflexivity. Qed.

Lemma str_app_nil_l (a : string) : "" ++ a = a.
Proof. reflexivity. Qed.

Lemma str_app_assoc (a b c : string) : (a ++ b) ++ c = a ++ (b ++ c).
Proof.
  induction a as [|x a IH]; [done|].
  by rewrite !str_app_cons, IH.
Qed.

Lemma str_app_nil_r (a : string) : a ++ "" = a.
Proof.
  induction a as [|x a IH]; [done|].
  by rewrite str_app_cons, IH.
Qed.

Lemma str_app_inv_head (a b c : string) : a ++ b = a ++ c -> b = c.
Proof.
  induction a as [|x a IH]; [done|].
  rewrite !str_app_cons. intros [= H]. auto.
Qed.

Lemma startsWith_spec (s p : string) :
  startsWith s p = true <-> exists t, s = p ++ t.
Proof.
  revert s. induction p as [|c p IH]; intros s.
  - split; [intros _; by exists s | by destruct s].
  - destruct s as [|d s]; simpl.
    + split; [done | intros (t & Ht); inversion Ht].
    + rewrite andb_true_iff, ascii_eqb_true, IH. split.
      * intros (-> & t & ->). by exists t.
      * intros (t & Ht). inversion Ht; subst. eauto.
Qed.

Lemma includes_spec (s sub : string) :
  includes s sub = true <-> occurs_in sub s.
Proof.
  unfold occurs_in. induction s as [|c s IH].
  - change (includes "" sub) with (startsWith "" sub || false).
    rewrite orb_false_r, startsWith_spec. split.
    + intros (t & Ht). by exists "", t.
    + intros (a & b & Hab). destruct a as [|x a]; [eauto | inversion Hab].
  - change (includes (String c s) sub)
      with (startsWith (String c s) sub || includes s sub).
    rewrite orb_true_iff, startsWith_spec, IH. split.
    + intros [(t & Ht) | (a & b & Hab)].
      * by exists "", t.
      * exists (String c a), b. simpl. by rewrite Hab.
    + intros (a & b & Hab). destruct a as [|x a]; simpl in Hab.
      * left. eauto.
      * right. inversion Hab; subst. eauto.
Qed.

Lemma str_in_spec (x : string) (l : list string) :
  str_in x l = true <-> In x l.
Proof.
  unfold str_in. rewrite existsb_exists. split.
  - intros (y & Hy & Heq). apply String.eqb_eq in Heq. by subst.
  - intros Hx. exists x. split; [done | apply String.eqb_refl].
Qed.

(* ================================================================== *)
(** * PathGuard *)
(* ================================================================== *)

Lemma isInAllowedDirectory_false (cwd r : string) :
  isInAllowedDirectory cwd r = false <-> outside_allowed cwd r.
Proof.
  unfold isInAllowedDirectory, outside_allowed, inside. split.
  - intros Hex d Hd Hin.
    assert (Hcontra : existsb
              (fun allowedDir =>
                 startsWith r (allowedDir ++ path.sep) || String.eqb r allowedDir)
              (ALLOWED_DIRECTORIES cwd) = true); [|congruence].
    apply existsb_exists. exists d. split; [done|].
    apply orb_true_iff. destruct Hin as [-> | (rest & ->)].
    + right. apply String.eqb_refl.
    + left. apply startsWith_spec. exists rest.
      unfold path.sep. by rewrite str_app_assoc.
  - intros Hout. apply not_true_is_false. intros Hex.
    apply existsb_exists in Hex. destruct Hex as (d & Hd & Hor).
    apply (Hout d Hd). apply orb_true_iff in Hor. destruct Hor as [Hpre | Heq].
    + right. apply startsWith_spec in Hpre. destruct Hpre as (rest & ->).
      exists rest. unfold path.sep. by rewrite str_app_assoc.
    + left. by apply String.eqb_eq.
Qed.

Lemma validate_null_or_resolved (cwd p : string) :
  validateAndSanitizePath cwd p = None
  \/ validateAndSanitizePath cwd p = Some (path.resolve cwd p).
Proof.
  unfold validateAndSanitizePath.
  destruct (negb _); [by left|].
  destruct (negb _); [by left|].
  destruct (_ || _); [by left | by right].
Qed.

(** C1, as the code has it.  [validateAndSanitizePath] answers [null]
    exactly when the resolved form of the path lies outside every
    allowed directory, or its lower-cased extension is not one of
    [.mp3], [.wav], [.flac], [.aiff], or the resolved form (not the raw
    input) contains [..] or [~]; otherwise it answers the resolved
    path, and never any other path. *)
Theorem path_guard_rejection (cwd p : string) :
  let r := path.resolve cwd p in
  (validateAndSanitizePath cwd p = None
   <-> (outside_allowed cwd r
        \/ ~ In (toLowerCase (path.extname r)) [".mp3"; ".wav"; ".flac"; ".aiff"]
        \/ occurs_in ".." r
        \/ occurs_in "~" r))
  /\ (validateAndSanitizePath cwd p = None
      \/ validateAndSanitizePath cwd p = Some r).
Proof.
  intros r. unfold validateAndSanitizePath. fold r.
  pose proof (isInAllowedDirectory_false cwd r) as Hdir.
  pose proof (str_in_spec (toLowerCase (path.extname r)) ALLOWED_EXTENSIONS) as Hext.
  pose proof (includes_spec r "..") as Hdots.
  pose proof (includes_spec r "~") as Htilde.
  change ALLOWED_EXTENSIONS with [".mp3"; ".wav"; ".flac"; ".aiff"] in Hext at 2.
  destruct (isInAllowedDirectory cwd r); cbn [negb].
  2:{ split; [|by left]. split; [intros _; left; by apply Hdir | done]. }
  destruct (str_in _ _); cbn [negb].
  2:{ split; [|by left]. split; [|done]. intros _. right; left.
      intros Hin. apply Hext in Hin. discriminate. }
  destruct (includes r ".."); cbn [orb].
  { split; [|by left]. split; [|done]. intros _. right; right; left.
    by apply Hdots. }
  destruct (includes r "~").
  { split; [|by left]. split; [|done]. intros _. right; right; right.
    by apply Htilde. }
  split; [|by right]. split; [done|].
  intros [Hout | [Hbad | [Hd | Ht]]].
  - apply Hdir in Hout. discriminate.
  - exfalso. apply Hbad. by apply Hext.
  - apply Hdots in Hd. discriminate.
  - apply Htilde in Ht. discriminate.
Qed.

(** C1, as the claim has it, fails: a raw path with a parent-directory
    token, and one with a home token that a later [..] removes, are both
    accepted, because the tokens are looked for in the resolved path. *)
Lemma raw_dotdot_accepted_counterexample :
  occurs_in ".." "uploads/sub/../a.mp3"
  /\ validateAndSanitizePath "/app" "uploads/sub/../a.mp3"
     = Some "/app/uploads/a.mp3"
  /\ occurs_in "~" "/app/uploads/~/../b.wav"
  /\ validateAndSanitizePath "/app" "/app/uploads/~/../b.wav"
     = Some "/app/uploads/b.wav".
Proof.
  split_and!; try reflexivity.
  - by exists "uploads/sub/", "/a.mp3".
  - by exists "/app/uploads/", "/../b.wav".
Qed.

(* ================================================================== *)
(** * Decimal numbers: printing and [parseInt] *)
(* ================================================================== *)

Lemma all_digits_string_of_uint (d : Decimal.uint) :
  all_digits (NilEmpty.string_of_uint d) = true.
Proof. induction d; simpl; auto. Qed.

Lemma N_toString_NilEmpty (n : N) :
  N_toString n = NilEmpty.string_of_uint (N.to_uint n).
Proof.
  unfold N_toString. destruct n as [|q]; [done|]. simpl.
  pose proof (DecimalPos.Unsigned.to_uint_nonnil q) as Hnil.
  by destruct (Pos.to_uint q).
Qed.

Lemma N_toString_digits (n : N) : all_digits (N_toString n) = true.
Proof. rewrite N_toString_NilEmpty. apply all_digits_string_of_uint. Qed.

Lemma N_toString_nonempty (n : N) : N_toString n <> "".
Proof.
  unfold N_toString. destruct n as [|q]; [done|]. simpl.
  pose proof (DecimalPos.Unsigned.to_uint_nonnil q) as Hnil.
  by destruct (Pos.to_uint q).
Qed.

Lemma digits_value_N_toString (n : N) : digits_value (N_toString n) = Z.of_N n.
Proof.
  unfold digits_value. rewrite N_toString_NilEmpty, NilEmpty.usu.
  by rewrite DecimalN.Unsigned.of_to.
Qed.

Lemma take_digits_all (s : string) : all_digits s = true -> take_digits s = s.
Proof.
  induction s as [|c s IH]; [done|]. simpl.
  intros [Hc Hs]%andb_true_iff. rewrite Hc. by rewrite IH.
Qed.

Lemma is_digit_facts (c : ascii) :
  is_digit c = true ->
  is_space c = false /\ Ascii.eqb c "-" = false /\ Ascii.eqb c "+" = false.
Proof.
  unfold is_digit, is_space. intros [H1 H2]%andb_true_iff.
  apply Nat.leb_le in H1. apply Nat.leb_le in H2. split_and!.
  - apply orb_false_iff. split.
    + apply Nat.eqb_neq. lia.
    + apply andb_false_iff. right. apply Nat.leb_gt. lia.
  - apply Ascii.eqb_neq. intros ->.
    change (nat_of_ascii "-") with 45%nat in H1. lia.
  - apply Ascii.eqb_neq. intros ->.
    change (nat_of_ascii "+") with 43%nat in H1. lia.
Qed.

Lemma trimStart_digit (c : ascii) (r : string) :
  is_digit c = true -> trimStart (String c r) = String c r.
Proof.
  intros Hc.
  destruct c as [[] [] [] [] [] [] [] []]; try discriminate Hc;
    by destruct r as [|b [|d r]].
Qed.

(** [parseInt] reads back what printing a natural number wrote. *)
Lemma parseInt10_N_toString (n : N) : parseInt10 (N_toString n) = Num (Z.of_N n).
Proof.
  pose proof (N_toString_digits n) as Hd.
  pose proof (N_toString_nonempty n) as Hne.
  pose proof (digits_value_N_toString n) as Hv.
  unfold parseInt10. destruct (N_toString n) as [|c r]; [done|].
  pose proof Hd as Hd'. simpl in Hd'. apply andb_true_iff in Hd' as [Hc _].
  destruct (is_digit_facts c Hc) as (Hsp & Hminus & Hplus).
  rewrite (trimStart_digit c r Hc). cbn [split_sign]. rewrite Hminus, Hplus.
  rewrite (take_digits_all _ Hd), Hv. reflexivity.
Qed.

Lemma num_toString_N (n : N) : num_toString (Num (Z.of_N n)) = N_toString n.
Proof.
  unfold num_toString.
  destruct (Z.of_N n <? 0) eqn:Hneg; [apply Z.ltb_lt in Hneg; lia|].
  by rewrite N2Z.id.
Qed.

(** ** Splitting at a separator *)

Lemma split_nonempty (sep : ascii) (s : string) : split sep s <> [].
Proof.
  destruct s as [|c s]; simpl; [done|].
  destruct (Ascii.eqb c sep); [done|]. by destruct (split sep s).
Qed.

Lemma split_app_sep (sep : ascii) (a b : string) :
  split sep (a ++ String sep b) = (split sep a ++ split sep b)%list.
Proof.
  induction a as [|c a IH].
  - rewrite str_app_nil_l. simpl. by rewrite Ascii.eqb_refl.
  - rewrite str_app_cons. simpl. rewrite IH.
    destruct (Ascii.eqb c sep); [done|].
    pose proof (split_nonempty sep a) as Hne.
    by destruct (split sep a).
Qed.

Lemma split_digits (s : string) : all_digits s = true -> split "-" s = [s].
Proof.
  induction s as [|c s IH]; [done|]. simpl.
  intros [Hc Hs]%andb_true_iff.
  destruct (is_digit_facts c Hc) as (_ & -> & _). by rewrite IH.
Qed.

(** The two forms of a byte range, as the handler takes them apart. *)
Lemma range_parts_closed (s e : N) :
  split "-" (replace_first "bytes=" "" (range_closed s e))
  = [N_toString s; N_toString e].
Proof.
  change (replace_first "bytes=" "" (range_closed s e))
    with (N_toString s ++ String "-" (N_toString e)).
  rewrite split_app_sep, !split_digits by apply N_toString_digits. done.
Qed.

Lemma range_parts_open (s : N) :
  split "-" (replace_first "bytes=" "" (range_open s))
  = [N_toString s; ""].
Proof.
  change (replace_first "bytes=" "" (range_open s))
    with (N_toString s ++ String "-" "").
  rewrite split_app_sep, split_digits by apply N_toString_digits. done.
Qed.

Lemma truthy_N_toString (n : N) :
  truthy_path (Some (N_toString n)) = Some (N_toString n).
Proof.
  unfold truthy_path, str_truthy.
  destruct (String.eqb_spec (N_toString n) ""); [|done].
  by destruct (N_toString_nonempty n).
Qed.

(* ================================================================== *)
(** * Byte ranges *)
(* ================================================================== *)

Lemma range_response_closed (safePath : string) (fileSize : Z) (s e : N) :
  range_response safePath fileSize (range_closed s e)
  = (if createReadStream_accepts (Num (Z.of_N s)) (Num (Z.of_N e))
     then Piped 206 (partial_head (Z.of_N s) (Z.of_N e) fileSize) safePath
            (Some (Num (Z.of_N s), Num (Z.of_N e)))
     else Json 500 "Error streaming audio",
     Num (Z.of_N s), Num (Z.of_N e)).
Proof.
  unfold range_response. rewrite range_parts_closed.
  cbn [lookup list_lookup default from_option Datatypes.id].
  rewrite truthy_N_toString, !parseInt10_N_toString.
  by destruct (createReadStream_accepts _ _).
Qed.

Lemma range_response_open (safePath : string) (fileSize : Z) (s : N) :
  range_response safePath fileSize (range_open s)
  = (if createReadStream_accepts (Num (Z.of_N s)) (Num (fileSize - 1))
     then Piped 206 (partial_head (Z.of_N s) (fileSize - 1) fileSize) safePath
            (Some (Num (Z.of_N s), Num (fileSize - 1)))
     else Json 500 "Error streaming audio",
     Num (Z.of_N s), Num (fileSize - 1)).
Proof.
  unfold range_response. rewrite range_parts_open.
  cbn [lookup list_lookup default from_option Datatypes.id truthy_path
       str_truthy String.eqb negb].
  rewrite parseInt10_N_toString.
  by destruct (createReadStream_accepts _ _).
Qed.

Lemma createReadStream_accepts_iff (a b : Z) :
  createReadStream_accepts (Num a) (Num b) = true
  <-> 0 <= a /\ a <= b /\ b <= MAX_SAFE_INTEGER.
Proof.
  unfold createReadStream_accepts, valid_offset, num_ge.
  rewrite !andb_true_iff, !Z.leb_le. lia.
Qed.

Lemma audio_handler_range (cwd : string) (db : Store) (fs : Fs)
    (params_id type_ : string) (query_version : option string)
    (filePath safePath : string) (fileSize : Z) (r : string) :
  audio_locate cwd db fs params_id type_ query_version
  = inr (filePath, safePath, fileSize) ->
  r <> "" ->
  (audio_handler cwd db fs params_id type_ query_version (Some r)).1
  = (range_response safePath fileSize r).1.1.
Proof.
  intros Hloc Hr. unfold audio_handler. rewrite Hloc.
  unfold truthy_path, str_truthy.
  destruct (String.eqb_spec r ""); [done|]. cbn [negb].
  by destruct (range_response safePath fileSize r) as [[resp st] en].
Qed.

Lemma audio_handler_closed (cwd : string) (db : Store) (fs : Fs)
    (params_id type_ : string) (query_version : option string)
    (filePath safePath : string) (fileSize : Z) (s e : N) :
  audio_locate cwd db fs params_id type_ query_version
  = inr (filePath, safePath, fileSize) ->
  (audio_handler cwd db fs params_id type_ query_version
     (Some (range_closed s e))).1
  = if createReadStream_accepts (Num (Z.of_N s)) (Num (Z.of_N e))
    then Piped 206 (partial_head (Z.of_N s) (Z.of_N e) fileSize) safePath
           (Some (Num (Z.of_N s), Num (Z.of_N e)))
    else Json 500 "Error streaming audio".
Proof.
  intros Hloc. rewrite (audio_handler_range _ _ _ _ _ _ _ _ _ _ Hloc); [|done].
  by rewrite range_response_closed.
Qed.

Lemma audio_handler_open (cwd : string) (db : Store) (fs : Fs)
    (params_id type_ : string) (query_version : option string)
    (filePath safePath : string) (fileSize : Z) (s : N) :
  audio_locate cwd db fs params_id type_ query_version
  = inr (filePath, safePath, fileSize) ->
  (audio_handler cwd db fs params_id type_ query_version
     (Some (range_open s))).1
  = if createReadStream_accepts (Num (Z.of_N s)) (Num (fileSize - 1))
    then Piped 206 (partial_head (Z.of_N s) (fileSize - 1) fileSize) safePath
           (Some (Num (Z.of_N s), Num (fileSize - 1)))
    else Json 500 "Error streaming audio".
Proof.
  intros Hloc. rewrite (audio_handler_range _ _ _ _ _ _ _ _ _ _ Hloc); [|done].
  by rewrite range_response_open.
Qed.

(** C6, as the code has it.  Once the handler has located an existing
    file of [fileSize] bytes: a header [bytes=first-last] with
    [first <= last] is answered 206 with [Content-Range] equal to
    [bytes first-last/fileSize], [Accept-Ranges: bytes] and
    [Content-Length] equal to [last - first + 1]; a header
    [bytes=first-] with [first <= fileSize - 1] is answered the same
    way with [last = fileSize - 1]; no [Range] header is answered 200
    with [Content-Length] equal to [fileSize].  The last byte of a
    range, given or taken from the size, is at most
    [Number.MAX_SAFE_INTEGER]. *)
Theorem byte_range_streaming (cwd : string) (db : Store) (fs : Fs)
    (params_id type_ : string) (query_version : option string)
    (filePath safePath : string) (fileSize : Z) :
  audio_locate cwd db fs params_id type_ query_version
  = inr (filePath, safePath, fileSize) ->
  (forall first last : N,
     (first <= last)%N -> Z.of_N last <= MAX_SAFE_INTEGER ->
     (audio_handler cwd db fs params_id type_ query_version
        (Some (range_closed first last))).1
     = Piped 206 (partial_head (Z.of_N first) (Z.of_N last) fileSize) safePath
         (Some (Num (Z.of_N first), Num (Z.of_N last))))
  /\ (forall first : N,
        Z.of_N first <= fileSize - 1 -> fileSize - 1 <= MAX_SAFE_INTEGER ->
        (audio_handler cwd db fs params_id type_ query_version
           (Some (range_open first))).1
        = Piped 206 (partial_head (Z.of_N first) (fileSize - 1) fileSize) safePath
            (Some (Num (Z.of_N first), Num (fileSize - 1))))
  /\ (audio_handler cwd db fs params_id type_ query_version None).1
     = Piped 200
         [("Content-Length", HNum (Num fileSize));
          ("Content-Type", HStr "audio/mpeg")]
         safePath None.
Proof.
  intros Hloc. split_and!.
  - intros first last Hle Hmax. rewrite (audio_handler_closed _ _ _ _ _ _ _ _ _ _ _ Hloc).
    assert (Hacc : createReadStream_accepts (Num (Z.of_N first)) (Num (Z.of_N last)) = true)
      by (apply createReadStream_accepts_iff; lia).
    by rewrite Hacc.
  - intros first Hle Hmax. rewrite (audio_handler_open _ _ _ _ _ _ _ _ _ _ Hloc).
    assert (Hacc : createReadStream_accepts (Num (Z.of_N first)) (Num (fileSize - 1)) = true)
      by (apply createReadStream_accepts_iff; lia).
    by rewrite Hacc.
  - unfold audio_handler. by rewrite Hloc.
Qed.

(** The example of the specification: a file of 1000 bytes and
    [Range: bytes=100-199], then [bytes=100-], then no header. *)
Lemma byte_range_streaming_witness :
  (audio_handler Demo.cwd (Demo.db None) Demo.disk "1" "original" None
     (Some "bytes=100-199")).1
  = Piped 206
      [("Content-Range", HStr "bytes 100-199/1000");
       ("Accept-Ranges", HStr "bytes");
       ("Content-Length", HNum (Num 100));
       ("Content-Type", HStr "audio/mpeg")]
      "/app/uploads/1700000000000-42.mp3" (Some (Num 100, Num 199))
  /\ (audio_handler Demo.cwd (Demo.db None) Demo.disk "1" "original" None
        (Some "bytes=100-")).1
     = Piped 206
         [("Content-Range", HStr "bytes 100-999/1000");
          ("Accept-Ranges", HStr "bytes");
          ("Content-Length", HNum (Num 900));
          ("Content-Type", HStr "audio/mpeg")]
         "/app/uploads/1700000000000-42.mp3" (Some (Num 100, Num 999))
  /\ (audio_handler Demo.cwd (Demo.db None) Demo.disk "1" "original" None None).1
     = Piped 200
         [("Content-Length", HNum (Num 1000));
          ("Content-Type", HStr "audio/mpeg")]
         "/app/uploads/1700000000000-42.mp3" None.
Proof.
  destruct (byte_range_streaming Demo.cwd (Demo.db None) Demo.disk "1" "original"
              None "/app/uploads/1700000000000-42.mp3"
              "/app/uploads/1700000000000-42.mp3" 1000 eq_refl)
    as (Hclosed & Hopen & Hfull).
  split_and!.
  - apply (Hclosed 100%N 199%N); [lia | unfold MAX_SAFE_INTEGER; lia].
  - apply (Hopen 100%N); [lia | unfold MAX_SAFE_INTEGER; lia].
  - exact Hfull.
Defined.

(** C6, as the claim has it, fails on ranges that the read stream
    refuses: [bytes=500-100], [bytes=0-9007199254740992] (one more than
    [Number.MAX_SAFE_INTEGER]) and, on a file of 1000 bytes,
    [bytes=1000-] are answered 500, not 206. *)
Lemma range_not_206_counterexample :
  (audio_handler Demo.cwd (Demo.db None) Demo.disk "1" "original" None
     (Some "bytes=500-100")).1
  = Json 500 "Error streaming audio"
  /\ (audio_handler Demo.cwd (Demo.db None) Demo.disk "1" "original" None
        (Some "bytes=0-9007199254740992")).1
     = Json 500 "Error streaming audio"
  /\ (audio_handler Demo.cwd (Demo.db None) Demo.disk "1" "original" None
        (Some "bytes=1000-")).1
     = Json 500 "Error streaming audio".
Proof. split_and!; reflexivity. Qed.






(* ================================================================== *)
(** * The paired version arrays *)
(* ================================================================== *)

Lemma paired_keep (t : AudioTrack) (u : UpdateAudioTrack) :
  set_extendedPaths u = None -> set_extendedDurations u = None ->
  extendedPaths (apply_update t u) = extendedPaths t
  /\ extendedDurations (apply_update t u) = extendedDurations t.
Proof. unfold apply_update. simpl. by intros -> ->. Qed.

Lemma arrays_completed (t' t : AudioTrack) (out : string) (d : option Q) :
  asArray (extendedPaths (apply_update t' (completed_update t out d)))
  = (asArray (extendedPaths t) ++ [Some out])%list
  /\ asArray (extendedDurations (apply_update t' (completed_update t out d)))
     = (asArray (extendedDurations t) ++ [d])%list.
Proof. done. Qed.

Lemma paired_completed (t' t : AudioTrack) (out : string) (d : option Q) :
  paired t -> paired (apply_update t' (completed_update t out d)).
Proof.
  unfold paired. intros Hp.
  destruct (arrays_completed t' t out d) as [-> ->].
  rewrite !length_app. simpl. lia.
Qed.

Lemma rows_paired_update (db : Store) (i : Z) (u : UpdateAudioTrack) :
  (forall t, db !! i = Some t -> paired (apply_update t u)) ->
  (forall k t, db !! k = Some t -> paired t) ->
  forall k t, updateAudioTrack db i u !! k = Some t -> paired t.
Proof.
  intros Hu Hdb k t. destruct (decide (i = k)) as [<- | Hne].
  - rewrite lookup_updateAudioTrack_eq.
    destruct (db !! i) as [t0|] eqn:Hi; [|done].
    intros [= <-]. by apply Hu.
  - rewrite lookup_updateAudioTrack_ne by done. apply Hdb.
Qed.

Lemma rows_paired_update_keep (db : Store) (i : Z) (u : UpdateAudioTrack) :
  set_extendedPaths u = None -> set_extendedDurations u = None ->
  (forall k t, db !! k = Some t -> paired t) ->
  forall k t, updateAudioTrack db i u !! k = Some t -> paired t.
Proof.
  intros Hp Hd Hdb. apply rows_paired_update; [|done].
  intros t Ht. unfold paired.
  destruct (paired_keep t u Hp Hd) as [-> ->]. by eapply Hdb.
Qed.

(** What [/process] leaves in the table: nothing new, or the status
    and the settings of one row. *)
Lemma process_handler_store (cwd : string) (parse : string -> option Settings)
    (db : Store) (params_id body : string) :
  (process_handler cwd parse db params_id body).1.1 = db
  \/ exists i st settings,
       (process_handler cwd parse db params_id body).1.1
       = updateAudioTrack db i
           {| set_format := None; set_bitrate := None; set_duration := None;
              set_bpm := None; set_key := None; set_status := Some st;
              set_settings := Some settings; set_extendedPaths := None;
              set_extendedDurations := None; set_versionCount := None |}.
Proof.
  unfold process_handler.
  destruct (parseInt10 params_id) as [|i]; [by left|].
  destruct (getAudioTrack db i) as [track|]; [|by left].
  destruct (num_gt _ _); [by left|].
  destruct (parse body) as [settings|]; [|by left].
  destruct (createSafeOutputPath _ _ _); right; eauto.
Qed.

Lemma step_keeps_paired (cwd : string) (parse : string -> option Settings)
    (s s' : Store * list Pending) :
  step cwd parse s s' -> all_paired s -> all_paired s'.
Proof.
  unfold all_paired.
  destruct 1 as [db P i uid fn fp vc0 Hfresh | db P i f b d m k
                | db P pid body | db P i st settings | db P j t d Hget
                | db P1 P2 w | db P j | db P uid];
    simpl; intros [Hdb HP].
  - split; [|done]. intros k t. unfold createAudioTrack. simpl.
    destruct (decide (i = k)) as [<- | Hne].
    + rewrite lookup_insert_eq. by intros [= <-].
    + rewrite lookup_insert_ne by done. apply Hdb.
  - split; [|done]. by apply rows_paired_update_keep.
  - split; [|done].
    destruct (process_handler_store cwd parse db pid body)
      as [-> | (i & st & settings & ->)]; [done|].
    by apply rows_paired_update_keep.
  - split; [|done]. by apply rows_paired_update_keep.
  - split; [done|]. constructor; [|done]. simpl. by eapply Hdb.
  - apply Forall_app in HP as [HP1 HP2].
    apply Forall_cons in HP2 as [Hw HP2].
    split; [|by apply Forall_app].
    unfold job_write. apply rows_paired_update; [|done].
    intros t _. by apply paired_completed.
  - split; [|done]. unfold job_fail. by apply rows_paired_update_keep.
  - split; [|done]. intros k t. unfold deleteAllUserTracks.
    rewrite map_lookup_filter_Some. intros [Hk _]. by eapply Hdb.
Qed.

Lemma arrays_update_keep (db : Store) (k i : Z) (u : UpdateAudioTrack)
    (t : AudioTrack) :
  set_extendedPaths u = None -> set_extendedDurations u = None ->
  db !! i = Some t ->
  exists t1,
    updateAudioTrack db k u !! i = Some t1
    /\ extendedPaths t1 = extendedPaths t
    /\ extendedDurations t1 = extendedDurations t.
Proof.
  intros Hp Hd Ht. destruct (decide (k = i)) as [-> | Hne].
  - rewrite lookup_updateAudioTrack_eq, Ht. simpl. eexists. split; [done|].
    by apply paired_keep.
  - rewrite lookup_updateAudioTrack_ne by done. eauto.
Qed.

Lemma exec_op_arrays (cwd : string) (parse : string -> option Settings)
    (db : Store) (op : Op) (i : Z) (t : AudioTrack) :
  db !! i = Some t ->
  exists t1,
    exec_op cwd parse db op !! i = Some t1
    /\ asArray (extendedPaths t1)
       = (asArray (extendedPaths t) ++ option_list (fst <$> completed_by i op))%list
    /\ asArray (extendedDurations t1)
       = (asArray (extendedDurations t) ++ option_list (snd <$> completed_by i op))%list.
Proof.
  intros Ht.
  assert (Hkeep : forall k u,
            set_extendedPaths u = None -> set_extendedDurations u = None ->
            exists t1,
              updateAudioTrack db k u !! i = Some t1
              /\ asArray (extendedPaths t1) = (asArray (extendedPaths t) ++ [])%list
              /\ asArray (extendedDurations t1)
                 = (asArray (extendedDurations t) ++ [])%list).
  { intros k u Hp Hd.
    destruct (arrays_update_keep db k i u t Hp Hd Ht) as (t1 & H1 & E1 & E2).
    exists t1. by rewrite E1, E2, !app_nil_r. }
  destruct op as [pid body | j tool info | k f b d m key]; simpl.
  - destruct (process_handler_store cwd parse db pid body)
      as [-> | (k & st & settings & ->)]; [|by apply Hkeep].
    exists t. by rewrite !app_nil_r.
  - unfold run_job, job_refetch, getAudioTrack, job_fail.
    destruct tool; [by apply Hkeep|].
    destruct info as [|d]; [by apply Hkeep|].
    destruct (decide (job_id j = i)) as [Hj | Hj].
    + rewrite Hj, Ht. simpl. unfold job_write.
      rewrite Hj, lookup_updateAudioTrack_eq, Ht. simpl.
      eexists. split; [done|]. apply arrays_completed.
    + destruct (db !! job_id j) as [tj|]; simpl; [|by apply Hkeep].
      unfold job_write. rewrite lookup_updateAudioTrack_ne by done.
      exists t. by rewrite !app_nil_r.
  - by apply Hkeep.
Qed.

Lemma serial_arrays (cwd : string) (parse : string -> option Settings)
    (ops : list Op) (db : Store) (i : Z) (t : AudioTrack) :
  db !! i = Some t ->
  exists t',
    foldl (exec_op cwd parse) db ops !! i = Some t'
    /\ asArray (extendedPaths t')
       = (asArray (extendedPaths t) ++ (omap (completed_by i) ops).*1)%list
    /\ asArray (extendedDurations t')
       = (asArray (extendedDurations t) ++ (omap (completed_by i) ops).*2)%list.
Proof.
  revert db t. induction ops as [|op ops IH]; intros db t Ht.
  - exists t. by rewrite !app_nil_r.
  - destruct (exec_op_arrays cwd parse db op i t Ht) as (t1 & H1 & Hp1 & Hd1).
    destruct (IH _ _ H1) as (t' & H' & Hp' & Hd').
    exists t'. split; [done|]. rewrite Hp', Hd', Hp1, Hd1.
    simpl. destruct (completed_by i op) as [[out d]|]; simpl;
      by rewrite <- !app_assoc.
Qed.

Lemma reachable_paired (cwd : string) (parse : string -> option Settings)
    (s : Store * list Pending) :
  rtc (step cwd parse) (∅, []) s -> all_paired s.
Proof.
  revert s. apply (rtc_ind_r (fun s => all_paired s)).
  - split; [|done]. intros i t. simpl. by rewrite lookup_empty.
  - intros y z _ Hstep Hy. by eapply step_keeps_paired.
Qed.

(** C5, as the code has it.  A job that succeeds writes once, and what
    it writes are the two arrays of the row it fetched with one path
    and one duration appended.  Every step of the server, in any
    interleaving, keeps the two version arrays of every row at the same
    length, so they have the same length in every state the server can
    reach.  When handlers and jobs run one after the other (no job
    fetches its row between the fetch and the write of another job),
    the jobs that complete for a track with empty arrays leave, in the
    order in which they complete, one path and one duration each:
    after N of them both arrays have length N. *)
Theorem version_arrays_paired (cwd : string) (parse : string -> option Settings) :
  (forall (db : Store) (j : Job) (d : option Q) (t : AudioTrack),
     job_refetch db j = Some t ->
     exists u,
       (run_job db j ToolDone (InfoDone d)).2
       = [RunScript "audioProcessor.py" (job_args j);
          RunScript "utils.py" [job_outputPath j];
          StorageGet (job_id j); StorageUpdate (job_id j) u]
       /\ set_extendedPaths u
          = Some (asArray (extendedPaths t) ++ [Some (job_outputPath j)])%list
       /\ set_extendedDurations u
          = Some (asArray (extendedDurations t) ++ [extendedDuration_of d])%list)
  /\ (forall s s', step cwd parse s s' -> all_paired s -> all_paired s')
  /\ (forall s, rtc (step cwd parse) (∅, []) s -> all_paired s)
  /\ (forall (ops : list Op) (db : Store) (i : Z) (t : AudioTrack),
        db !! i = Some t ->
        asArray (extendedPaths t) = [] ->
        asArray (extendedDurations t) = [] ->
        exists t',
          foldl (exec_op cwd parse) db ops !! i = Some t'
          /\ asArray (extendedPaths t') = (omap (completed_by i) ops).*1
          /\ asArray (extendedDurations t') = (omap (completed_by i) ops).*2
          /\ length (asArray (extendedPaths t'))
             = length (omap (completed_by i) ops)
          /\ length (asArray (extendedDurations t'))
             = length (omap (completed_by i) ops)).
Proof.
  split_and!; [| apply step_keeps_paired | apply reachable_paired |].
  - intros db j d t Hget. unfold run_job. rewrite Hget. simpl. eauto.
  - intros ops db i t Ht Hp Hd.
    destruct (serial_arrays cwd parse ops db i t Ht) as (t' & H' & Hp' & Hd').
    rewrite Hp in Hp'. rewrite Hd in Hd'. simpl in Hp', Hd'.
    exists t'. split_and!; try done.
    + by rewrite Hp', length_fmap.
    + by rewrite Hd', length_fmap.
Qed.

(** Two requests, each followed by its job; the second job is run
    twice, and fails the first time. *)
Lemma version_arrays_paired_witness :
  let ops :=
    [OpProcess "1" "{}"; OpJob (Demo.job 0) ToolDone (InfoDone (Some (215 # 1)%Q));
     OpProcess "1" "{}"; OpJob (Demo.job 1) ToolFailed InfoFailed;
     OpJob (Demo.job 1) ToolDone (InfoDone None)] in
  (exists t',
     foldl (exec_op Demo.cwd Demo.parse) (Demo.db None) ops !! 1 = Some t'
     /\ asArray (extendedPaths t')
        = [Some "/app/results/song_extended_v1.mp3";
           Some "/app/results/song_extended_v2.mp3"]
     /\ asArray (extendedDurations t') = [Some (215 # 1)%Q; None])
  /\ all_paired
       (job_write (Demo.db None) (Demo.job 0) (Demo.song None) None, []).
Proof.
  intros ops.
  destruct (version_arrays_paired Demo.cwd Demo.parse)
    as (_ & Hstep & _ & Hserial).
  split.
  - destruct (Hserial ops (Demo.db None) 1 (Demo.song None) eq_refl eq_refl eq_refl)
      as (t' & H' & Hp & Hd & _).
    exists t'. split_and!; [exact H' | exact Hp | exact Hd].
  - apply (Hstep
             (Demo.db None,
              [{| pending_job := Demo.job 0; pending_row := Demo.song None;
                  pending_duration := None |}])
             _ (step_write Demo.cwd Demo.parse (Demo.db None) [] []
                  {| pending_job := Demo.job 0; pending_row := Demo.song None;
                     pending_duration := None |})).
    split.
    + intros i t. unfold Demo.db. simpl.
      destruct (decide (i = 1)) as [-> | Hne].
      * rewrite lookup_singleton_eq. by intros [= <-].
      * by rewrite lookup_singleton_ne.
    + by repeat constructor.
Defined.

(** C5, as the claim has it, fails when two jobs overlap.  Two requests
    are accepted for a fresh track before either job ends; both jobs
    succeed; each fetches the row before the other writes.  This is a
    run of the server, and after these two successful jobs each array
    holds one entry. *)
Lemma overlapping_jobs_counterexample :
  let db0 := Demo.db None in
  let r1 := process_handler Demo.cwd Demo.parse db0 "1" "{}" in
  let r2 := process_handler Demo.cwd Demo.parse r1.1.1 "1" "{}" in
  let db2 := r2.1.1 in
  exists (a b : Job) (ta tb t' : AudioTrack),
    r1.2 = Some a /\ r2.2 = Some b
    /\ job_refetch db2 a = Some ta
    /\ job_refetch db2 b = Some tb
    /\ rtc (step Demo.cwd Demo.parse) (db0, [])
         (job_write (job_write db2 a ta (Some (215 # 1)%Q)) b tb (Some (216 # 1)%Q),
          [])
    /\ job_write (job_write db2 a ta (Some (215 # 1)%Q)) b tb (Some (216 # 1)%Q) !! 1
       = Some t'
    /\ length (asArray (extendedPaths t')) = 1%nat
    /\ length (asArray (extendedDurations t')) = 1%nat.
Proof.
  intros db0 r1 r2 db2.
  set (row := apply_update (with_status (Demo.song None) processing)
                {| set_format := None; set_bitrate := None;
                   set_duration := None; set_bpm := None; set_key := None;
                   set_status := None;
                   set_settings := Demo.parse "{}";
                   set_extendedPaths := None; set_extendedDurations := None;
                   set_versionCount := None |}).
  assert (Ha : job_refetch db2 (Demo.job 0) = Some row) by reflexivity.
  exists (Demo.job 0), (Demo.job 0), row, row,
    (apply_update
       (apply_update row
          (completed_update row (job_outputPath (Demo.job 0)) (Some (215 # 1)%Q)))
       (completed_update row (job_outputPath (Demo.job 0)) (Some (216 # 1)%Q))).
  split_and!; try reflexivity.
  - eapply rtc_l; [apply (step_process _ _ db0 [] "1" "{}")|].
    eapply rtc_l; [apply (step_process _ _ _ [] "1" "{}")|].
    eapply rtc_l; [apply (step_refetch _ _ _ [] (Demo.job 0) _ (Some (215 # 1)%Q) Ha)|].
    eapply rtc_l; [apply (step_refetch _ _ _ _ (Demo.job 0) _ (Some (216 # 1)%Q) Ha)|].
    eapply rtc_l; [apply (step_write _ _ _ [_] [] _)|].
    eapply rtc_l; [apply (step_write _ _ _ [] [] _)|].
    apply rtc_refl.
Qed.

(* ================================================================== *)
(** * Paths that end in a plain file name *)
(* ================================================================== *)

Lemma str_length_app (a b : string) :
  String.length (a ++ b) = (String.length a + String.length b)%nat.
Proof.
  induction a as [|x a IH]; [done|].
  rewrite str_app_cons. simpl. by rewrite IH.
Qed.

Lemma str_app_eq_nil (a b : string) : a ++ b = "" -> a = "" /\ b = "".
Proof. destruct a; [done | by rewrite str_app_cons]. Qed.

Lemma norm_step_plain (b : bool) (acc : list string) (g : string) :
  plain_name g -> path.norm_step b acc g = g :: acc.
Proof.
  intros (H0 & H1 & H2 & _). unfold path.norm_step.
  apply String.eqb_neq in H0, H1, H2. by rewrite H0, H1, H2.
Qed.

Lemma join_with_snoc (l : list string) (g : string) :
  join_with "/" (l ++ [g])
  = match l with
    | [] => g
    | _ => join_with "/" l ++ "/" ++ g
    end.
Proof.
  induction l as [|x l IH]; [done|].
  destruct l as [|y l]; [done|].
  change (join_with "/" ((x :: y :: l) ++ [g]))
    with (x ++ "/" ++ join_with "/" ((y :: l) ++ [g])).
  rewrite IH.
  change (join_with "/" (x :: y :: l)) with (x ++ "/" ++ join_with "/" (y :: l)).
  by rewrite !str_app_assoc.
Qed.

(** The segments kept for a path: a prefix [pre] followed by the plain
    name [g], with or without a closing slash. *)
Lemma normalizeString_plain (b : bool) (pre g : string) :
  plain_name g ->
  path.normalizeString (pre ++ "/" ++ g) b
  = join_with "/" (rev (fold_left (path.norm_step b) (split "/" pre) []) ++ [g])
  /\ path.normalizeString (pre ++ "/" ++ g ++ "/") b
     = join_with "/" (rev (fold_left (path.norm_step b) (split "/" pre) []) ++ [g]).
Proof.
  intros Hg. pose proof Hg as (_ & _ & _ & Hsplit).
  unfold path.normalizeString. split.
  - change (pre ++ "/" ++ g) with (pre ++ String "/" g).
    rewrite split_app_sep, Hsplit, fold_left_app. simpl.
    by rewrite (norm_step_plain _ _ g Hg).
  - change (pre ++ "/" ++ g ++ "/") with (pre ++ String "/" (g ++ String "/" "")).
    rewrite !split_app_sep, Hsplit, !fold_left_app. simpl.
    by rewrite (norm_step_plain _ _ g Hg).
Qed.

Lemma normalizeString_plain_only (b : bool) (g : string) :
  plain_name g ->
  path.normalizeString g b = g /\ path.normalizeString (g ++ "/") b = g.
Proof.
  intros Hg. pose proof Hg as (_ & _ & _ & Hsplit).
  unfold path.normalizeString. split.
  - rewrite Hsplit. simpl. by rewrite (norm_step_plain _ _ g Hg).
  - change (g ++ "/") with (g ++ String "/" "").
    rewrite split_app_sep, Hsplit. simpl. by rewrite (norm_step_plain _ _ g Hg).
Qed.

(** A prefix that is empty or ends with a slash, in front of a plain
    name: normalising keeps the name last, after a prefix that does not
    depend on it. *)
Lemma normalize_before_plain (b : bool) (Y : string) :
  Y = "" \/ (exists pre, Y = pre ++ "/") ->
  exists A, (A = "" \/ exists pre, A = pre ++ "/")
    /\ forall g, plain_name g ->
         path.normalizeString (Y ++ g) b = A ++ g
         /\ path.normalizeString (Y ++ g ++ "/") b = A ++ g.
Proof.
  intros [-> | (pre & ->)].
  - exists "". split; [by left|]. intros g Hg.
    rewrite !str_app_nil_l. by apply normalizeString_plain_only.
  - set (L := rev (fold_left (path.norm_step b) (split "/" pre) [])).
    exists (match L with [] => "" | _ => join_with "/" L ++ "/" end).
    split.
    { destruct L; [by left | right; eauto]. }
    intros g Hg.
    destruct (normalizeString_plain b pre g Hg) as [H1 H2].
    rewrite !str_app_assoc. rewrite H1, H2. fold L. rewrite join_with_snoc.
    destruct L; [done|]. by rewrite !str_app_assoc.
Qed.

Lemma isAbsolute_app (Y g : string) :
  path.isAbsolute g = false ->
  path.isAbsolute (Y ++ g) = path.isAbsolute Y.
Proof.
  unfold path.isAbsolute. destruct Y as [|c Y]; [by rewrite str_app_nil_l|].
  by rewrite str_app_cons.
Qed.

Lemma plain_name_relative (g : string) :
  plain_name g -> path.isAbsolute g = false.
Proof.
  intros (H0 & _ & _ & Hsplit). unfold path.isAbsolute.
  destruct g as [|c g]; [done|].
  change (startsWith (String c g) "/") with (Ascii.eqb "/" c && true).
  destruct (Ascii.eqb_spec "/" c) as [<- | Hne]; [|done].
  simpl in Hsplit. discriminate.
Qed.

Lemma isAbsolute_app_nonempty (R x : string) :
  R <> "" -> path.isAbsolute (R ++ x) = path.isAbsolute R.
Proof. destruct R as [|c R]; [done|]. intros _. by rewrite str_app_cons. Qed.

Lemma plain_name_app_nonempty (A g : string) :
  plain_name g -> String.eqb (A ++ g) "" = false.
Proof.
  intros (H0 & _). apply String.eqb_neq. intros H.
  by apply str_app_eq_nil in H as [_ Hg].
Qed.

Lemma join_plain (R : string) :
  R <> "" ->
  exists P1, (P1 = "" \/ exists pre, P1 = pre ++ "/")
    /\ forall g, plain_name g -> path.join R g = P1 ++ g.
Proof.
  intros HR.
  destruct (normalize_before_plain (negb (path.isAbsolute R)) (R ++ "/"))
    as (A0 & HA0 & Hnorm); [right; eauto|].
  exists (if path.isAbsolute R then "/" ++ A0 else A0). split.
  { destruct (path.isAbsolute R); [|done]. right.
    destruct HA0 as [-> | (pre & ->)]; [by exists "" | by exists ("/" ++ pre)]. }
  intros g Hg. pose proof Hg as (Hg0 & _ & _ & Hsplit).
  destruct (Hnorm g Hg) as [Hn _]. rewrite str_app_assoc in Hn.
  unfold path.join.
  apply String.eqb_neq in HR as HR'. apply String.eqb_neq in Hg0 as Hg0'.
  rewrite HR', Hg0'. unfold path.normalize.
  assert (Hne : String.eqb (R ++ "/" ++ g) "" = false).
  { apply String.eqb_neq. intros H. by apply str_app_eq_nil in H as [? _]. }
  rewrite Hne, (isAbsolute_app_nonempty R _ HR), Hn.
  rewrite (plain_name_app_nonempty A0 g Hg).
  assert (Htrail : path.ends_with_slash (R ++ "/" ++ g) = false).
  { unfold path.ends_with_slash.
    change (R ++ "/" ++ g) with (R ++ String "/" g).
    rewrite split_app_sep, Hsplit, rev_app_distr. simpl.
    pose proof (split_nonempty "/" R) as HsR.
    destruct (rev (split "/" R)) as [|x l] eqn:Hrev; [|done].
    apply (f_equal (@rev string)) in Hrev. rewrite rev_involutive in Hrev.
    done. }
  rewrite Htrail. destruct (path.isAbsolute R); [|done].
  by rewrite str_app_assoc.
Qed.

Lemma or_dot_nonempty (n : string) :
  (if String.eqb n "" then "." else n) <> "".
Proof. by destruct (String.eqb_spec n ""). Qed.

Lemma resolve_nonempty (cwd p : string) : path.resolve cwd p <> "".
Proof.
  unfold path.resolve.
  destruct (String.eqb p "").
  - destruct (String.eqb cwd ""); [done|].
    destruct (path.isAbsolute cwd); [done | apply or_dot_nonempty].
  - destruct (path.isAbsolute p); [done|].
    destruct (String.eqb cwd ""); [apply or_dot_nonempty|].
    destruct (path.isAbsolute cwd); [done | apply or_dot_nonempty].
Qed.

Lemma resolve_plain (cwd Y : string) :
  Y = "" \/ (exists pre, Y = pre ++ "/") ->
  exists A, forall g, plain_name g -> path.resolve cwd (Y ++ g) = A ++ g.
Proof.
  intros HY.
  destruct (normalize_before_plain false Y HY) as (A1 & _ & H1).
  destruct (normalize_before_plain true Y HY) as (A2 & _ & H2).
  assert (HY' : cwd ++ "/" ++ Y = "" \/ exists pre, cwd ++ "/" ++ Y = pre ++ "/").
  { right. destruct HY as [-> | (pre & ->)].
    - exists cwd. by rewrite str_app_nil_r.
    - exists (cwd ++ "/" ++ pre). by rewrite !str_app_assoc. }
  destruct (normalize_before_plain false _ HY') as (A3 & _ & H3).
  destruct (normalize_before_plain true _ HY') as (A4 & _ & H4).
  exists (if path.isAbsolute Y then "/" ++ A1
          else if String.eqb cwd "" then A2
          else if path.isAbsolute cwd then "/" ++ A3 else A4).
  intros g Hg. pose proof Hg as (Hg0 & _).
  unfold path.resolve.
  assert (Hne : String.eqb (Y ++ g) "" = false).
  { apply String.eqb_neq. intros H. by apply str_app_eq_nil in H as [_ ?]. }
  rewrite Hne, (isAbsolute_app Y g (plain_name_relative g Hg)).
  destruct (path.isAbsolute Y).
  - destruct (H1 g Hg) as [_ Hn]. cbn [negb].
    rewrite (str_app_assoc Y g "/"), Hn. by rewrite str_app_assoc.
  - destruct (String.eqb cwd "").
    + destruct (H2 g Hg) as [_ Hn]. cbn [negb].
      rewrite (str_app_assoc Y g "/"), Hn.
      by rewrite (plain_name_app_nonempty A2 g Hg).
    + replace (cwd ++ "/" ++ (Y ++ g) ++ "/")
        with ((cwd ++ "/" ++ Y) ++ g ++ "/") by (by rewrite !str_app_assoc).
      destruct (path.isAbsolute cwd); cbn [negb].
      * destruct (H3 g Hg) as [_ Hn]. rewrite Hn. by rewrite str_app_assoc.
      * destruct (H4 g Hg) as [_ Hn]. rewrite Hn.
        by rewrite (plain_name_app_nonempty A4 g Hg).
Qed.

Lemma validate_some (cwd x p : string) :
  validateAndSanitizePath cwd x = Some p -> p = path.resolve cwd x.
Proof.
  destruct (validate_null_or_resolved cwd x) as [-> | ->]; [done | by intros [= <-]].
Qed.

(** The output path of a plain file name is a fixed prefix followed by
    the name. *)
Lemma createSafeOutputPath_plain (cwd dir : string) :
  exists A, forall f p,
    plain_name (sanitize_filename f) ->
    createSafeOutputPath cwd dir f = Some p ->
    p = A ++ sanitize_filename f.
Proof.
  destruct (join_plain (path.resolve cwd dir) (resolve_nonempty cwd dir))
    as (P1 & HP1 & Hjoin).
  destruct (resolve_plain cwd P1 HP1) as (A & HA).
  exists A. intros f p Hf. unfold createSafeOutputPath.
  destruct (negb _); [done|].
  intros Hv%validate_some. by rewrite Hv, (Hjoin _ Hf), (HA _ Hf).
Qed.

(* ================================================================== *)
(** * Output file names *)
(* ================================================================== *)

Lemma map_chars_app (f : ascii -> ascii) (a b : string) :
  map_chars f (a ++ b) = map_chars f a ++ map_chars f b.
Proof.
  induction a as [|x a IH]; [done|].
  rewrite str_app_cons. simpl. by rewrite IH.
Qed.

Lemma map_chars_length (f : ascii -> ascii) (a : string) :
  String.length (map_chars f a) = String.length a.
Proof. induction a as [|x a IH]; simpl; [done | by rewrite IH]. Qed.

Lemma sanitize_no_slash (f : string) :
  split "/" (sanitize_filename f) = [sanitize_filename f].
Proof.
  unfold sanitize_filename. induction f as [|c f IH]; [done|].
  cbn [map_chars split]. rewrite IH.
  destruct (is_unsafe_char c) eqn:Hc; [done|].
  unfold is_unsafe_char in Hc. cbn [existsb] in Hc.
  apply orb_false_iff in Hc as [-> _]. done.
Qed.

Lemma sanitize_versioned_plain (base suffix : string) :
  plain_name (sanitize_filename (base ++ "_extended_v" ++ suffix)).
Proof.
  assert (Hlen : (11 <= String.length
                    (sanitize_filename (base ++ "_extended_v" ++ suffix)))%nat).
  { unfold sanitize_filename. rewrite map_chars_length, !str_length_app.
    simpl. lia. }
  split_and!; try apply sanitize_no_slash;
    intros Heq; rewrite Heq in Hlen; simpl in Hlen; lia.
Qed.

Lemma safeFilename_unfold (t : AudioTrack) :
  safeFilename t
  = path.basename (originalFilename t) (path.extname (originalFilename t))
    ++ "_extended_v"
    ++ num_toString (Num (Z.of_nat (length (asArray (extendedPaths t))) + 1))
    ++ path.extname (originalFilename t).
Proof. reflexivity. Qed.

(** Two versioned names of one track that differ in their first digit
    never get the same output path. *)
Lemma versioned_outputs_differ (cwd dir base ext p1 p2 : string) :
  createSafeOutputPath cwd dir (base ++ "_extended_v" ++ "1" ++ ext) = Some p1 ->
  createSafeOutputPath cwd dir (base ++ "_extended_v" ++ "2" ++ ext) = Some p2 ->
  p1 <> p2.
Proof.
  destruct (createSafeOutputPath_plain cwd dir) as (A & HA).
  intros H1%HA H2%HA; try apply sanitize_versioned_plain.
  rewrite H1, H2. intros Heq%str_app_inv_head.
  unfold sanitize_filename in Heq. rewrite !map_chars_app in Heq.
  apply str_app_inv_head in Heq. apply str_app_inv_head in Heq.
  discriminate Heq.
Qed.

(** The name of the output file.  The job that [/process] starts writes
    to the safe output path
    of [{base}_extended_v{k+1}{ext}], where [base] and [ext] are taken
    from the original file name and [k] is the number of stored
    versions at the time of the request.  For a track without versions,
    a request, then the successful end of its job, then a second
    request give the names [{base}_extended_v1{ext}] and
    [{base}_extended_v2{ext}], and two different output paths.  When no
    safe output path can be made, the request is answered 400 and no
    job is started. *)
Theorem output_filename_versions (cwd : string)
    (parse : string -> option Settings) :
  (forall db params_id body db1 resp j,
     process_handler cwd parse db params_id body = (db1, resp, Some j) ->
     exists t,
       db !! job_id j = Some t
       /\ createSafeOutputPath cwd (resultDir cwd)
            (path.basename (originalFilename t) (path.extname (originalFilename t))
             ++ "_extended_v"
             ++ num_toString (Num (Z.of_nat (length (asArray (extendedPaths t))) + 1))
             ++ path.extname (originalFilename t))
          = Some (job_outputPath j))
  /\ (forall db params_id body db1 r1 j1 d db3 r2 j2 t,
        db !! job_id j1 = Some t ->
        asArray (extendedPaths t) = [] ->
        process_handler cwd parse db params_id body = (db1, r1, Some j1) ->
        process_handler cwd parse (run_job db1 j1 ToolDone (InfoDone d)).1
          params_id body = (db3, r2, Some j2) ->
        let base :=
          path.basename (originalFilename t) (path.extname (originalFilename t)) in
        let ext := path.extname (originalFilename t) in
        createSafeOutputPath cwd (resultDir cwd) (base ++ "_extended_v1" ++ ext)
        = Some (job_outputPath j1)
        /\ createSafeOutputPath cwd (resultDir cwd) (base ++ "_extended_v2" ++ ext)
           = Some (job_outputPath j2)
        /\ job_outputPath j1 <> job_outputPath j2)
  /\ (forall db params_id body i t settings,
        parseInt10 params_id = Num i ->
        getAudioTrack db i = Some t ->
        ~ over_limit t ->
        parse body = Some settings ->
        createSafeOutputPath cwd (resultDir cwd) (safeFilename t) = None ->
        (process_handler cwd parse db params_id body).1.2
        = Json 400 "Invalid output path - unable to create safe file path"
        /\ (process_handler cwd parse db params_id body).2 = None).
Proof.
  split_and!.
  - intros db pid body db1 resp j Hrun.
    destruct (process_handler_job _ _ _ _ _ _ _ _ Hrun)
      as (t & st & _ & Ht & _ & _ & Hout & _).
    exists t. split; [done|]. by rewrite <- safeFilename_unfold.
  - intros db pid body db1 r1 j1 d db3 r2 j2 t Ht Hempty Hrun1 Hrun2 base ext.
    destruct (process_handler_job _ _ _ _ _ _ _ _ Hrun1)
      as (t1 & st1 & Hid1 & Ht1 & _ & _ & Hout1 & _ & Hrow1 & _).
    destruct (process_handler_job _ _ _ _ _ _ _ _ Hrun2)
      as (t2 & st2 & Hid2 & Ht2 & _ & _ & Hout2 & _).
    rewrite Ht in Ht1. injection Ht1 as <-.
    assert (Hsame : job_id j2 = job_id j1) by congruence.
    rewrite Hsame, (run_job_done_lookup _ _ _ _ Hrow1) in Ht2.
    injection Ht2 as <-.
    rewrite safeFilename_unfold, Hempty in Hout1.
    rewrite safeFilename_unfold in Hout2.
    cbn [apply_update with_status originalFilename extendedPaths or_keep
         completed_update set_extendedPaths fmap option_fmap option_map
         asArray] in Hout2.
    rewrite Hempty in Hout2.
    change (num_toString (Num (Z.of_nat (length (@nil (option string))) + 1)))
      with "1" in Hout1.
    change (num_toString
              (Num (Z.of_nat (length ([] ++ [Some (job_outputPath j1)])%list) + 1)))
      with "2" in Hout2.
    fold base ext in Hout1, Hout2.
    split_and!; [exact Hout1 | exact Hout2 |].
    by eapply versioned_outputs_differ.
  - intros db pid body i t st Hid Ht Hlim Hparse Hout.
    unfold process_handler. rewrite Hid, Ht.
    destruct (num_gt _ _) eqn:Hgt.
    { exfalso. apply Hlim. by apply num_gt_over_limit. }
    by rewrite Hparse, Hout.
Qed.

(** [song.mp3]: first [song_extended_v1.mp3], then, after that job has
    ended, [song_extended_v2.mp3]; [notes.txt] is refused. *)
Lemma output_filename_versions_witness :
  (exists t,
     Demo.db None !! 1 = Some t
     /\ createSafeOutputPath Demo.cwd (resultDir Demo.cwd)
          (path.basename (originalFilename t) (path.extname (originalFilename t))
           ++ "_extended_v"
           ++ num_toString (Num (Z.of_nat (length (asArray (extendedPaths t))) + 1))
           ++ path.extname (originalFilename t))
        = Some "/app/results/song_extended_v1.mp3")
  /\ (createSafeOutputPath Demo.cwd (resultDir Demo.cwd) "song_extended_v1.mp3"
      = Some "/app/results/song_extended_v1.mp3"
      /\ createSafeOutputPath Demo.cwd (resultDir Demo.cwd) "song_extended_v2.mp3"
         = Some "/app/results/song_extended_v2.mp3"
      /\ "/app/results/song_extended_v1.mp3" <> "/app/results/song_extended_v2.mp3")
  /\ ((process_handler Demo.cwd Demo.parse {[ 2 := Demo.notes ]} "2" "{}").1.2
      = Json 400 "Invalid output path - unable to create safe file path"
      /\ (process_handler Demo.cwd Demo.parse {[ 2 := Demo.notes ]} "2" "{}").2
         = None).
Proof.
  destruct (output_filename_versions Demo.cwd Demo.parse) as (Ha & Hb & Hc).
  pose (r1 := process_handler Demo.cwd Demo.parse (Demo.db None) "1" "{}").
  pose (r2 := process_handler Demo.cwd Demo.parse
                (run_job r1.1.1 (Demo.job 0) ToolDone
                   (InfoDone (Some (215 # 1)%Q))).1 "1" "{}").
  split; [|split].
  - exact (Ha (Demo.db None) "1" "{}" r1.1.1 r1.1.2 (Demo.job 0) eq_refl).
  - exact (Hb (Demo.db None) "1" "{}" r1.1.1 r1.1.2 (Demo.job 0)
             (Some (215 # 1)%Q) r2.1.1 r2.1.2 (Demo.job 1) (Demo.song None)
             eq_refl eq_refl eq_refl eq_refl).
  - refine (Hc {[ 2 := Demo.notes ]} "2" "{}" 2 Demo.notes _ eq_refl eq_refl _
              eq_refl eq_refl).
    intros (v & Hv & _). discriminate Hv.
Defined.


(** C9.  A request that finds no safe output path is not rejected as a
    whole.  For a stored track [mix~old.mp3] that has no version and
    status [uploaded], a request to [/process] with settings that parse
    is answered 400 and starts no job, but the table is not what it
    was: the row now has status [processing] and the settings of the
    request.  The other rejections of the same handler (an id that is
    not a number, an id that is not in the table, a track over the
    version limit) leave the table as it was. *)
Theorem refused_output_path_writes_row :
  let db : Store := {[ 3 := Demo.backup ]} in
  let r := process_handler Demo.cwd Demo.parse db "3" "{}" in
  r.1.2 = Json 400 "Invalid output path - unable to create safe file path"
  /\ r.2 = None
  /\ r.1.1 <> db
  /\ status <$> db !! 3 = Some uploaded
  /\ status <$> r.1.1 !! 3 = Some processing
  /\ (db !! 3 ≫= settings) = None
  /\ (r.1.1 !! 3 ≫= settings) = Demo.parse "{}"
  /\ process_handler Demo.cwd Demo.parse db "x" "{}"
     = (db, Json 400 "Invalid track ID", None)
  /\ process_handler Demo.cwd Demo.parse db "4" "{}"
     = (db, Json 404 "Track not found", None)
  /\ (let full : Store :=
        {[ 3 := new_track 3 7 "mix~old.mp3" "/app/uploads/1700000000002-44.mp3"
                  (Some 4) ]} in
      process_handler Demo.cwd Demo.parse full "3" "{}"
      = (full, Json 400 limit_message, None)).
Proof.
  intros db r. split_and!; try reflexivity.
  intros Heq. apply (f_equal (fun m : Store => status <$> m !! 3)) in Heq.
  discriminate Heq.
Qed.

(* ================================================================== *)
(** * Resolved paths are in normal form *)
(* ================================================================== *)

Lemma split_parts_slashless (s x : string) :
  In x (split "/" s) -> split "/" x = [x].
Proof.
  revert x. induction s as [|c s IH]; intros x.
  - simpl. intros [<- | []]. done.
  - cbn [split]. destruct (Ascii.eqb_spec c "/") as [-> | Hc].
    + intros [<- | Hin]; [done | by apply IH].
    + pose proof (split_nonempty "/" s) as Hne.
      destruct (split "/" s) as [|h t] eqn:Hs; [done|].
      intros [<- | Hin].
      * cbn [split]. apply Ascii.eqb_neq in Hc. rewrite Hc.
        by rewrite (IH h (or_introl eq_refl)).
      * apply IH. by right.
Qed.

Lemma norm_step_keeps_plain (acc : list string) (seg : string) :
  split "/" seg = [seg] ->
  Forall plain_name acc ->
  Forall plain_name (path.norm_step false acc seg).
Proof.
  intros Hseg Hacc. unfold path.norm_step.
  destruct (String.eqb_spec seg ""); [done|].
  destruct (String.eqb_spec seg "."); [done|]. cbn [orb].
  destruct (String.eqb_spec seg "..").
  - destruct acc as [|top rest]; [done|].
    destruct (String.eqb top ".."); [done|]. by inversion Hacc.
  - by constructor.
Qed.

Lemma fold_norm_keeps_plain (segs acc : list string) :
  (forall x, In x segs -> split "/" x = [x]) ->
  Forall plain_name acc ->
  Forall plain_name (fold_left (path.norm_step false) segs acc).
Proof.
  revert acc. induction segs as [|x segs IH]; intros acc Hsegs Hacc; [done|].
  simpl. apply IH.
  - intros y Hy. apply Hsegs. by right.
  - apply norm_step_keeps_plain; [|done]. apply Hsegs. by left.
Qed.

Lemma normalizeString_normal_form (p : string) :
  exists l, Forall plain_name l
    /\ path.normalizeString p false = join_with "/" l.
Proof.
  exists (rev (fold_left (path.norm_step false) (split "/" p) [])).
  split; [|done]. apply Forall_rev, fold_norm_keeps_plain; [|done].
  intros x. apply split_parts_slashless.
Qed.

Lemma split_join_with (l : list string) :
  l <> [] -> Forall plain_name l -> split "/" (join_with "/" l) = l.
Proof.
  induction l as [|x l IH]; [done|]. intros _ Hl.
  apply Forall_cons in Hl as [(_ & _ & _ & Hx) Hl].
  destruct l as [|y l]; [done|].
  change (join_with "/" (x :: y :: l))
    with (x ++ String "/" (join_with "/" (y :: l))).
  by rewrite split_app_sep, Hx, IH.
Qed.

Lemma fold_norm_plain (b : bool) (l acc : list string) :
  Forall plain_name l ->
  fold_left (path.norm_step b) l acc = (rev l ++ acc)%list.
Proof.
  revert acc. induction l as [|x l IH]; intros acc Hl; [done|].
  apply Forall_cons in Hl as [Hx Hl]. simpl.
  rewrite (norm_step_plain b acc x Hx), (IH _ Hl).
  by rewrite <- app_assoc.
Qed.

(** Normalising a path that is already normal gives it back. *)
Lemma normalizeString_of_normal (b : bool) (l : list string) :
  Forall plain_name l ->
  path.normalizeString ("/" ++ join_with "/" l ++ "/") b = join_with "/" l.
Proof.
  intros Hl. unfold path.normalizeString.
  change ("/" ++ join_with "/" l ++ "/")
    with ("" ++ String "/" (join_with "/" l ++ String "/" "")).
  rewrite !split_app_sep.
  destruct l as [|x l]; [done|].
  rewrite split_join_with by done.
  change (split "/" "") with [""]. rewrite !fold_left_app.
  set (seen := fold_left (path.norm_step b) (x :: l) _).
  change (join_with "/" (rev seen) = join_with "/" (x :: l)). subst seen.
  change (fold_left (path.norm_step b) [""] []) with (@nil string).
  by rewrite (fold_norm_plain b _ [] Hl), app_nil_r, rev_involutive.
Qed.

Lemma resolve_normal_form (cwd p : string) :
  path.isAbsolute cwd = true \/ path.isAbsolute p = true ->
  exists l, Forall plain_name l /\ path.resolve cwd p = "/" ++ join_with "/" l.
Proof.
  intros Habs. unfold path.resolve.
  destruct (String.eqb_spec p "") as [-> | Hp].
  - destruct Habs as [Hc | Hp]; [|done].
    destruct (String.eqb_spec cwd "") as [-> | Hcwd]; [done|].
    rewrite Hc. cbn [negb].
    destruct (normalizeString_normal_form (cwd ++ "/" ++ "")) as (l & Hl & ->).
    eauto.
  - destruct (path.isAbsolute p) eqn:Hpa.
    + cbn [negb].
      destruct (normalizeString_normal_form (p ++ "/")) as (l & Hl & ->). eauto.
    + destruct Habs as [Hc | ?]; [|done].
      destruct (String.eqb_spec cwd "") as [-> | Hcwd]; [done|].
      rewrite Hc. cbn [negb].
      destruct (normalizeString_normal_form (cwd ++ "/" ++ p ++ "/"))
        as (l & Hl & ->).
      eauto.
Qed.

Lemma resolve_of_normal (cwd : string) (l : list string) :
  Forall plain_name l ->
  path.resolve cwd ("/" ++ join_with "/" l) = "/" ++ join_with "/" l.
Proof.
  intros Hl. unfold path.resolve.
  change (String.eqb ("/" ++ join_with "/" l) "") with false.
  change (path.isAbsolute ("/" ++ join_with "/" l)) with true.
  cbn [negb]. rewrite str_app_assoc.
  by rewrite (normalizeString_of_normal false l Hl).
Qed.

Lemma resolve_idempotent (cwd p : string) :
  path.isAbsolute cwd = true \/ path.isAbsolute p = true ->
  path.resolve cwd (path.resolve cwd p) = path.resolve cwd p.
Proof.
  intros Habs. destruct (resolve_normal_form cwd p Habs) as (l & Hl & ->).
  by apply resolve_of_normal.
Qed.

(* ================================================================== *)
(** * PathGuard: what an accepted path looks like *)
(* ================================================================== *)

Lemma validate_accepts (cwd x p : string) :
  validateAndSanitizePath cwd x = Some p ->
  p = path.resolve cwd x
  /\ isInAllowedDirectory cwd p = true
  /\ str_in (toLowerCase (path.extname p)) ALLOWED_EXTENSIONS = true
  /\ includes p ".." = false
  /\ includes p "~" = false.
Proof.
  unfold validateAndSanitizePath.
  destruct (isInAllowedDirectory cwd _) eqn:Hdir; [|done]. cbn [negb].
  destruct (str_in _ _) eqn:Hext; [|done]. cbn [negb].
  destruct (includes (path.resolve cwd x) "..") eqn:Hd; [done|].
  destruct (includes (path.resolve cwd x) "~") eqn:Ht; [done|].
  by intros [= <-].
Qed.

Lemma validate_fixed_point (cwd p r : string) :
  path.isAbsolute cwd = true ->
  validateAndSanitizePath cwd p = Some r ->
  validateAndSanitizePath cwd r = Some r.
Proof.
  intros Habs Hp.
  destruct (validate_accepts cwd p r Hp) as (Hr & Hdir & Hext & Hd & Ht).
  assert (Hfix : path.resolve cwd r = r).
  { rewrite Hr. apply resolve_idempotent. by left. }
  unfold validateAndSanitizePath. by rewrite Hfix, Hdir, Hext, Hd, Ht.
Qed.

(** X1.  Under an absolute working directory an accepted path is a fixed
    point of the guard: validating the path that the guard returned
    gives that same path again. *)
Theorem validate_idempotent (cwd p r : string) :
  path.isAbsolute cwd = true ->
  validateAndSanitizePath cwd p = Some r ->
  validateAndSanitizePath cwd r = Some r.
Proof. apply validate_fixed_point. Qed.

Lemma validate_idempotent_witness :
  validateAndSanitizePath "/app" "/app/uploads/a.mp3" = Some "/app/uploads/a.mp3".
Proof.
  apply (validate_idempotent "/app" "uploads/sub/../a.mp3" "/app/uploads/a.mp3");
    reflexivity.
Defined.

Lemma segments_of_normal (b : bool) (l : list string) :
  Forall plain_name l ->
  rev (fold_left (path.norm_step b) (split "/" ("/" ++ join_with "/" l)) []) = l.
Proof.
  intros Hl.
  change ("/" ++ join_with "/" l) with ("" ++ String "/" (join_with "/" l)).
  rewrite split_app_sep. destruct l as [|x l]; [done|].
  rewrite split_join_with by done.
  change (split "/" "") with [""]. rewrite fold_left_app.
  change (fold_left (path.norm_step b) [""] []) with (@nil string).
  by rewrite (fold_norm_plain b _ [] Hl), app_nil_r, rev_involutive.
Qed.

Lemma ends_with_slash_plain (R g : string) :
  plain_name g -> path.ends_with_slash (R ++ "/" ++ g) = false.
Proof.
  intros (Hg0 & _ & _ & Hsplit). unfold path.ends_with_slash.
  change (R ++ "/" ++ g) with (R ++ String "/" g).
  rewrite split_app_sep, Hsplit, rev_app_distr. simpl.
  pose proof (split_nonempty "/" R) as HsR.
  destruct (rev (split "/" R)) as [|x l] eqn:Hrev.
  - apply (f_equal (@rev string)) in Hrev. by rewrite rev_involutive in Hrev.
  - by apply String.eqb_neq.
Qed.

(** Joining a normal absolute directory and a plain name appends the
    name as one more segment. *)
Lemma join_normal_plain (l : list string) (g : string) :
  Forall plain_name l -> plain_name g ->
  path.join ("/" ++ join_with "/" l) g = "/" ++ join_with "/" (l ++ [g]).
Proof.
  intros Hl Hg. pose proof Hg as (Hg0 & _).
  unfold path.join.
  change (String.eqb ("/" ++ join_with "/" l) "") with false.
  apply String.eqb_neq in Hg0 as ->.
  unfold path.normalize.
  change (String.eqb (("/" ++ join_with "/" l) ++ "/" ++ g) "") with false.
  change (path.isAbsolute (("/" ++ join_with "/" l) ++ "/" ++ g)) with true.
  rewrite (ends_with_slash_plain _ g Hg). cbn [negb].
  destruct (normalizeString_plain false ("/" ++ join_with "/" l) g Hg) as [-> _].
  rewrite (segments_of_normal false l Hl).
  assert (Hne : String.eqb (join_with "/" (l ++ [g])) "" = false).
  { rewrite join_with_snoc. destruct l.
    - apply String.eqb_neq. by destruct Hg as (? & _).
    - rewrite <- str_app_assoc. apply (plain_name_app_nonempty _ g Hg). }
  by rewrite Hne.
Qed.

Lemma Forall_plain_snoc (l : list string) (g : string) :
  Forall plain_name l -> plain_name g -> Forall plain_name (l ++ [g]).
Proof. intros Hl Hg. apply Forall_app. by split; [|constructor]. Qed.

(** X2.  Under an absolute working directory, the safe output path of a
    file name that sanitises to a plain name is, when there is one, a
    direct child of the resolved base directory, named by the sanitised
    file name. *)
Theorem safe_output_is_child (cwd baseDir filename p : string) :
  path.isAbsolute cwd = true ->
  plain_name (sanitize_filename filename) ->
  createSafeOutputPath cwd baseDir filename = Some p ->
  p = (if String.eqb (path.resolve cwd baseDir) "/" then ""
       else path.resolve cwd baseDir)
      ++ "/" ++ sanitize_filename filename.
Proof.
  intros Habs Hg. unfold createSafeOutputPath.
  destruct (negb _); [done|]. intros Hv%validate_some. subst p.
  destruct (resolve_normal_form cwd baseDir (or_introl Habs)) as (l & Hl & ->).
  rewrite (join_normal_plain l _ Hl Hg).
  rewrite (resolve_of_normal cwd _ (Forall_plain_snoc _ _ Hl Hg)).
  rewrite join_with_snoc. destruct l as [|x l]; [done|].
  assert (Hne : String.eqb ("/" ++ join_with "/" (x :: l)) "/" = false).
  { apply String.eqb_neq. intros [= H].
    apply Forall_cons in Hl as [(Hx & _) _].
    destruct l; [done|].
    change (join_with "/" (x :: s :: l)) with (x ++ "/" ++ join_with "/" (s :: l)) in H.
    rewrite str_app_nil_l in H. by apply str_app_eq_nil in H as [? _]. }
  rewrite Hne. by rewrite !str_app_assoc.
Qed.

Lemma safe_output_is_child_witness :
  "/app/results/my_mix_.mp3"
  = (if String.eqb (path.resolve "/app" "/app/results") "/" then ""
     else path.resolve "/app" "/app/results")
    ++ "/" ++ sanitize_filename "my/mix?.mp3".
Proof.
  apply (safe_output_is_child "/app" "/app/results" "my/mix?.mp3"
           "/app/results/my_mix_.mp3").
  - reflexivity.
  - split_and!; done.
  - reflexivity.
Defined.

Lemma occurs_in_includes (sub s : string) :
  occurs_in sub s -> includes s sub = true.
Proof. apply includes_spec. Qed.

Lemma sanitize_keeps (sub f : string) :
  sanitize_filename sub = sub ->
  occurs_in sub f -> occurs_in sub (sanitize_filename f).
Proof.
  intros Hsub (a & b & ->). unfold sanitize_filename in *.
  rewrite !map_chars_app, Hsub. by eexists _, _.
Qed.

Lemma sanitize_plain (f : string) :
  f <> "" -> f <> "." -> f <> ".." -> plain_name (sanitize_filename f).
Proof.
  intros H0 H1 H2. split_and!; [| | |apply sanitize_no_slash].
  - destruct f; [done|]. done.
  - destruct f as [|c [|d f]]; try done.
    unfold sanitize_filename. cbn [map_chars].
    destruct (is_unsafe_char c) eqn:Hc; [done|].
    intros [= ->]. done.
  - destruct f as [|c [|d [|e f]]]; try done.
    unfold sanitize_filename. cbn [map_chars].
    destruct (is_unsafe_char c) eqn:Hc; [done|].
    destruct (is_unsafe_char d) eqn:Hd; [done|].
    intros [= -> ->]. done.
Qed.

Lemma createSafeOutputPath_refuses (cwd baseDir filename : string) :
  (occurs_in ".." filename /\ filename <> "..") \/ occurs_in "~" filename ->
  createSafeOutputPath cwd baseDir filename = None.
Proof.
  intros Hbad.
  assert (Hplain : plain_name (sanitize_filename filename)).
  { apply sanitize_plain.
    - intros ->. destruct Hbad as [[H _] | H];
        apply occurs_in_includes in H; vm_compute in H; discriminate H.
    - intros ->. destruct Hbad as [[H _] | H];
        apply occurs_in_includes in H; vm_compute in H; discriminate H.
    - intros ->. destruct Hbad as [[_ H] | H]; [done|].
      apply occurs_in_includes in H; vm_compute in H; discriminate H. }
  destruct (createSafeOutputPath_plain cwd baseDir) as (A & HA).
  destruct (createSafeOutputPath cwd baseDir filename) as [p|] eqn:Hp; [|done].
  pose proof (HA _ _ Hplain Hp) as ->.
  unfold createSafeOutputPath in Hp. destruct (negb _); [done|].
  apply validate_accepts in Hp as (_ & _ & _ & Hd & Ht).
  exfalso. destruct Hbad as [[Hocc _] | Hocc].
  - apply (sanitize_keeps ".." _ eq_refl) in Hocc as (a & b & Hab).
    assert (Hin : includes (A ++ sanitize_filename filename) ".." = true).
    { apply occurs_in_includes. exists (A ++ a), b.
      by rewrite Hab, !str_app_assoc. }
    congruence.
  - apply (sanitize_keeps "~" _ eq_refl) in Hocc as (a & b & Hab).
    assert (Hin : includes (A ++ sanitize_filename filename) "~" = true).
    { apply occurs_in_includes. exists (A ++ a), b.
      by rewrite Hab, !str_app_assoc. }
    congruence.
Qed.

(** X3.  A file name that contains [..] (and is not [..] itself) or [~]
    never gets a safe output path, whatever the base directory:
    sanitising replaces separators but keeps dots and tildes, and the
    guard then finds them in the resolved path. *)
Theorem dotted_names_get_no_output_path (cwd baseDir filename : string) :
  (occurs_in ".." filename /\ filename <> "..") \/ occurs_in "~" filename ->
  createSafeOutputPath cwd baseDir filename = None.
Proof. apply createSafeOutputPath_refuses. Qed.

Lemma dotted_names_get_no_output_path_witness :
  createSafeOutputPath "/app" "/app/results" "intro..outro_extended_v1.mp3" = None.
Proof.
  apply dotted_names_get_no_output_path. left. split; [|done].
  by exists "intro", "outro_extended_v1.mp3".
Defined.

(** X4.  When every allowed directory has [..] or [~] in its resolved
    name (the working directory has), the guard rejects every path. *)
Theorem tainted_directories_reject_all (cwd p : string) :
  (forall d, In d (ALLOWED_DIRECTORIES cwd) ->
             occurs_in ".." d \/ occurs_in "~" d) ->
  validateAndSanitizePath cwd p = None.
Proof.
  intros Htaint.
  destruct (validateAndSanitizePath cwd p) as [r|] eqn:Hr; [|done].
  apply validate_accepts in Hr as (_ & Hdir & _ & Hd & Ht). exfalso.
  unfold isInAllowedDirectory in Hdir. apply existsb_exists in Hdir.
  destruct Hdir as (d & Hin & Hor).
  assert (Hpre : exists rest, r = d ++ rest).
  { apply orb_true_iff in Hor as [Hs | He].
    - apply startsWith_spec in Hs as (rest & ->).
      exists (path.sep ++ rest). by rewrite str_app_assoc.
    - apply String.eqb_eq in He as ->. exists "". by rewrite str_app_nil_r. }
  destruct Hpre as (rest & ->).
  destruct (Htaint d Hin) as [(a & b & ->) | (a & b & ->)].
  - assert (includes ((a ++ ".." ++ b) ++ rest) ".." = true); [|congruence].
    apply occurs_in_includes. exists a, (b ++ rest). by rewrite !str_app_assoc.
  - assert (includes ((a ++ "~" ++ b) ++ rest) "~" = true); [|congruence].
    apply occurs_in_includes. exists a, (b ++ rest). by rewrite !str_app_assoc.
Qed.

Lemma tainted_directories_reject_all_witness :
  validateAndSanitizePath "/home/dj~1/app" "/home/dj~1/app/uploads/a.mp3" = None.
Proof.
  apply tainted_directories_reject_all. intros d [<- | [<- | []]]; right.
  - by exists "/home/dj", "1/app/uploads".
  - by exists "/home/dj", "1/app/results".
Defined.

(* ================================================================== *)
(** * The storage operations *)
(* ================================================================== *)

Lemma elem_of_tracks_by_user (db : Store) (uid : Z) (t : AudioTrack) :
  t ∈ getAudioTracksByUserId db uid
  <-> exists k, db !! k = Some t /\ userId t = uid.
Proof.
  unfold getAudioTracksByUserId. rewrite list_elem_of_filter, list_elem_of_fmap.
  split.
  - intros (Hu & [k t'] & -> & Hin%elem_of_map_to_list). eauto.
  - intros (k & Hk & Hu). split; [done|]. exists (k, t). split; [done|].
    by apply elem_of_map_to_list.
Qed.

Lemma lookup_deleteAllUserTracks (db : Store) (uid k : Z) (t : AudioTrack) :
  deleteAllUserTracks db uid !! k = Some t
  <-> db !! k = Some t /\ userId t <> uid.
Proof. unfold deleteAllUserTracks. by rewrite map_lookup_filter_Some. Qed.

Lemma tracks_by_user_after_delete (db : Store) (uid : Z) :
  getAudioTracksByUserId (deleteAllUserTracks db uid) uid = [].
Proof.
  destruct (getAudioTracksByUserId _ uid) as [|t l] eqn:Hl; [done|].
  assert (Ht : t ∈ getAudioTracksByUserId (deleteAllUserTracks db uid) uid).
  { rewrite Hl. by left. }
  apply elem_of_tracks_by_user in Ht as (k & Hk & Hu).
  by apply lookup_deleteAllUserTracks in Hk as [_ Hne].
Qed.

Lemma lookup_deleteAllUserTracks_owner (db : Store) (uid k : Z) (t : AudioTrack) :
  db !! k = Some t -> userId t = uid -> deleteAllUserTracks db uid !! k = None.
Proof.
  intros Hk Hu. destruct (deleteAllUserTracks db uid !! k) as [t'|] eqn:Hk'; [|done].
  apply lookup_deleteAllUserTracks in Hk' as [Hk' Hne]. congruence.
Qed.

(** X6.  After [DELETE /api/tracks], [GET /api/tracks] lists nothing,
    and every track the demo user had is unknown to the routes that take
    an id: track, status and [/process] answer 404, and [/process] starts
    no job.  A track of another owner is still there, unchanged. *)
Theorem cleared_tracks_are_unknown (cwd : string)
    (parse : string -> option Settings) (demoUser : Z) (db : Store) (fs : Fs) :
  let db' := (clear_handler cwd demoUser db fs).1.1 in
  list_tracks_handler demoUser db' = DataTracks 200 []
  /\ (forall params_id body i t,
        parseInt10 params_id = Num i -> db !! i = Some t ->
        userId t = demoUser ->
        get_track_handler db' params_id = DataMessage 404 "Track not found"
        /\ status_handler db' params_id = DataMessage 404 "Track not found"
        /\ process_handler cwd parse db' params_id body
           = (db', Json 404 "Track not found", None))
  /\ (forall params_id i t,
        parseInt10 params_id = Num i -> db !! i = Some t ->
        userId t <> demoUser ->
        get_track_handler db' params_id = DataTrack 200 t).
Proof.
  cbv zeta. unfold clear_handler. cbn [fst]. split_and!.
  - unfold list_tracks_handler. by rewrite tracks_by_user_after_delete.
  - intros params_id body i t Hid Ht Hu.
    pose proof (lookup_deleteAllUserTracks_owner db demoUser i t Ht Hu) as Hgone.
    unfold get_track_handler, status_handler, process_handler, getAudioTrack.
    by rewrite Hid, Hgone.
  - intros params_id i t Hid Ht Hu.
    unfold get_track_handler, getAudioTrack. rewrite Hid.
    assert (Hkept : deleteAllUserTracks db demoUser !! i = Some t)
      by by apply lookup_deleteAllUserTracks.
    by rewrite Hkept.
Qed.

(** A table with a track of the demo user (7) and one of another owner
    (8): clearing removes the first and keeps the second. *)
Lemma cleared_tracks_are_unknown_witness :
  let other := new_track 5 8 "set.wav" "/app/uploads/1700000000009-5.wav" None in
  let db : Store := <[ 5 := other ]> (Demo.db None) in
  let db' := (clear_handler Demo.cwd 7 db Demo.disk).1.1 in
  get_track_handler db "1" = DataTrack 200 (Demo.song None)
  /\ get_track_handler db' "1" = DataMessage 404 "Track not found"
  /\ get_track_handler db' "5" = DataTrack 200 other.
Proof.
  intros other db db'.
  destruct (cleared_tracks_are_unknown Demo.cwd Demo.parse 7 db Demo.disk)
    as (_ & Hgone & Hkept).
  split_and!.
  - reflexivity.
  - apply (Hgone "1" "{}" 1 (Demo.song None)); reflexivity.
  - apply (Hkept "5" 5 other); [reflexivity | reflexivity | done].
Defined.

(* ================================================================== *)
(** * Track ids in requests *)
(* ================================================================== *)

(** X7.  A request whose id has no leading integer is answered 400
    "Invalid track ID" by every route that takes an id, and nothing
    else happens: no row is read or written, no job is started and no
    file is touched. *)
Theorem invalid_id_is_400 (cwd : string) (parse : string -> option Settings)
    (db : Store) (fs : Fs) (params_id body type_ : string)
    (query_version range : option string) :
  parseInt10 params_id = NaN ->
  get_track_handler db params_id = DataMessage 400 "Invalid track ID"
  /\ status_handler db params_id = DataMessage 400 "Invalid track ID"
  /\ process_handler cwd parse db params_id body
     = (db, Json 400 "Invalid track ID", None)
  /\ audio_handler cwd db fs params_id type_ query_version range
     = (Json 400 "Invalid track ID", [])
  /\ download_handler cwd db fs params_id query_version
     = (Json 400 "Invalid track ID", []).
Proof.
  intros Hid.
  unfold get_track_handler, status_handler, process_handler, audio_handler,
    audio_locate, download_handler.
  by rewrite Hid.
Qed.

Lemma invalid_id_is_400_witness :
  process_handler Demo.cwd Demo.parse (Demo.db None) "abc" "{}"
  = (Demo.db None, Json 400 "Invalid track ID", None).
Proof.
  apply (invalid_id_is_400 Demo.cwd Demo.parse (Demo.db None) Demo.disk "abc"
           "{}" "original" None None).
  reflexivity.
Defined.

(** X8.  A request for an id that is not in the table is answered 404
    "Track not found" by every route that takes an id, before anything
    else is looked at: the type of audio is the only thing checked
    earlier. *)
Theorem unknown_id_is_404 (cwd : string) (parse : string -> option Settings)
    (db : Store) (fs : Fs) (params_id body type_ : string)
    (query_version range : option string) (i : Z) :
  parseInt10 params_id = Num i ->
  getAudioTrack db i = None ->
  get_track_handler db params_id = DataMessage 404 "Track not found"
  /\ status_handler db params_id = DataMessage 404 "Track not found"
  /\ process_handler cwd parse db params_id body
     = (db, Json 404 "Track not found", None)
  /\ download_handler cwd db fs params_id query_version
     = (Json 404 "Track not found", [])
  /\ audio_handler cwd db fs params_id type_ query_version range
     = (if negb (String.eqb type_ "original") && negb (String.eqb type_ "extended")
        then Json 400 "Invalid audio type"
        else Json 404 "Track not found", []).
Proof.
  intros Hid Hnone.
  unfold get_track_handler, status_handler, process_handler, audio_handler,
    audio_locate, download_handler.
  rewrite Hid, Hnone. split_and!; try done.
  by destruct (negb _ && negb _).
Qed.

Lemma unknown_id_is_404_witness :
  download_handler Demo.cwd (Demo.db None) Demo.disk "42" None
  = (Json 404 "Track not found", []).
Proof.
  apply (unknown_id_is_404 Demo.cwd Demo.parse (Demo.db None) Demo.disk "42"
           "{}" "original" None None 42); reflexivity.
Defined.

Lemma take_digits_app (ds : string) (c : ascii) (rest : string) :
  all_digits ds = true -> is_digit c = false ->
  take_digits (ds ++ String c rest) = ds.
Proof.
  intros Hds Hc. induction ds as [|x ds IH].
  - rewrite str_app_nil_l. simpl. by rewrite Hc.
  - rewrite str_app_cons. simpl in *.
    apply andb_true_iff in Hds as [Hx Hds]. rewrite Hx. by rewrite IH.
Qed.

Lemma parseInt10_prefix (n : N) (c : ascii) (rest : string) :
  is_digit c = false ->
  parseInt10 (N_toString n ++ String c rest) = Num (Z.of_N n).
Proof.
  intros Hc.
  pose proof (N_toString_digits n) as Hd.
  pose proof (N_toString_nonempty n) as Hne.
  pose proof (digits_value_N_toString n) as Hv.
  pose proof (take_digits_app (N_toString n) c rest Hd Hc) as Htake.
  unfold parseInt10. destruct (N_toString n) as [|x r]; [done|].
  pose proof Hd as Hd'. simpl in Hd'. apply andb_true_iff in Hd' as [Hx _].
  destruct (is_digit_facts x Hx) as (Hsp & Hminus & Hplus).
  rewrite str_app_cons in *.
  rewrite (trimStart_digit x _ Hx). cbn [split_sign]. rewrite Hminus, Hplus.
  rewrite Htake, Hv. reflexivity.
Qed.

(** X9.  Only the leading decimal digits of an id count: a request for
    [12abc] is served exactly like a request for [12] by every route
    that takes an id. *)
Theorem id_trailing_text_ignored (cwd : string)
    (parse : string -> option Settings) (db : Store) (fs : Fs)
    (n : N) (c : ascii) (rest body type_ : string)
    (query_version range : option string) :
  is_digit c = false ->
  let given := N_toString n ++ String c rest in
  get_track_handler db given = get_track_handler db (N_toString n)
  /\ status_handler db given = status_handler db (N_toString n)
  /\ process_handler cwd parse db given body
     = process_handler cwd parse db (N_toString n) body
  /\ audio_handler cwd db fs given type_ query_version range
     = audio_handler cwd db fs (N_toString n) type_ query_version range
  /\ download_handler cwd db fs given query_version
     = download_handler cwd db fs (N_toString n) query_version.
Proof.
  intros Hc given.
  unfold get_track_handler, status_handler, process_handler, audio_handler,
    audio_locate, download_handler.
  unfold given. by rewrite (parseInt10_prefix n c rest Hc), parseInt10_N_toString.
Qed.

Lemma id_trailing_text_ignored_witness :
  status_handler (Demo.db None) "1abc" = DataStatus 200 uploaded.
Proof.
  destruct (id_trailing_text_ignored Demo.cwd Demo.parse (Demo.db None)
              Demo.disk 1%N "a" "bc" "{}" "original" None None eq_refl)
    as (_ & H & _).
  exact H.
Defined.

(* ================================================================== *)
(** * What an accepted request and its job leave in the table *)
(* ================================================================== *)

(** The row [t] after [/process] has accepted a request with the parsed
    settings [st]. *)
Lemma dispatched_row (cwd : string) (parse : string -> option Settings)
    (db db1 : Store) (params_id body : string) (resp : Response) (j : Job) :
  process_handler cwd parse db params_id body = (db1, resp, Some j) ->
  exists t st,
    db !! job_id j = Some t
    /\ parse body = Some st
    /\ db1 = updateAudioTrack db (job_id j)
               {| set_format := None; set_bitrate := None; set_duration := None;
                  set_bpm := None; set_key := None;
                  set_status :=
                    Some (if (0 <? Z.of_nat (length (asArray (extendedPaths t))))
                          then regenerate else processing);
                  set_settings := Some st; set_extendedPaths := None;
                  set_extendedDurations := None; set_versionCount := None |}
    /\ resp = Started 202 "Processing started" (job_id j) "processing"
    /\ createSafeOutputPath cwd (resultDir cwd) (safeFilename t)
       = Some (job_outputPath j)
    /\ job_args j
       = [originalPath t; job_outputPath j;
          num_toString (Num (introLength st));
          num_toString (Num (outroLength st));
          bool_toString (preserveVocals st); beatDetection st].
Proof.
  unfold process_handler, getAudioTrack.
  destruct (parseInt10 params_id) as [|i]; [intros H; inversion H|].
  destruct (db !! i) as [track|] eqn:Htrack; [|intros H; inversion H].
  destruct (num_gt _ _); [intros H; inversion H|].
  destruct (parse body) as [settings|] eqn:Hparse; [|intros H; inversion H].
  destruct (createSafeOutputPath _ _ _) as [out|] eqn:Hout;
    [|intros H; inversion H].
  intros H. inversion H; subst; simpl. exists track, settings.
  split_and!; done.
Qed.

(** X10.  An accepted [/process] request changes two columns of the
    row: the status becomes [regenerate] when the row already has a
    version and [processing] otherwise, and the settings become the
    parsed settings.  The acknowledgement says [processing] in both
    cases.  The job gets the stored original path as it is, without a
    new validation, and the validated output path. *)
Theorem accepted_request_effect (cwd : string)
    (parse : string -> option Settings) (db db1 : Store)
    (params_id body : string) (resp : Response) (j : Job) :
  process_handler cwd parse db params_id body = (db1, resp, Some j) ->
  exists t t1 st,
    db !! job_id j = Some t
    /\ db1 !! job_id j = Some t1
    /\ parse body = Some st
    /\ status t1 = (if decide (asArray (extendedPaths t) = [])
                    then processing else regenerate)
    /\ settings t1 = Some st
    /\ (extendedPaths t1, extendedDurations t1, versionCount t1)
       = (extendedPaths t, extendedDurations t, versionCount t)
    /\ (id t1, userId t1, originalFilename t1, originalPath t1)
       = (id t, userId t, originalFilename t, originalPath t)
    /\ (format t1, bitrate t1, duration t1, bpm t1, key t1)
       = (format t, bitrate t, duration t, bpm t, key t)
    /\ (forall k, k <> job_id j -> db1 !! k = db !! k)
    /\ resp = Started 202 "Processing started" (job_id j) "processing"
    /\ hd_error (job_args j) = Some (originalPath t)
    /\ createSafeOutputPath cwd (resultDir cwd) (safeFilename t)
       = Some (job_outputPath j).
Proof.
  intros Hrun.
  destruct (dispatched_row _ _ _ _ _ _ _ _ Hrun)
    as (t & st & Ht & Hst & -> & -> & Hout & Hargs).
  eexists t, _, st. rewrite lookup_updateAudioTrack_eq, Ht. simpl.
  split_and!; try done.
  - destruct (asArray (extendedPaths t)); by destruct (decide _).
  - intros k Hk. by apply lookup_updateAudioTrack_ne.
  - by rewrite Hargs.
Qed.

Lemma accepted_request_effect_witness :
  exists t1,
    (process_handler Demo.cwd Demo.parse (Demo.db None) "1" "{}").1.1 !! 1 = Some t1
    /\ status t1 = processing
    /\ settings t1 = Demo.parse "{}".
Proof.
  destruct (accepted_request_effect Demo.cwd Demo.parse (Demo.db None)
              (process_handler Demo.cwd Demo.parse (Demo.db None) "1" "{}").1.1
              "1" "{}" (Started 202 "Processing started" 1 "processing")
              (Demo.job 0) eq_refl)
    as (t & t1 & st & Ht & Ht1 & Hst & Hstatus & Hsettings & _).
  exists t1. split_and!; [exact Ht1 | |].
  - rewrite Hstatus. injection Ht as <-. reflexivity.
  - by rewrite Hsettings, Hst.
Defined.

(** X11.  When no safe output path can be made (for instance because
    the original file name contains a tilde), the request is answered
    400 and no job is started, but the row has already been written:
    its status says [processing] (or [regenerate]) and its settings are
    the new ones, and nothing is left that would change the status
    again. *)
Theorem refused_output_leaves_status (cwd : string)
    (parse : string -> option Settings) (db : Store)
    (params_id body : string) (i : Z) (t : AudioTrack) (st : Settings) :
  parseInt10 params_id = Num i ->
  getAudioTrack db i = Some t ->
  ~ over_limit t ->
  parse body = Some st ->
  createSafeOutputPath cwd (resultDir cwd) (safeFilename t) = None ->
  exists db1 t1,
    process_handler cwd parse db params_id body
    = (db1, Json 400 "Invalid output path - unable to create safe file path", None)
    /\ db1 !! i = Some t1
    /\ status t1 = (if decide (asArray (extendedPaths t) = [])
                    then processing else regenerate)
    /\ settings t1 = Some st
    /\ (forall k, k <> i -> db1 !! k = db !! k).
Proof.
  intros Hid Ht Hlim Hparse Hout. unfold process_handler.
  rewrite Hid, Ht.
  destruct (num_gt _ _) eqn:Hgt.
  { exfalso. apply Hlim. by apply num_gt_over_limit. }
  rewrite Hparse, Hout. eexists _, _. split; [done|].
  unfold getAudioTrack in Ht. rewrite lookup_updateAudioTrack_eq, Ht. simpl.
  split_and!; try done.
  - destruct (asArray (extendedPaths t)); by destruct (decide _).
  - intros k Hk. by apply lookup_updateAudioTrack_ne.
Qed.

Lemma refused_output_leaves_status_witness :
  exists db1 t1,
    process_handler Demo.cwd Demo.parse {[ 3 := Demo.backup ]} "3" "{}"
    = (db1, Json 400 "Invalid output path - unable to create safe file path", None)
    /\ db1 !! 3 = Some t1
    /\ status t1 = processing.
Proof.
  assert (Hget : getAudioTrack {[ 3 := Demo.backup ]} 3 = Some Demo.backup)
    by reflexivity.
  assert (Hlim : ~ over_limit Demo.backup).
  { intros (v & Hv & _). discriminate Hv. }
  assert (Hout : createSafeOutputPath Demo.cwd (resultDir Demo.cwd)
                   (safeFilename Demo.backup) = None).
  { apply createSafeOutputPath_refuses. right.
    by exists "mix", "old_extended_v1.mp3". }
  destruct (refused_output_leaves_status Demo.cwd Demo.parse
              {[ 3 := Demo.backup ]} "3" "{}" 3 Demo.backup
              {| introLength := 10; outroLength := 5; preserveVocals := true;
                 beatDetection := "auto" |} eq_refl Hget Hlim eq_refl Hout)
    as (db1 & t1 & H1 & H2 & H3 & _).
  exists db1, t1. split_and!; [exact H1 | exact H2 | exact H3].
Defined.

(** X12.  A job has one way to succeed and fails in every other case.
    When the tool and the analysis both end well and the row is still
    there, the row becomes [completed], gets the output path and the
    duration appended and its counter raised, and keeps every other
    column.  In every other case (the tool fails, or the analysis of the
    output file fails although the file has been produced) the table
    afterwards is the table before with the status of the row set to
    [error], and the job stops after that one update. *)
Theorem job_outcomes (db : Store) (j : Job) (tool : ToolOutcome)
    (info : InfoOutcome) (t : AudioTrack) :
  db !! job_id j = Some t ->
  match tool, info with
  | ToolDone, InfoDone d =>
      exists t',
        (run_job db j tool info).1 !! job_id j = Some t'
        /\ status t' = completed
        /\ extendedPaths t'
           = Some (asArray (extendedPaths t) ++ [Some (job_outputPath j)])%list
        /\ extendedDurations t'
           = Some (asArray (extendedDurations t) ++ [extendedDuration_of d])%list
        /\ versionCount t' = Some (next_versionCount (versionCount t))
        /\ settings t' = settings t
        /\ (id t', userId t', originalFilename t', originalPath t')
           = (id t, userId t, originalFilename t, originalPath t)
        /\ (format t', bitrate t', duration t', bpm t', key t')
           = (format t, bitrate t, duration t, bpm t, key t)
  | _, _ =>
      (run_job db j tool info).1
      = alter (fun t => with_status t error) (job_id j) db
      /\ last (run_job db j tool info).2
         = Some (StorageUpdate (job_id j) error_update)
  end
  /\ forall k, k <> job_id j -> (run_job db j tool info).1 !! k = db !! k.
Proof.
  intros Ht. split.
  - destruct tool; [|destruct info as [|d]].
    + unfold run_job, job_fail. simpl. by rewrite updateAudioTrack_alter.
    + unfold run_job, job_fail. simpl. by rewrite updateAudioTrack_alter.
    + rewrite (run_job_done_lookup db j d t Ht). eexists. split; [done|].
      split_and!; try done.
      cbn [versionCount apply_update]. by rewrite completed_update_versionCount.
  - intros k Hk. unfold run_job, job_refetch, getAudioTrack, job_fail, job_write.
    rewrite Ht. destruct tool; [|destruct info]; simpl;
      by rewrite lookup_updateAudioTrack_ne.
Qed.

Lemma job_outcomes_witness :
  (run_job (Demo.db (Some 1)) (Demo.job 0) ToolDone InfoFailed).1
  = alter (fun t => with_status t error) 1 (Demo.db (Some 1)).
Proof.
  destruct (job_outcomes (Demo.db (Some 1)) (Demo.job 0) ToolDone InfoFailed
              (Demo.song (Some 1)) eq_refl) as [[H _] _].
  exact H.
Defined.

(** X13.  A job whose track is no longer in the table (the tracks were
    cleared while it ran) leaves the table as it is, however the tool
    and the analysis end: no row comes back. *)
Theorem job_of_deleted_track_is_silent (db : Store) (j : Job)
    (tool : ToolOutcome) (info : InfoOutcome) :
  db !! job_id j = None ->
  (run_job db j tool info).1 = db.
Proof.
  intros Hnone. unfold run_job, job_refetch, getAudioTrack, job_fail,
    updateAudioTrack.
  rewrite Hnone. by destruct tool, info.
Qed.

Lemma job_of_deleted_track_is_silent_witness :
  (run_job (deleteAllUserTracks (Demo.db None) 7) (Demo.job 0) ToolDone
     (InfoDone None)).1
  = deleteAllUserTracks (Demo.db None) 7.
Proof.
  apply job_of_deleted_track_is_silent.
  destruct (deleteAllUserTracks (Demo.db None) 7 !! job_id (Demo.job 0))
    as [t|] eqn:Ht; [|done].
  apply lookup_deleteAllUserTracks in Ht as [Ht Hne].
  injection Ht as <-. by destruct Hne.
Defined.

(* ================================================================== *)
(** * The version cap in use *)
(* ================================================================== *)

Lemma process_handler_no_job (cwd : string) (parse : string -> option Settings)
    (db db1 : Store) (params_id body : string) (resp : Response) :
  process_handler cwd parse db params_id body = (db1, resp, None) ->
  exists c m, resp = Json c m.
Proof.
  unfold process_handler.
  destruct (parseInt10 params_id); [intros [= <- <-]; eauto|].
  destruct (getAudioTrack db _); [|intros [= <- <-]; eauto].
  destruct (num_gt _ _); [intros [= <- <-]; eauto|].
  destruct (parse body); [|intros [= <- <-]; eauto].
  destruct (createSafeOutputPath _ _ _); [done|intros [= <- <-]; eauto].
Qed.

(** One accepted request followed by the successful end of its job. *)
Lemma round_done (cwd : string) (parse : string -> option Settings)
    (db : Store) (params_id body : string) (d : option Q) (i : Z)
    (t : AudioTrack) :
  parseInt10 params_id = Num i ->
  db !! i = Some t ->
  (process_round cwd parse db params_id body ToolDone (InfoDone d)).2
  = Started 202 "Processing started" i "processing" ->
  exists t' out,
    (process_round cwd parse db params_id body ToolDone (InfoDone d)).1 !! i
    = Some t'
    /\ versionCount t' = Some (next_versionCount (versionCount t))
    /\ asArray (extendedPaths t') = (asArray (extendedPaths t) ++ [Some out])%list
    /\ ~ over_limit t.
Proof.
  intros Hid Ht. unfold process_round.
  destruct (process_handler cwd parse db params_id body) as [[db1 resp] [j|]] eqn:Hrun.
  - intros _.
    destruct (process_handler_job _ _ _ _ _ _ _ _ Hrun)
      as (t0 & st & Hid' & Ht0 & Hlim & _ & _ & _ & Hrow & _).
    assert (Hi : i = job_id j) by congruence.
    rewrite Hi in Ht |- *. rewrite Ht in Ht0. injection Ht0 as <-.
    cbn [fst snd]. rewrite (run_job_done_lookup _ _ _ _ Hrow).
    eexists _, (job_outputPath j). split; [done|]. split_and!; try done.
    cbn [versionCount apply_update]. by rewrite completed_update_versionCount.
  - cbn [fst snd]. intros ->.
    by destruct (process_handler_no_job _ _ _ _ _ _ _ Hrun) as (c & m & ?).
Qed.

Lemma updateAudioTrack_twice (db : Store) (i : Z) (u : UpdateAudioTrack) :
  (forall t, apply_update (apply_update t u) u = apply_update t u) ->
  updateAudioTrack (updateAudioTrack db i u) i u = updateAudioTrack db i u.
Proof.
  intros Hu. rewrite !updateAudioTrack_alter. apply map_eq. intros k.
  destruct (decide (i = k)) as [<- | Hne].
  - rewrite !lookup_alter_eq. destruct (db !! i); simpl; [|done]. by rewrite Hu.
  - by rewrite !lookup_alter_ne.
Qed.

(** A second request that arrives before the job of the first has ended
    is accepted like the first and starts the same job. *)
Lemma dispatch_again (cwd : string) (parse : string -> option Settings)
    (db db1 : Store) (params_id body : string) (resp : Response) (j : Job) :
  process_handler cwd parse db params_id body = (db1, resp, Some j) ->
  process_handler cwd parse db1 params_id body = (db1, resp, Some j).
Proof.
  intros Hrun.
  destruct (process_handler_job _ _ _ _ _ _ _ _ Hrun)
    as (t & st & Hid & Ht & Hlim & Hparse & Hout & _).
  destruct (dispatched_row _ _ _ _ _ _ _ _ Hrun)
    as (t0 & st0 & Ht0 & Hst0 & Hdb1 & Hresp & _ & Hargs).
  rewrite Ht in Ht0. injection Ht0 as <-.
  rewrite Hparse in Hst0. injection Hst0 as <-.
  subst db1. unfold process_handler, getAudioTrack. rewrite Hid.
  rewrite lookup_updateAudioTrack_eq, Ht.
  cbn [fmap option_fmap option_map].
  set (u := {| set_format := None; set_bitrate := None; set_duration := None;
               set_bpm := None; set_key := None;
               set_status :=
                 Some (if (0 <? Z.of_nat (length (asArray (extendedPaths t))))
                       then regenerate else processing);
               set_settings := Some st; set_extendedPaths := None;
               set_extendedDurations := None; set_versionCount := None |}) in *.
  change (versionCount (apply_update t u)) with (versionCount t).
  change (extendedPaths (apply_update t u)) with (extendedPaths t).
  change (safeFilename (apply_update t u)) with (safeFilename t).
  change (originalPath (apply_update t u)) with (originalPath t).
  destruct (num_gt _ _) eqn:Hgt.
  { exfalso. apply Hlim. by apply num_gt_over_limit. }
  rewrite Hparse, Hout. fold u.
  rewrite updateAudioTrack_twice by done.
  rewrite Hresp. do 2 f_equal. destruct j as [ji jo ja]. simpl in *.
  by rewrite Hargs.
Qed.

(** X15.  The version limit is checked when a request arrives and the
    counter rises only when a job ends, so requests that arrive while a
    job is still running are not counted: a request that is accepted
    once is accepted again, with the same output path, as long as no job
    has ended; and when [n] such jobs then succeed one after the other,
    the row holds [n] more entries, all of them that one path. *)
Theorem overlapping_requests_escape_limit (cwd : string)
    (parse : string -> option Settings) (db db1 : Store)
    (params_id body : string) (resp : Response) (j : Job) :
  process_handler cwd parse db params_id body = (db1, resp, Some j) ->
  process_handler cwd parse db1 params_id body = (db1, resp, Some j)
  /\ exists t,
       db !! job_id j = Some t
       /\ forall (n : nat) (d : option Q),
            exists t',
              foldl (exec_op cwd parse) db1
                (replicate n (OpJob j ToolDone (InfoDone d))) !! job_id j
              = Some t'
              /\ asArray (extendedPaths t')
                 = (asArray (extendedPaths t)
                    ++ replicate n (Some (job_outputPath j)))%list.
Proof.
  intros Hrun. split; [by apply (dispatch_again cwd parse db)|].
  destruct (process_handler_job _ _ _ _ _ _ _ _ Hrun)
    as (t & st & _ & Ht & _ & _ & _ & _ & Hrow & _).
  exists t. split; [done|]. intros n d.
  destruct (serial_arrays cwd parse (replicate n (OpJob j ToolDone (InfoDone d)))
              db1 (job_id j) _ Hrow) as (t' & Ht' & Hp & _).
  exists t'. split; [done|]. rewrite Hp. f_equal.
  clear. induction n as [|n IH]; [done|].
  cbn [replicate omap list_omap completed_by]. rewrite decide_True by done.
  cbn [fmap list_fmap fst]. by rewrite <- IH.
Qed.

Lemma overlapping_requests_escape_limit_witness :
  exists t',
    foldl (exec_op Demo.cwd Demo.parse)
      (process_handler Demo.cwd Demo.parse (Demo.db None) "1" "{}").1.1
      (replicate 5 (OpJob (Demo.job 0) ToolDone (InfoDone None))) !! 1
    = Some t'
    /\ asArray (extendedPaths t')
       = replicate 5 (Some "/app/results/song_extended_v1.mp3").
Proof.
  destruct (overlapping_requests_escape_limit Demo.cwd Demo.parse (Demo.db None)
              (process_handler Demo.cwd Demo.parse (Demo.db None) "1" "{}").1.1
              "1" "{}" (Started 202 "Processing started" 1 "processing")
              (Demo.job 0) eq_refl) as (_ & t & Ht & H).
  destruct (H 5%nat None) as (t' & Ht' & Hp).
  exists t'. split; [exact Ht'|].
  rewrite Hp. injection Ht as <-. reflexivity.
Defined.

(* ================================================================== *)
(** * From a finished job to its delivery *)
(* ================================================================== *)

Lemma digit_not_x (x : ascii) :
  is_digit x = true -> Ascii.eqb x "x" || Ascii.eqb x "X" = false.
Proof.
  intros Hx. apply orb_false_iff. split; apply Ascii.eqb_neq; intros ->;
    vm_compute in Hx; discriminate Hx.
Qed.

(** Without a radix, [parseInt] reads a run of decimal digits like
    [parseInt(s, 10)]. *)
Lemma parseInt_decimal (s : string) :
  all_digits s = true -> parseInt s = parseInt10 s.
Proof.
  destruct s as [|c r]; [done|]. intros Hd.
  pose proof Hd as Hd'. cbn [all_digits] in Hd'.
  apply andb_true_iff in Hd' as [Hc Hr].
  destruct (is_digit_facts c Hc) as (Hsp & Hminus & Hplus).
  unfold parseInt. rewrite (trimStart_digit c r Hc). cbn [split_sign].
  rewrite Hminus, Hplus.
  destruct r as [|x r].
  - by destruct c as [[] [] [] [] [] [] [] []].
  - cbn [all_digits] in Hr. apply andb_true_iff in Hr as [Hx _].
    pose proof (digit_not_x x Hx) as Hnx.
    destruct c as [[] [] [] [] [] [] [] []]; try reflexivity.
    by rewrite Hnx.
Qed.

Lemma requested_version_N_toString (k : N) :
  requested_version (Some (N_toString k)) = Num (Z.of_N k).
Proof.
  unfold requested_version, parseInt_opt.
  rewrite parseInt_decimal by apply N_toString_digits.
  rewrite parseInt10_N_toString. unfold num_or, num_truthy.
  destruct (Z.eqb_spec (Z.of_N k) 0) as [-> | _]; done.
Qed.

Lemma array_get_last (l : list (option string)) (x : option string) :
  array_get (l ++ [x]) (Num (Z.of_N (N.of_nat (length l)))) = Some x.
Proof.
  unfold array_get. rewrite nat_N_Z.
  destruct (Z.ltb_spec (Z.of_nat (length l)) 0); [lia|].
  rewrite Nat2Z.id. by rewrite lookup_app_r, Nat.sub_diag.
Qed.

(** X16.  Under an absolute working directory, once an accepted request
    has been followed by the successful end of its job and the tool has
    written its output file, both delivery routes find the new version
    under the index it was given: the streaming route answers 200 with
    the size of that file and pipes it, and the download route passes
    that file to [res.download] under the name
    [{base}_extended_v{k+1}{ext}] that the request computed (the name
    before sanitising).  What [res.download] answers is up to Express. *)
Theorem new_version_is_served (cwd : string)
    (parse : string -> option Settings) (db db1 : Store) (fs : Fs)
    (params_id body : string) (resp : Response) (j : Job) (t : AudioTrack)
    (d : option Q) (size : Z) :
  path.isAbsolute cwd = true ->
  process_handler cwd parse db params_id body = (db1, resp, Some j) ->
  db !! job_id j = Some t ->
  fs (job_outputPath j) = Some size ->
  let db2 := (run_job db1 j ToolDone (InfoDone d)).1 in
  let k := N.of_nat (length (asArray (extendedPaths t))) in
  (audio_handler cwd db2 fs params_id "extended" (Some (N_toString k)) None).1
  = Piped 200
      [("Content-Length", HNum (Num size)); ("Content-Type", HStr "audio/mpeg")]
      (job_outputPath j) None
  /\ (download_handler cwd db2 fs params_id (Some (N_toString k))).1
     = Download (job_outputPath j) (safeFilename t).
Proof.
  intros Habs Hrun Ht Hfs db2 k.
  destruct (process_handler_job _ _ _ _ _ _ _ _ Hrun)
    as (t0 & st & Hid & Ht0 & _ & _ & Hout & _ & Hrow & _).
  rewrite Ht in Ht0. injection Ht0 as <-.
  pose proof (run_job_done_lookup db1 j d _ Hrow) as Hrow2. fold db2 in Hrow2.
  assert (Hsafe : validateAndSanitizePath cwd (job_outputPath j)
                  = Some (job_outputPath j)).
  { unfold createSafeOutputPath in Hout. destruct (negb _); [done|].
    by eapply validate_fixed_point. }
  assert (Hne : str_truthy (job_outputPath j) = true).
  { unfold str_truthy. apply negb_true_iff, String.eqb_neq.
    apply validate_some in Hsafe. rewrite Hsafe. apply resolve_nonempty. }
  assert (Hentry : truthy_path
            (mjoin (array_get
               (asArray (extendedPaths t) ++ [Some (job_outputPath j)])
               (requested_version (Some (N_toString k)))))
            = Some (job_outputPath j)).
  { rewrite requested_version_N_toString. unfold k.
    rewrite array_get_last. simpl. by rewrite Hne. }
  split.
  - unfold audio_handler, audio_locate, getAudioTrack. rewrite Hid, Hrow2.
    cbn [String.eqb Ascii.eqb Bool.eqb negb andb].
    change (asArray (extendedPaths (apply_update _ (completed_update _ _ _))))
      with (asArray (extendedPaths t) ++ [Some (job_outputPath j)])%list.
    rewrite Hentry, Hsafe. unfold existsSync, stat_size. by rewrite Hfs.
  - unfold download_handler, getAudioTrack. rewrite Hid, Hrow2. cbv zeta.
    change (asArray (extendedPaths (apply_update _ (completed_update _ _ _))))
      with (asArray (extendedPaths t) ++ [Some (job_outputPath j)])%list.
    rewrite Hentry, Hsafe. rewrite requested_version_N_toString.
    unfold num_ge, k. rewrite length_app, nat_N_Z.
    rewrite (proj2 (Z.leb_gt _ _)) by (cbn [length]; lia).
    unfold existsSync. rewrite Hfs. cbn [negb fst].
    reflexivity.
Qed.

Lemma new_version_is_served_witness :
  let fs : Fs :=
    fun p => if String.eqb p "/app/results/song_extended_v1.mp3" then Some 4096
             else None in
  let db2 :=
    (run_job (process_handler Demo.cwd Demo.parse (Demo.db None) "1" "{}").1.1
       (Demo.job 0) ToolDone (InfoDone None)).1 in
  (download_handler Demo.cwd db2 fs "1" (Some "0")).1
  = Download "/app/results/song_extended_v1.mp3" "song_extended_v1.mp3".
Proof.
  intros fs db2.
  destruct (new_version_is_served Demo.cwd Demo.parse (Demo.db None)
              (process_handler Demo.cwd Demo.parse (Demo.db None) "1" "{}").1.1
              fs "1" "{}" (Started 202 "Processing started" 1 "processing")
              (Demo.job 0) (Demo.song None) None 4096
              eq_refl eq_refl eq_refl eq_refl) as [_ H].
  exact H.
Defined.

(* ================================================================== *)
(** * The delivery routes with and without PathGuard *)
(* ================================================================== *)

Lemma truthy_path_nonempty (p : option string) (fp : string) :
  truthy_path p = Some fp -> p = Some fp /\ fp <> "".
Proof.
  destruct p as [s|]; [|done]. simpl.
  destruct (str_truthy s) eqn:Hs; [|done]. intros [= ->]. split; [done|].
  intros ->. discriminate Hs.
Qed.

Lemma audio_agrees_on_stable (cwd : string) (db : Store) (fs : Fs)
    (params_id type_ : string) (query_version range : option string) :
  stable_paths cwd db ->
  (audio_handler cwd db fs params_id type_ query_version range).1
  = legacy_audio_handler db fs params_id type_ query_version range.
Proof.
  intros Hst. unfold audio_handler, audio_locate, legacy_audio_handler.
  destruct (parseInt10 params_id) as [|i]; [done|].
  destruct (negb (type_ =? "original") && negb (type_ =? "extended"))%string;
    [done|].
  unfold getAudioTrack. destruct (db !! i) as [t|] eqn:Ht; [|done].
  cbv zeta.
  destruct (truthy_path _) as [fp|] eqn:Hfp; [|done].
  assert (Hsafe : validateAndSanitizePath cwd fp = Some fp).
  { apply truthy_path_nonempty in Hfp as Hfp'. destruct Hfp' as [Hsrc Hne].
    apply (Hst i t Ht); [|done].
    destruct (type_ =? "extended")%string.
    - right. by apply (located_path_in_record _ (requested_version query_version)).
    - left. by injection Hsrc. }
  rewrite Hsafe.
  destruct (negb (existsSync fs fp)); [done|].
  destruct (truthy_path range) as [r|]; [|done].
  by destruct (range_response fp (stat_size fs fp) r) as [[resp a] b].
Qed.

Lemma download_agrees_on_stable (cwd : string) (db : Store) (fs : Fs)
    (params_id : string) (query_version : option string) :
  stable_paths cwd db ->
  (download_handler cwd db fs params_id query_version).1
  = legacy_download_handler db fs params_id query_version.
Proof.
  intros Hst. unfold download_handler, legacy_download_handler.
  destruct (parseInt10 params_id) as [|i]; [done|].
  unfold getAudioTrack. destruct (db !! i) as [t|] eqn:Ht; [|done].
  cbv zeta.
  destruct (num_ge _ _) eqn:Hge.
  - (* past the end of the array, [extendedPaths[version]] is undefined *)
    destruct (requested_version query_version) as [|v]; [done|].
    unfold num_ge in Hge. apply Z.leb_le in Hge.
    unfold array_get. destruct (v <? 0); [done|].
    rewrite lookup_ge_None_2 by lia. done.
  - destruct (truthy_path _) as [fp|] eqn:Hfp; [|done].
    assert (Hsafe : validateAndSanitizePath cwd fp = Some fp).
    { apply truthy_path_nonempty in Hfp as Hfp'. destruct Hfp' as [_ Hne].
      apply (Hst i t Ht); [|done]. right.
      by apply (located_path_in_record _ (requested_version query_version)). }
    rewrite Hsafe. by destruct (negb (existsSync fs fp)).
Qed.



(* ================================================================== *)
(** * DELETE /api/tracks: which files go *)
(* ================================================================== *)

Lemma unlink_if_safe_gone (cwd : string) (fs : Fs) (a : option string)
    (q : string) :
  unlink_if_safe cwd fs a q = None
  <-> fs q = None
      \/ exists fp, a = Some fp /\ validateAndSanitizePath cwd fp = Some q.
Proof.
  unfold unlink_if_safe. destruct a as [p|];
    [|split; [by left | by intros [? | (fp & ? & _)]]].
  destruct (validateAndSanitizePath cwd p) as [sp|] eqn:Hv;
    [|split; [by left | intros [? | (fp & [= <-] & Hfp)]; [done | congruence]]].
  unfold existsSync, unlinkSync. destruct (fs sp) as [z|] eqn:Hsp.
  - destruct (String.eqb_spec q sp) as [-> | Hne];
      [split; [intros _; right; by exists p | done]|].
    split; [by left|]. intros [? | (fp & [= <-] & Hfp)]; [done|]. congruence.
  - split; [by left|]. intros [? | (fp & [= <-] & Hfp)]; [done|]. congruence.
Qed.

Lemma unlink_if_safe_same (cwd : string) (fs : Fs) (a : option string)
    (q : string) :
  unlink_if_safe cwd fs a q = fs q \/ unlink_if_safe cwd fs a q = None.
Proof.
  unfold unlink_if_safe. destruct a as [p|]; [|by left].
  destruct (validateAndSanitizePath cwd p) as [sp|]; [|by left].
  destruct (existsSync fs sp); [|by left].
  unfold unlinkSync. destruct (String.eqb q sp); [by right | by left].
Qed.

Lemma unlink_entries_gone (cwd : string) (l : list (option string)) (fs : Fs)
    (q : string) :
  foldl (unlink_if_safe cwd) fs l q = None
  <-> fs q = None
      \/ exists fp, In (Some fp) l /\ validateAndSanitizePath cwd fp = Some q.
Proof.
  revert fs. induction l as [|a l IH]; intros fs.
  { simpl. split; [by left | by intros [? | (fp & [] & _)]]. }
  cbn [foldl]. rewrite IH, unlink_if_safe_gone. simpl. split.
  - intros [[? | (fp & -> & Hv)] | (fp & Hin & Hv)];
      [by left | right; exists fp; auto | right; exists fp; auto].
  - intros [? | (fp & [-> | Hin] & Hv)];
      [left; by left | left; right; by exists fp | right; by exists fp].
Qed.

Lemma unlink_entries_same (cwd : string) (l : list (option string)) (fs : Fs)
    (q : string) :
  foldl (unlink_if_safe cwd) fs l q = fs q
  \/ foldl (unlink_if_safe cwd) fs l q = None.
Proof.
  revert fs. induction l as [|a l IH]; intros fs; [by left|].
  cbn [foldl].
  destruct (IH (unlink_if_safe cwd fs a)) as [-> | ->]; [|by right].
  apply unlink_if_safe_same.
Qed.

Lemma delete_track_files_gone (cwd : string) (fs : Fs) (t : AudioTrack)
    (q : string) :
  delete_track_files cwd fs t q = None
  <-> fs q = None
      \/ exists fp, from_record t fp /\ validateAndSanitizePath cwd fp = Some q.
Proof.
  unfold delete_track_files, from_record.
  rewrite unlink_entries_gone, unlink_if_safe_gone. split.
  - intros [[? | (fp & [= <-] & Hv)] | (fp & Hin & Hv)];
      [by left | right; exists (originalPath t); auto | right; exists fp; auto].
  - intros [? | (fp & [-> | Hin] & Hv)];
      [left; by left | left; right; by exists (originalPath t)
      | right; by exists fp].
Qed.

Lemma delete_track_files_same (cwd : string) (fs : Fs) (t : AudioTrack)
    (q : string) :
  delete_track_files cwd fs t q = fs q \/ delete_track_files cwd fs t q = None.
Proof.
  unfold delete_track_files.
  destruct (unlink_entries_same cwd (asArray (extendedPaths t))
              (unlink_if_safe cwd fs (Some (originalPath t))) q) as [-> | ->];
    [|by right].
  apply unlink_if_safe_same.
Qed.

Lemma delete_tracks_gone (cwd : string) (l : list AudioTrack) (fs : Fs)
    (q : string) :
  foldl (delete_track_files cwd) fs l q = None
  <-> fs q = None
      \/ exists t fp, In t l /\ from_record t fp
                      /\ validateAndSanitizePath cwd fp = Some q.
Proof.
  revert fs. induction l as [|t l IH]; intros fs.
  { simpl. split; [by left | by intros [? | (t & fp & [] & _)]]. }
  cbn [foldl]. rewrite IH, delete_track_files_gone. simpl. split.
  - intros [[? | (fp & Hr & Hv)] | (t' & fp & Hin & Hr & Hv)];
      [by left | right; exists t, fp; auto | right; exists t', fp; auto].
  - intros [? | (t' & fp & [<- | Hin] & Hr & Hv)];
      [left; by left | left; right; by exists fp | right; by exists t', fp].
Qed.

Lemma delete_tracks_same (cwd : string) (l : list AudioTrack) (fs : Fs)
    (q : string) :
  foldl (delete_track_files cwd) fs l q = fs q
  \/ foldl (delete_track_files cwd) fs l q = None.
Proof.
  revert fs. induction l as [|t l IH]; intros fs; [by left|].
  cbn [foldl].
  destruct (IH (delete_track_files cwd fs t)) as [-> | ->]; [|by right].
  apply delete_track_files_same.
Qed.

(** X18.  What [DELETE /api/tracks] does to the disk.  A file is gone
    afterwards exactly when it was missing before or PathGuard maps a
    path held by one of the demo user's rows to it; every other file is
    as it was.  In particular no file outside the allowed directories
    is removed, whatever the rows hold. *)
Theorem clear_removes_only_guarded_files (cwd : string) (demoUser : Z)
    (db : Store) (fs : Fs) (q : string) :
  let fs' := (clear_handler cwd demoUser db fs).1.2 in
  (fs' q = None
   <-> fs q = None
       \/ exists k t fp,
            db !! k = Some t /\ userId t = demoUser /\ from_record t fp
            /\ validateAndSanitizePath cwd fp = Some q)
  /\ (fs' q = fs q \/ fs' q = None)
  /\ (outside_allowed cwd q -> fs' q = fs q).
Proof.
  cbv zeta. unfold clear_handler. cbn [fst snd].
  assert (Hgone : foldl (delete_track_files cwd) fs
                    (getAudioTracksByUserId db demoUser) q = None
                  <-> fs q = None
                      \/ exists k t fp,
                           db !! k = Some t /\ userId t = demoUser
                           /\ from_record t fp
                           /\ validateAndSanitizePath cwd fp = Some q).
  { rewrite delete_tracks_gone. split.
    - intros [? | (t & fp & Hin & Hrec & Hv)]; [by left|]. right.
      apply list_elem_of_In, elem_of_tracks_by_user in Hin as (k & Hk & Hu).
      by exists k, t, fp.
    - intros [? | (k & t & fp & Hk & Hu & Hrec & Hv)]; [by left|]. right.
      exists t, fp. split; [|done].
      apply list_elem_of_In, elem_of_tracks_by_user. eauto. }
  split_and!; [done | apply delete_tracks_same |].
  intros Hout.
  destruct (delete_tracks_same cwd (getAudioTracksByUserId db demoUser) fs q)
    as [? | Hnone]; [done|].
  rewrite Hnone. apply Hgone in Hnone as [? | (k & t & fp & _ & _ & _ & Hv)];
    [done|].
  apply validate_accepts in Hv as (_ & Hdir & _).
  apply isInAllowedDirectory_false in Hout. congruence.
Qed.

(* ================================================================== *)
(** * The analysis of an upload does not interfere *)
(* ================================================================== *)

Lemma lookup_run_analysis (db : Store) (i : Z) (o : AnalysisOutcome) (k : Z) :
  exists f : AudioTrack -> AudioTrack,
    run_analysis db i o !! k = f <$> db !! k
    /\ forall t,
         originalPath (f t) = originalPath t
         /\ originalFilename (f t) = originalFilename t
         /\ extendedPaths (f t) = extendedPaths t
         /\ versionCount (f t) = versionCount t
         /\ status (f t) = status t.
Proof.
  destruct o as [| | |fm b d m ky];
    try (exists (fun t => t); split; [by rewrite option_fmap_id | done]).
  unfold run_analysis. destruct (decide (k = i)) as [-> | Hne].
  - eexists. split; [apply lookup_updateAudioTrack_eq | done].
  - exists (fun t => t).
    split; [by rewrite lookup_updateAudioTrack_ne, option_fmap_id | done].
Qed.

(** X19.  The continuation of the upload analysis, whatever its outcome
    and whenever it runs, changes no answer of the delivery routes, of
    the status route, or of [/process], and the job that [/process]
    starts is the same: the analysis writes only [format], [bitrate],
    [duration], [bpm] and [key], which none of them reads. *)
Theorem analysis_does_not_interfere (cwd : string)
    (parse : string -> option Settings) (db : Store) (fs : Fs) (i : Z)
    (o : AnalysisOutcome) (params_id type_ body : string)
    (query_version range : option string) :
  let db' := run_analysis db i o in
  audio_handler cwd db' fs params_id type_ query_version range
  = audio_handler cwd db fs params_id type_ query_version range
  /\ download_handler cwd db' fs params_id query_version
     = download_handler cwd db fs params_id query_version
  /\ status_handler db' params_id = status_handler db params_id
  /\ (process_handler cwd parse db' params_id body).1.2
     = (process_handler cwd parse db params_id body).1.2
  /\ (process_handler cwd parse db' params_id body).2
     = (process_handler cwd parse db params_id body).2.
Proof.
  cbv zeta.
  unfold audio_handler, audio_locate, download_handler, status_handler,
    process_handler, getAudioTrack.
  destruct (parseInt10 params_id) as [|k]; [done|].
  destruct (lookup_run_analysis db i o k) as (f & -> & Hf).
  destruct (db !! k) as [t|]; [|by split_and!; try destruct (negb _ && negb _)].
  destruct (Hf t) as (Hp & Hn & He & Hv & Hs). cbn [fmap option_fmap option_map].
  unfold safeFilename. rewrite Hp, Hn, He, Hv, Hs. split_and!; try done.
  - destruct (num_gt _ _); [done|]. destruct (parse body); [|done]. cbv zeta.
    by destruct (createSafeOutputPath _ _ _).
  - destruct (num_gt _ _); [done|]. destruct (parse body); [|done]. cbv zeta.
    by destruct (createSafeOutputPath _ _ _).
Qed.

(* ================================================================== *)
(** * Suffix ranges *)
(* ================================================================== *)

(** X20.  Once the streaming route has located an existing file, every
    [Range] header that begins with [bytes=-] (a suffix range such as
    [bytes=-500]) is answered 500: the text before the first dash is
    empty, [parseInt] gives [NaN] for it, and the read stream refuses a
    start that is not a number. *)
Theorem suffix_range_is_500 (cwd : string) (db : Store) (fs : Fs)
    (params_id type_ : string) (query_version : option string)
    (filePath safePath : string) (fileSize : Z) (rest : string) :
  audio_locate cwd db fs params_id type_ query_version
  = inr (filePath, safePath, fileSize) ->
  (audio_handler cwd db fs params_id type_ query_version
     (Some ("bytes=-" ++ rest))).1
  = Json 500 "Error streaming audio".
Proof.
  intros Hloc. rewrite (audio_handler_range _ _ _ _ _ _ _ _ _ _ Hloc); [|done].
  unfold range_response.
  change (replace_first "bytes=" "" ("bytes=-" ++ rest)) with (String "-" rest).
  change (split "-" (String "-" rest)) with ("" :: split "-" rest).
  reflexivity.
Qed.

Lemma suffix_range_is_500_witness :
  (audio_handler Demo.cwd (Demo.db None) Demo.disk "1" "original" None
     (Some ("bytes=-" ++ "500"))).1
  = Json 500 "Error streaming audio".
Proof.
  apply (suffix_range_is_500 Demo.cwd (Demo.db None) Demo.disk "1" "original"
           None "/app/uploads/1700000000000-42.mp3"
           "/app/uploads/1700000000000-42.mp3" 1000 "500").
  reflexivity.
Defined.

(* ================================================================== *)
(** * POST /api/tracks/upload: what decides acceptance *)
(* ================================================================== *)

Lemma slashless_cons (c : ascii) (s : string) :
  split "/" (String c s) = [String c s]
  <-> c <> "/"%char /\ split "/" s = [s].
Proof.
  cbn [split]. destruct (Ascii.eqb_spec c "/") as [-> | Hc].
  - split; [intros [= H] | by intros [? _]].
  - pose proof (split_nonempty "/" s) as Hne.
    destruct (split "/" s) as [|h t]; [done|]. split.
    + by intros [= -> ->].
    + by intros [_ [= -> ->]].
Qed.

Lemma slashless_app (a b : string) :
  split "/" a = [a] -> split "/" b = [b] -> split "/" (a ++ b) = [a ++ b].
Proof.
  intros Ha Hb. induction a as [|c a IH]; [by rewrite str_app_nil_l|].
  apply slashless_cons in Ha as [Hc Ha]. rewrite str_app_cons.
  apply slashless_cons. auto.
Qed.

Lemma slashless_drop (d : nat) (s : string) :
  split "/" s = [s] -> split "/" (drop_chars d s) = [drop_chars d s].
Proof.
  revert s. induction d as [|d IH]; intros s Hs; [by destruct s|].
  destruct s as [|c s]; [done|]. cbn [drop_chars].
  apply slashless_cons in Hs as [_ Hs]. by apply IH.
Qed.

Lemma last_dot_none_cons (c : ascii) (s : string) :
  path.last_dot (String c s) = None
  <-> c <> "."%char /\ path.last_dot s = None.
Proof.
  cbn [path.last_dot]. destruct (path.last_dot s) as [i|]; [by split; [|intros [_ ?]]|].
  destruct (Ascii.eqb_spec c "."); split; try done; by intros [? _].
Qed.

Lemma last_dot_app (a b : string) :
  path.last_dot (a ++ b)
  = match path.last_dot b with
    | Some i => Some (String.length a + i)%nat
    | None => path.last_dot a
    end.
Proof.
  induction a as [|c a IH].
  - rewrite str_app_nil_l. by destruct (path.last_dot b).
  - rewrite str_app_cons. cbn [path.last_dot String.length]. rewrite IH.
    by destruct (path.last_dot b).
Qed.

Lemma last_dot_drop (s : string) (d : nat) :
  path.last_dot s = Some d -> path.last_dot (drop_chars d s) = Some 0%nat.
Proof.
  revert d. induction s as [|c s IH]; intros d; [done|].
  cbn [path.last_dot]. destruct (path.last_dot s) as [i|] eqn:Hs.
  - intros [= <-]. cbn [drop_chars]. by apply IH.
  - destruct (Ascii.eqb c ".") eqn:Hc; [|done]. intros [= <-].
    cbn [drop_chars path.last_dot]. by rewrite Hs, Hc.
Qed.

Lemma drop_chars_app (a b : string) :
  drop_chars (String.length a) (a ++ b) = b.
Proof.
  induction a as [|c a IH]; [rewrite str_app_nil_l; by destruct b|].
  by rewrite str_app_cons.
Qed.

Lemma last_component_slashless (p : string) :
  split "/" (path.last_component p) = [path.last_component p].
Proof.
  unfold path.last_component.
  destruct (filter _ _) as [|c l] eqn:Hf; [done|].
  assert (Hin : c ∈ filter (fun s => negb (String.eqb s "")) (rev (split "/" p))).
  { rewrite Hf. by left. }
  apply list_elem_of_filter in Hin as [_ Hin].
  apply list_elem_of_In, in_rev in Hin. by eapply split_parts_slashless.
Qed.

(** An extension is empty, or starts with its only dot; it has no
    slash. *)
Lemma extname_shape (p : string) :
  (path.extname p = "" \/ path.last_dot (path.extname p) = Some 0%nat)
  /\ split "/" (path.extname p) = [path.extname p].
Proof.
  unfold path.extname. cbv zeta.
  destruct (path.last_dot (path.last_component p)) as [[|d]|] eqn:Hd;
    [by split; [left|] | | by split; [left|]].
  destruct (String.eqb _ ".."); [by split; [left|]|]. split.
  - right. by apply last_dot_drop.
  - apply slashless_drop, last_component_slashless.
Qed.

Lemma last_component_plain (R g : string) :
  plain_name g -> path.last_component (R ++ "/" ++ g) = g.
Proof.
  intros (Hg0 & _ & _ & Hsplit). unfold path.last_component.
  change (R ++ "/" ++ g) with (R ++ String "/" g).
  rewrite split_app_sep, Hsplit, rev_app_distr. cbn [rev app].
  rewrite filter_cons_True; [done|].
  apply String.eqb_neq in Hg0. by rewrite Hg0.
Qed.

Lemma last_component_plain_only (g : string) :
  plain_name g -> path.last_component g = g.
Proof.
  intros (Hg0 & _ & _ & Hsplit). unfold path.last_component.
  rewrite Hsplit. cbn [rev app].
  rewrite filter_cons_True; [done|].
  apply String.eqb_neq in Hg0. by rewrite Hg0.
Qed.

Lemma extname_child (R g : string) :
  plain_name g -> path.extname (R ++ "/" ++ g) = path.extname g.
Proof.
  intros Hg. unfold path.extname.
  by rewrite last_component_plain, last_component_plain_only.
Qed.

Lemma digit_plain_char (c : ascii) :
  is_digit c = true -> c <> "/"%char /\ c <> "."%char /\ c <> "~"%char.
Proof.
  intros Hc. split_and!; intros ->; vm_compute in Hc; discriminate Hc.
Qed.

Lemma digits_slashless (s : string) :
  all_digits s = true -> split "/" s = [s] /\ path.last_dot s = None.
Proof.
  induction s as [|c s IH]; [done|]. cbn [all_digits].
  intros [Hc Hs]%andb_true_iff. destruct (IH Hs) as [H1 H2].
  destruct (digit_plain_char c Hc) as (? & ? & _). split.
  - by apply slashless_cons.
  - by apply last_dot_none_cons.
Qed.

Lemma N_toString_head (n : N) :
  exists c r, N_toString n = String c r /\ is_digit c = true.
Proof.
  pose proof (N_toString_digits n) as Hd. pose proof (N_toString_nonempty n) as Hne.
  destruct (N_toString n) as [|c r]; [done|].
  cbn [all_digits] in Hd. apply andb_true_iff in Hd as [Hc _]. eauto.
Qed.


Lemma includes_cons (c : ascii) (s sub : string) :
  includes (String c s) sub = startsWith (String c s) sub || includes s sub.
Proof. reflexivity. Qed.

Lemma includes_dotdot_dotfree (a b : string) :
  path.last_dot a = None -> includes (a ++ b) ".." = includes b "..".
Proof.
  induction a as [|c a IH]; [by rewrite str_app_nil_l|].
  intros [Hc Ha]%last_dot_none_cons.
  rewrite str_app_cons, includes_cons, (IH Ha). cbn [startsWith].
  destruct (Ascii.eqb_spec "." c) as [<- | _]; done.
Qed.

Lemma includes_dotdot_ext (e : string) :
  e = "" \/ path.last_dot e = Some 0%nat -> includes e ".." = false.
Proof.
  intros [-> | He]; [done|].
  destruct e as [|c e]; [done|]. cbn [path.last_dot] in He.
  destruct (path.last_dot e) as [i|] eqn:Hl; [done|].
  rewrite includes_cons.
  rewrite <- (str_app_nil_r e) at 2.
  rewrite (includes_dotdot_dotfree e "" Hl).
  cbn [startsWith]. destruct (Ascii.eqb "." c); [|done]. cbn [andb].
  destruct e as [|d e]; [done|]. apply last_dot_none_cons in Hl as [Hd _].
  cbn [startsWith]. by destruct (Ascii.eqb_spec "." d) as [<- | _].
Qed.

Lemma includes_dotdot_sep (a b : string) :
  includes a ".." = false -> includes b ".." = false ->
  includes (a ++ "/" ++ b) ".." = false.
Proof.
  intros Ha Hb. induction a as [|c a IH].
  - rewrite str_app_nil_l. change ("/" ++ b) with (String "/" b).
    by rewrite includes_cons, Hb.
  - rewrite includes_cons in Ha. apply orb_false_iff in Ha as [Hs Ha].
    rewrite str_app_cons, includes_cons, (IH Ha), orb_false_r.
    cbn [startsWith] in Hs |- *.
    destruct (Ascii.eqb "." c); [|done]. cbn [andb] in Hs |- *.
    destruct a as [|d a]; [done|]. rewrite str_app_cons.
    cbn [startsWith] in Hs |- *. by destruct (Ascii.eqb "." d).
Qed.

Lemma includes_tilde_app (a b : string) :
  includes (a ++ b) "~" = includes a "~" || includes b "~".
Proof.
  induction a as [|c a IH].
  - rewrite str_app_nil_l. done.
  - rewrite str_app_cons, !includes_cons, IH. cbn [startsWith].
    by rewrite !andb_true_r, orb_assoc.
Qed.

Lemma includes_tilde_digits (s : string) :
  all_digits s = true -> includes s "~" = false.
Proof.
  induction s as [|c s IH]; [done|]. cbn [all_digits].
  intros [Hc Hs]%andb_true_iff. rewrite includes_cons, (IH Hs).
  destruct (digit_plain_char c Hc) as (_ & _ & Ht). cbn [startsWith].
  by destruct (Ascii.eqb_spec "~" c) as [<- | _].
Qed.

Lemma lower_char_tilde (c : ascii) :
  Ascii.eqb "~" (lower_char c) = Ascii.eqb "~" c.
Proof. by destruct c as [[] [] [] [] [] [] [] []]. Qed.

Lemma includes_tilde_lower (s : string) :
  includes (toLowerCase s) "~" = includes s "~".
Proof.
  unfold toLowerCase. induction s as [|c s IH]; [done|].
  cbn [map_chars]. rewrite !includes_cons, IH. cbn [startsWith].
  by rewrite lower_char_tilde.
Qed.

Lemma allowed_extension_no_tilde (e : string) :
  str_in (toLowerCase e) ALLOWED_EXTENSIONS = true -> includes e "~" = false.
Proof.
  intros Hin. rewrite <- includes_tilde_lower.
  apply str_in_spec in Hin. simpl in Hin.
  destruct Hin as [<- | [<- | [<- | [<- | []]]]]; reflexivity.
Qed.

Section StoredName.

Variable now rnd : N.
Variable originalname : string.

Lemma storage_filename_stem :
  storage_filename now rnd originalname = upload_stem now rnd ++ path.extname originalname.
Proof. unfold storage_filename, upload_stem. by rewrite !str_app_assoc. Qed.

Lemma stem_facts :
  split "/" (upload_stem now rnd) = [upload_stem now rnd]
  /\ path.last_dot (upload_stem now rnd) = None
  /\ exists c r, upload_stem now rnd = String c r /\ is_digit c = true.
Proof.
  unfold upload_stem.
  destruct (digits_slashless _ (N_toString_digits now)) as [Hn1 Hn2].
  destruct (digits_slashless _ (N_toString_digits rnd)) as [Hr1 Hr2].
  split_and!.
  - apply slashless_app; [done|]. by apply (slashless_app "-").
  - rewrite !last_dot_app, Hr2. done.
  - destruct (N_toString_head now) as (c & r & -> & Hc).
    exists c, (r ++ "-" ++ N_toString rnd). by rewrite str_app_cons.
Qed.

Lemma storage_filename_plain :
  plain_name (storage_filename now rnd originalname).
Proof.
  rewrite storage_filename_stem.
  destruct stem_facts as (Hs1 & _ & c & r & Hstem & Hc).
  destruct (digit_plain_char c Hc) as (_ & Hdot & _).
  destruct (extname_shape originalname) as [_ He].
  split_and!.
  - rewrite Hstem, str_app_cons. done.
  - rewrite Hstem, str_app_cons. intros [= ? _]. done.
  - rewrite Hstem, str_app_cons. intros [= ? _]. done.
  - by apply slashless_app.
Qed.

(** The stored name has the extension of the client's file name. *)
Lemma extname_storage_filename :
  path.extname (storage_filename now rnd originalname)
  = path.extname originalname.
Proof.
  pose proof storage_filename_plain as Hplain.
  unfold path.extname at 1. cbv zeta.
  rewrite (last_component_plain_only _ Hplain).
  destruct Hplain as (_ & _ & Hdd & _). apply String.eqb_neq in Hdd.
  rewrite Hdd. rewrite storage_filename_stem.
  destruct stem_facts as (_ & Hs2 & c & r & Hstem & _).
  rewrite last_dot_app.
  destruct (extname_shape originalname) as [[-> | He] _].
  - by rewrite Hs2.
  - rewrite He, Nat.add_0_r. rewrite drop_chars_app.
    by rewrite Hstem.
Qed.

Lemma storage_filename_clean :
  includes (storage_filename now rnd originalname) ".." = false
  /\ includes (storage_filename now rnd originalname) "~"
     = includes (path.extname originalname) "~".
Proof.
  rewrite storage_filename_stem.
  destruct stem_facts as (_ & Hs2 & _).
  destruct (extname_shape originalname) as [He _]. split.
  - rewrite (includes_dotdot_dotfree _ _ Hs2). by apply includes_dotdot_ext.
  - rewrite includes_tilde_app. unfold upload_stem.
    rewrite !includes_tilde_app.
    rewrite (includes_tilde_digits _ (N_toString_digits now)).
    by rewrite (includes_tilde_digits _ (N_toString_digits rnd)).
Qed.

End StoredName.

(** Joining an absolute directory and a plain name gives a normal
    absolute path that ends with the name. *)
Lemma join_absolute_plain (a g : string) :
  path.isAbsolute a = true -> plain_name g ->
  exists l, Forall plain_name l
    /\ path.join a g = "/" ++ join_with "/" (l ++ [g]).
Proof.
  intros Ha Hg. pose proof Hg as (Hg0 & _).
  exists (rev (fold_left (path.norm_step false) (split "/" a) [])). split.
  { apply Forall_rev, fold_norm_keeps_plain; [|done].
    intros x. apply split_parts_slashless. }
  unfold path.join.
  assert (Ha0 : String.eqb a "" = false) by by destruct a.
  apply String.eqb_neq in Hg0 as Hg0'. rewrite Ha0, Hg0'.
  unfold path.normalize.
  assert (Habs : path.isAbsolute (a ++ "/" ++ g) = true).
  { destruct a as [|c a]; [done|]. by rewrite str_app_cons. }
  rewrite Habs, (ends_with_slash_plain _ g Hg). cbn [negb].
  assert (Hne : String.eqb (a ++ "/" ++ g) "" = false).
  { destruct a as [|c a]; [done|]. by rewrite str_app_cons. }
  rewrite Hne.
  destruct (normalizeString_plain false a g Hg) as [-> _].
  set (L := rev _).
  assert (Hn : String.eqb (join_with "/" (L ++ [g])) "" = false).
  { rewrite join_with_snoc. destruct L as [|x L]; [done|].
    apply String.eqb_neq. intros H. apply str_app_eq_nil in H as [_ H].
    by destruct g. }
  by rewrite Hn.
Qed.

(** Under an absolute working directory, the path multer gives to a
    stored upload is the upload directory, a slash and the stored name,
    and resolving changes nothing. *)
Lemma stored_path_resolved (cwd : string) (now rnd : N) (originalname : string) :
  path.isAbsolute cwd = true ->
  path.resolve cwd (stored_path cwd now rnd originalname)
  = uploadsDir cwd ++ "/" ++ storage_filename now rnd originalname
  /\ path.resolve cwd (uploadsDir cwd) = uploadsDir cwd.
Proof.
  intros Habs. unfold stored_path, uploadsDir.
  assert (Hup : plain_name "uploads") by (split_and!; done).
  destruct (join_absolute_plain cwd "uploads" Habs Hup) as (l & Hl & ->).
  pose proof (storage_filename_plain now rnd originalname) as Hg.
  pose proof (Forall_plain_snoc _ _ Hl Hup) as Hl'.
  rewrite (join_normal_plain _ _ Hl' Hg).
  rewrite (resolve_of_normal cwd _ (Forall_plain_snoc _ _ Hl' Hg)).
  rewrite (resolve_of_normal cwd _ Hl'). split; [|done].
  rewrite (join_with_snoc (l ++ ["uploads"])).
  destruct (l ++ ["uploads"])%list eqn:Heq; [by destruct l|].
  by rewrite str_app_assoc.
Qed.

(** X21.  Under an absolute working directory whose upload directory
    has no [..] and no tilde in its name, what the upload route does
    with a file stored by the disk storage is decided by the extension
    of the client's file name alone, case-insensitively, and not by the
    MIME type the filter looked at.  With an allowed extension a row is
    created whose [originalPath] is the upload directory, a slash and
    the generated name; with any other extension the stored file is
    removed, no row is created and the answer is 400. *)
Theorem upload_decided_by_extension (cwd : string) (demoUser : Z)
    (db : Store) (fs : Fs) (f : UploadedFile) (now rnd : N) (i : Z)
    (vc0 : option Z) :
  path.isAbsolute cwd = true ->
  includes (uploadsDir cwd) ".." = false ->
  includes (uploadsDir cwd) "~" = false ->
  upload_path f = stored_path cwd now rnd (originalname f) ->
  let p :=
    uploadsDir cwd ++ "/" ++ storage_filename now rnd (originalname f) in
  let track := new_track i demoUser (originalname f) p vc0 in
  upload_handler cwd demoUser db fs (Some f) i vc0
  = if str_in (toLowerCase (path.extname (originalname f))) ALLOWED_EXTENSIONS
    then (createAudioTrack db track, fs, DataTrack 201 track, Some p)
    else (db,
          if existsSync fs (upload_path f) then unlinkSync fs (upload_path f)
          else fs,
          DataMessage 400 "Invalid upload path - file rejected", None).
Proof.
  intros Habs Hdd Htl Hpath p track.
  destruct (stored_path_resolved cwd now rnd (originalname f) Habs)
    as [Hres HresU]. fold p in Hres.
  pose proof (storage_filename_plain now rnd (originalname f)) as Hplain.
  destruct (storage_filename_clean now rnd (originalname f)) as [Hn1 Hn2].
  assert (Hdir : isInAllowedDirectory cwd p = true).
  { unfold isInAllowedDirectory, ALLOWED_DIRECTORIES. cbn [existsb].
    rewrite HresU.
    assert (Hs : startsWith p (uploadsDir cwd ++ path.sep) = true).
    { apply startsWith_spec. exists (storage_filename now rnd (originalname f)).
      unfold p, path.sep. by rewrite str_app_assoc. }
    by rewrite Hs. }
  assert (Hext : path.extname p = path.extname (originalname f)).
  { unfold p. rewrite (extname_child _ _ Hplain).
    apply extname_storage_filename. }
  unfold upload_handler, validateAndSanitizePath.
  rewrite Hpath, Hres, Hdir, Hext. cbn [negb].
  destruct (str_in _ ALLOWED_EXTENSIONS) eqn:Hallowed; cbn [negb].
  - assert (Hclean : includes p ".." || includes p "~" = false).
    { apply orb_false_iff. split.
      - by apply includes_dotdot_sep.
      - unfold p. rewrite !includes_tilde_app, Htl, Hn2.
        by rewrite (allowed_extension_no_tilde _ Hallowed). }
    by rewrite Hclean.
  - done.
Qed.

Lemma upload_decided_by_extension_witness :
  let f := {| originalname := "track.ogg"; mimetype := "audio/mpeg";
              upload_path := "/app/uploads/1700000000000-42.ogg" |} in
  fileFilter (mimetype f) = true
  /\ (upload_handler "/app" 7 ∅ Demo.disk (Some f) 5 None).1.2
     = DataMessage 400 "Invalid upload path - file rejected".
Proof.
  intros f. split; [reflexivity|].
  assert (Hpath : upload_path f
                  = stored_path "/app" 1700000000000 42 (originalname f))
    by (vm_compute; reflexivity).
  rewrite (upload_decided_by_extension "/app" 7 ∅ Demo.disk f 1700000000000 42
             5 None eq_refl eq_refl eq_refl Hpath).
  reflexivity.
Defined.

(* ================================================================== *)
(** * What the table holds while the server runs *)
(* ================================================================== *)

Lemma stable_row_kept (cwd : string) (t t' : AudioTrack) :
  originalPath t' = originalPath t ->
  extendedPaths t' = extendedPaths t ->
  stable_row cwd t -> stable_row cwd t'.
Proof.
  intros Hp He Hst fp Hrec. apply Hst.
  unfold from_record in *. by rewrite <- Hp, <- He.
Qed.

Lemma stable_paths_update (cwd : string) (db : Store) (i : Z)
    (u : UpdateAudioTrack) :
  stable_paths cwd db ->
  (forall t, db !! i = Some t -> stable_row cwd (apply_update t u)) ->
  stable_paths cwd (updateAudioTrack db i u).
Proof.
  intros Hst Hrow k t'. destruct (decide (k = i)) as [-> | Hne].
  - rewrite lookup_updateAudioTrack_eq.
    destruct (db !! i) as [t|] eqn:Ht; [|done]. intros [= <-]. by apply Hrow.
  - rewrite lookup_updateAudioTrack_ne by done. apply Hst.
Qed.

Lemma stable_paths_update_keep (cwd : string) (db : Store) (i : Z)
    (u : UpdateAudioTrack) :
  set_extendedPaths u = None ->
  stable_paths cwd db -> stable_paths cwd (updateAudioTrack db i u).
Proof.
  intros Hu Hst. apply stable_paths_update; [done|].
  intros t Ht. apply (stable_row_kept cwd t); [done | | by eapply Hst].
  cbn [apply_update extendedPaths]. by rewrite Hu.
Qed.

Lemma stable_row_completed (cwd : string) (cur fetched : AudioTrack)
    (out : string) (d : option Q) :
  stable_row cwd cur -> stable_row cwd fetched ->
  validateAndSanitizePath cwd out = Some out ->
  stable_row cwd (apply_update cur (completed_update fetched out d)).
Proof.
  intros Hcur Hfetched Hout fp [-> | Hin] Hne.
  - apply Hcur; [by left | done].
  - change (asArray (extendedPaths (apply_update cur (completed_update fetched out d))))
      with (asArray (extendedPaths fetched) ++ [Some out])%list in Hin.
    apply in_app_or in Hin as [Hin | [[= <-] | []]]; [|done].
    apply Hfetched; [by right | done].
Qed.

Lemma stable_output (cwd dir filename out : string) :
  path.isAbsolute cwd = true ->
  createSafeOutputPath cwd dir filename = Some out ->
  validateAndSanitizePath cwd out = Some out.
Proof.
  intros Habs. unfold createSafeOutputPath. destruct (negb _); [done|].
  by apply validate_fixed_point.
Qed.

Lemma Forall_app_remove {A : Type} (Q : A -> Prop) (l1 l2 : list A) (x : A) :
  Forall Q (l1 ++ x :: l2) -> Q x /\ Forall Q (l1 ++ l2).
Proof.
  rewrite !Forall_app, Forall_cons. tauto.
Qed.

Lemma serve_keeps_stable (cwd : string) (parse : string -> option Settings)
    (demoUser : Z) (s s' : Store * list Job * list Pending) :
  path.isAbsolute cwd = true ->
  serve cwd parse demoUser s s' -> all_stable cwd s -> all_stable cwd s'.
Proof.
  intros Habs Hstep (Hdb & HJ & HP). unfold all_stable.
  destruct Hstep as
    [db J P fs file i vc0 Hfresh | db J P i o | db J P pid body
    | db J P i st settings | db J P j name Hout | db J1 J2 P j
    | db J1 J2 P j t d Hget | db J P1 P2 w | db J P fs];
    cbn [fst snd] in *.
  - (* upload *)
    split_and!; [|done..]. unfold upload_handler.
    destruct file as [f|]; [|done].
    destruct (validateAndSanitizePath cwd (upload_path f)) as [safe|] eqn:Hv;
      [|done].
    cbn [fst snd]. unfold createAudioTrack. cbn [id new_track].
    intros k t. destruct (decide (k = i)) as [-> | Hne].
    + rewrite lookup_insert_eq. intros [= <-] fp [-> | []] _.
      by eapply validate_fixed_point.
    + rewrite lookup_insert_ne by done. apply Hdb.
  - (* analysis *)
    split_and!; [|done..]. intros k t'.
    destruct (lookup_run_analysis db i o k) as (f & -> & Hf).
    destruct (db !! k) as [t|] eqn:Ht; [|done]. intros [= <-].
    destruct (Hf t) as (Hp & _ & He & _).
    by apply (stable_row_kept cwd t); [| |eapply Hdb].
  - (* /process *)
    split_and!; [| |done].
    + destruct (process_handler_store cwd parse db pid body)
        as [-> | (i & st & settings & ->)]; [done|].
      by apply stable_paths_update_keep.
    + apply Forall_app. split; [|done].
      destruct (process_handler cwd parse db pid body) as [[db1 resp] [j|]]
        eqn:Hrun; cbn [snd option_list]; [|done].
      constructor; [|done].
      destruct (dispatched_row _ _ _ _ _ _ _ _ Hrun)
        as (t & st & _ & _ & _ & _ & Hout & _).
      by eapply stable_output.
  - split_and!; [|done..]. by apply stable_paths_update_keep.
  - split_and!; [done| |done]. constructor; [|done]. by eapply stable_output.
  - apply Forall_app_remove in HJ as [_ HJ].
    split_and!; [|done..]. by apply stable_paths_update_keep.
  - apply Forall_app_remove in HJ as [Hj HJ].
    split_and!; [done..|]. constructor; [|done]. split; [|done].
    by eapply Hdb.
  - apply Forall_app_remove in HP as [[Hrow Hj] HP].
    split_and!; [|done..]. unfold job_write.
    apply stable_paths_update; [done|]. intros t Ht.
    apply stable_row_completed; [by eapply Hdb | done | done].
  - split_and!; [|done..]. unfold clear_handler. cbn [fst].
    intros k t [Hk _]%lookup_deleteAllUserTracks. by eapply Hdb.
Qed.

Lemma served_all_stable (cwd : string) (parse : string -> option Settings)
    (demoUser : Z) (s : Store * list Job * list Pending) :
  path.isAbsolute cwd = true ->
  rtc (serve cwd parse demoUser) (∅, [], []) s -> all_stable cwd s.
Proof.
  intros Habs Hrun. revert s Hrun.
  apply (rtc_ind_r (fun s => all_stable cwd s)).
  - split_and!; [|done..]. intros k t Hk. cbn [fst] in Hk.
    by rewrite lookup_empty in Hk.
  - intros s s' _ Hstep IH. by eapply serve_keeps_stable.
Qed.

Lemma legacy_audio_never_rejects_path (db : Store) (fs : Fs)
    (params_id type_ : string) (query_version range : option string) :
  legacy_audio_handler db fs params_id type_ query_version range
  <> Json 400 "Invalid file path - path validation failed".
Proof.
  unfold legacy_audio_handler.
  destruct (parseInt10 params_id); [done|].
  destruct (negb _ && negb _); [done|].
  destruct (getAudioTrack db _); [|done]. cbv zeta.
  destruct (truthy_path _); [|done].
  destruct (negb _); [done|].
  destruct (truthy_path range) as [r|]; [|done].
  unfold range_response. by destruct (createReadStream_accepts _ _).
Qed.

Lemma legacy_download_never_rejects_path (db : Store) (fs : Fs)
    (params_id : string) (query_version : option string) :
  legacy_download_handler db fs params_id query_version
  <> Json 400 "Invalid file path - path validation failed".
Proof.
  unfold legacy_download_handler.
  destruct (parseInt10 params_id); [done|].
  destruct (getAudioTrack db _); [|done]. cbv zeta.
  destruct (truthy_path _); [|done].
  by destruct (negb _).
Qed.

(** X22.  Under an absolute working directory, in every state the
    server reaches from an empty table by uploads, analyses, requests to
    [/process], the storage calls of their jobs and clearing, every
    non-empty path held by a row is a path that PathGuard returns
    unchanged.  So the delivery routes never answer the path-validation
    error there, and they answer as the routes without PathGuard do. *)
Theorem served_paths_are_stable (cwd : string)
    (parse : string -> option Settings) (demoUser : Z)
    (s : Store * list Job * list Pending) :
  path.isAbsolute cwd = true ->
  rtc (serve cwd parse demoUser) (∅, [], []) s ->
  stable_paths cwd s.1.1
  /\ forall (fs : Fs) (params_id type_ : string)
            (query_version range : option string),
       (audio_handler cwd s.1.1 fs params_id type_ query_version range).1
       <> Json 400 "Invalid file path - path validation failed"
       /\ (download_handler cwd s.1.1 fs params_id query_version).1
          <> Json 400 "Invalid file path - path validation failed"
       /\ (audio_handler cwd s.1.1 fs params_id type_ query_version range).1
          = legacy_audio_handler s.1.1 fs params_id type_ query_version range
       /\ (download_handler cwd s.1.1 fs params_id query_version).1
          = legacy_download_handler s.1.1 fs params_id query_version.
Proof.
  intros Habs Hrun.
  destruct (served_all_stable cwd parse demoUser s Habs Hrun) as (Hst & _).
  split; [done|]. intros fs params_id type_ query_version range.
  rewrite (audio_agrees_on_stable cwd _ fs params_id type_ query_version range Hst).
  rewrite (download_agrees_on_stable cwd _ fs params_id query_version Hst).
  split_and!; try done.
  - apply legacy_audio_never_rejects_path.
  - apply legacy_download_never_rejects_path.
Qed.

Lemma served_paths_are_stable_witness :
  let f := {| originalname := "song.mp3"; mimetype := "audio/mpeg";
              upload_path := "/app/uploads/1700000000000-42.mp3" |} in
  stable_paths Demo.cwd
    (upload_handler Demo.cwd 7 ∅ Demo.disk (Some f) 1 None).1.1.1.
Proof.
  intros f.
  assert (Hrun : rtc (serve Demo.cwd Demo.parse 7) (∅, [], [])
                   ((upload_handler Demo.cwd 7 ∅ Demo.disk (Some f) 1 None).1.1.1,
                    [], [])).
  { apply rtc_once. apply serve_upload. apply lookup_empty. }
  exact (proj1 (served_paths_are_stable Demo.cwd Demo.parse 7 _ eq_refl Hrun)).
Defined.

(* ================================================================== *)
(** * Output paths of ordinary file names *)
(* ================================================================== *)

Lemma occurs_in_trans (a b s : string) :
  occurs_in a b -> occurs_in b s -> occurs_in a s.
Proof.
  intros (u & v & ->) (x & y & ->). exists (x ++ u), (v ++ y).
  by rewrite !str_app_assoc.
Qed.

Lemma occurs_in_refl (s : string) : occurs_in s s.
Proof. exists "", "". by rewrite str_app_nil_l, str_app_nil_r. Qed.

Lemma occurs_in_nil (s : string) : occurs_in "" s.
Proof. exists "", s. by rewrite !str_app_nil_l. Qed.

Lemma take_drop_chars (n : nat) (s : string) :
  path.take_chars n s ++ drop_chars n s = s.
Proof.
  revert s. induction n as [|n IH]; intros s; [by rewrite str_app_nil_l|].
  destruct s as [|c s]; [done|]. cbn [path.take_chars drop_chars].
  by rewrite str_app_cons, IH.
Qed.

Lemma split_head_prefix (sep : ascii) (s h : string) (t : list string) :
  split sep s = h :: t -> exists b, s = h ++ b.
Proof.
  revert h t. induction s as [|c s IH]; intros h t.
  - intros [= <- <-]. by exists "".
  - cbn [split]. destruct (Ascii.eqb c sep).
    + intros [= <- <-]. exists (String c s). by rewrite str_app_nil_l.
    + pose proof (split_nonempty sep s) as Hne.
      destruct (split sep s) as [|h' t'] eqn:Hs; [done|].
      intros [= <- <-]. destruct (IH h' t' eq_refl) as (b & ->).
      exists b. by rewrite str_app_cons.
Qed.

Lemma split_part_occurs (sep : ascii) (s x : string) :
  In x (split sep s) -> occurs_in x s.
Proof.
  revert x. induction s as [|c s IH]; intros x.
  - intros [<- | []]. apply occurs_in_refl.
  - cbn [split]. destruct (Ascii.eqb c sep).
    + intros [<- | Hin]; [apply occurs_in_nil|].
      destruct (IH x Hin) as (a & b & ->). exists (String c a), b.
      by rewrite str_app_cons.
    + pose proof (split_nonempty sep s) as Hne.
      destruct (split sep s) as [|h t] eqn:Hs; [done|].
      intros [<- | Hin].
      * destruct (split_head_prefix sep s h t Hs) as (b & ->).
        exists "", b. by rewrite str_app_nil_l, str_app_cons.
      * destruct (IH x (or_intror Hin)) as (a & b & ->).
        exists (String c a), b. by rewrite str_app_cons.
Qed.

Lemma last_component_occurs (p : string) :
  occurs_in (path.last_component p) p.
Proof.
  unfold path.last_component.
  destruct (filter _ _) as [|c l] eqn:Hf; [apply occurs_in_nil|].
  assert (Hin : c ∈ filter (fun s => negb (String.eqb s "")) (rev (split "/" p))).
  { rewrite Hf. by left. }
  apply list_elem_of_filter in Hin as [_ Hin].
  apply list_elem_of_In, in_rev in Hin. by eapply split_part_occurs.
Qed.

Lemma basename_occurs (p suffix : string) :
  occurs_in (path.basename p suffix) p.
Proof.
  unfold path.basename. cbv zeta.
  pose proof (last_component_occurs p) as Hcomp.
  destruct (negb _ && _); [|done].
  destruct (String.eqb suffix p); [apply occurs_in_nil|].
  destruct (path.endsWith _ _ && negb _); [|done].
  eapply occurs_in_trans; [|exact Hcomp].
  exists "", (drop_chars (String.length (path.last_component p)
                          - String.length suffix) (path.last_component p)).
  by rewrite str_app_nil_l, take_drop_chars.
Qed.

Lemma includes_false_sub (a s sub : string) :
  occurs_in a s -> includes s sub = false -> includes a sub = false.
Proof.
  intros Ha Hs. destruct (includes a sub) eqn:Hsub; [|done].
  apply includes_spec in Hsub.
  assert (Hin : includes s sub = true)
    by (apply includes_spec; by eapply occurs_in_trans).
  congruence.
Qed.

Lemma unsafe_keeps_dot (c : ascii) :
  Ascii.eqb "." (if is_unsafe_char c then "_"%char else c) = Ascii.eqb "." c.
Proof. by destruct c as [[] [] [] [] [] [] [] []]. Qed.

Lemma unsafe_keeps_tilde (c : ascii) :
  Ascii.eqb "~" (if is_unsafe_char c then "_"%char else c) = Ascii.eqb "~" c.
Proof. by destruct c as [[] [] [] [] [] [] [] []]. Qed.

Lemma includes_dotdot_sanitize (s : string) :
  includes (sanitize_filename s) ".." = includes s "..".
Proof.
  unfold sanitize_filename. induction s as [|c s IH]; [done|].
  cbn [map_chars]. rewrite !includes_cons, IH. f_equal.
  cbn [startsWith]. rewrite unsafe_keeps_dot. f_equal.
  destruct s as [|d s]; [done|]. cbn [map_chars startsWith].
  by rewrite unsafe_keeps_dot.
Qed.

Lemma includes_tilde_sanitize (s : string) :
  includes (sanitize_filename s) "~" = includes s "~".
Proof.
  unfold sanitize_filename. induction s as [|c s IH]; [done|].
  cbn [map_chars]. rewrite !includes_cons, IH. cbn [startsWith].
  by rewrite unsafe_keeps_tilde.
Qed.

Lemma includes_dotdot_join (a b : string) (c : ascii) :
  c <> "."%char ->
  includes a ".." = false -> includes b ".." = false ->
  includes (a ++ String c b) ".." = false.
Proof.
  intros Hc Ha Hb. apply Ascii.eqb_neq in Hc. rewrite Ascii.eqb_sym in Hc.
  induction a as [|x a IH].
  - rewrite str_app_nil_l, includes_cons, Hb. cbn [startsWith]. by rewrite Hc.
  - rewrite includes_cons in Ha. apply orb_false_iff in Ha as [Hs Ha].
    rewrite str_app_cons, includes_cons, (IH Ha), orb_false_r.
    cbn [startsWith] in Hs |- *.
    destruct (Ascii.eqb "." x); [|done]. cbn [andb] in Hs |- *.
    destruct a as [|d a]; [rewrite str_app_nil_l; cbn [startsWith]; by rewrite Hc|].
    rewrite str_app_cons.
    cbn [startsWith] in Hs |- *. by destruct (Ascii.eqb "." d).
Qed.

(** An allowed extension is not empty and has no character that
    sanitising replaces. *)
Lemma allowed_extension_safe (e : string) :
  str_in (toLowerCase e) ALLOWED_EXTENSIONS = true ->
  e <> "" /\ sanitize_filename e = e.
Proof.
  intros Hin. split.
  { intros ->. discriminate Hin. }
  assert (Hchar : forall c,
            is_unsafe_char (lower_char c) = false -> is_unsafe_char c = false).
  { intros c. by destruct c as [[] [] [] [] [] [] [] []]. }
  assert (Hsafe : sanitize_filename (toLowerCase e) = toLowerCase e).
  { apply str_in_spec in Hin. simpl in Hin.
    destruct Hin as [<- | [<- | [<- | [<- | []]]]]; reflexivity. }
  clear Hin. unfold sanitize_filename, toLowerCase in *.
  induction e as [|c e IH]; [done|]. cbn [map_chars] in *.
  injection Hsafe as Hc He.
  rewrite (IH He). destruct (is_unsafe_char c) eqn:Hu; [|done].
  destruct (is_unsafe_char (lower_char c)) eqn:Hl.
  - exfalso. clear -Hc Hl. revert Hc Hl.
    by destruct c as [[] [] [] [] [] [] [] []].
  - by rewrite (Hchar c Hl) in Hu.
Qed.

(** A directory [cwd/d] under an absolute working directory, and a
    plain name in it. *)
Lemma dir_child_resolved (cwd d g : string) :
  path.isAbsolute cwd = true -> plain_name d -> plain_name g ->
  path.resolve cwd (path.join cwd d) = path.join cwd d
  /\ path.join (path.join cwd d) g = path.join cwd d ++ "/" ++ g
  /\ path.resolve cwd (path.join cwd d ++ "/" ++ g) = path.join cwd d ++ "/" ++ g.
Proof.
  intros Habs Hd Hg.
  destruct (join_absolute_plain cwd d Habs Hd) as (l & Hl & ->).
  pose proof (Forall_plain_snoc _ _ Hl Hd) as Hl'.
  assert (Hchild : "/" ++ join_with "/" ((l ++ [d]) ++ [g])
                   = ("/" ++ join_with "/" (l ++ [d])) ++ "/" ++ g).
  { rewrite (join_with_snoc (l ++ [d])).
    destruct (l ++ [d])%list eqn:Heq; [by destruct l|].
    by rewrite str_app_assoc. }
  split_and!.
  - apply resolve_of_normal, Hl'.
  - by rewrite (join_normal_plain _ _ Hl' Hg).
  - rewrite <- Hchild. apply resolve_of_normal. by apply Forall_plain_snoc.
Qed.

Lemma startsWith_refl (s : string) : startsWith s s = true.
Proof. apply startsWith_spec. exists "". by rewrite str_app_nil_r. Qed.

(** When does [createSafeOutputPath(resultDir, f)] give a path. *)
Lemma createSafeOutputPath_accepts (cwd f : string) :
  path.isAbsolute cwd = true ->
  includes (resultDir cwd) ".." = false ->
  includes (resultDir cwd) "~" = false ->
  plain_name (sanitize_filename f) ->
  str_in (toLowerCase (path.extname (sanitize_filename f))) ALLOWED_EXTENSIONS
  = true ->
  includes (sanitize_filename f) ".." = false ->
  includes (sanitize_filename f) "~" = false ->
  createSafeOutputPath cwd (resultDir cwd) f
  = Some (resultDir cwd ++ "/" ++ sanitize_filename f).
Proof.
  intros Habs Hdd Htl Hg Hext Hgd Hgt.
  assert (Hres : plain_name "results") by (split_and!; done).
  destruct (dir_child_resolved cwd "results" _ Habs Hres Hg)
    as (HR & Hjoin & Hchild).
  fold (resultDir cwd) in HR, Hjoin, Hchild.
  assert (Hdir : isInAllowedDirectory cwd
                   (resultDir cwd ++ "/" ++ sanitize_filename f) = true).
  { unfold isInAllowedDirectory, ALLOWED_DIRECTORIES. cbn [existsb].
    rewrite HR.
    assert (Hs : startsWith (resultDir cwd ++ "/" ++ sanitize_filename f)
                   (resultDir cwd ++ path.sep) = true).
    { apply startsWith_spec. exists (sanitize_filename f).
      unfold path.sep. by rewrite str_app_assoc. }
    rewrite Hs. by rewrite !orb_true_r. }
  unfold createSafeOutputPath. rewrite HR.
  assert (Hbase : existsb (fun allowedDir => startsWith (resultDir cwd) allowedDir)
                    (ALLOWED_DIRECTORIES cwd) = true).
  { unfold ALLOWED_DIRECTORIES. cbn [existsb]. rewrite HR, startsWith_refl.
    by rewrite !orb_true_r. }
  rewrite Hbase. cbn [negb]. rewrite Hjoin.
  unfold validateAndSanitizePath. rewrite Hchild, Hdir. cbn [negb].
  rewrite (extname_child _ _ Hg), Hext. cbn [negb].
  rewrite (includes_dotdot_sep _ _ Hdd Hgd).
  by rewrite !includes_tilde_app, Htl, Hgt.
Qed.

Lemma sanitize_digits (s : string) :
  all_digits s = true -> sanitize_filename s = s.
Proof.
  unfold sanitize_filename. induction s as [|c s IH]; [done|].
  cbn [all_digits map_chars]. intros [Hc Hs]%andb_true_iff. rewrite (IH Hs).
  clear -Hc. revert Hc. by destruct c as [[] [] [] [] [] [] [] []].
Qed.

Section VersionedName.

Variable o : string.
Variable k : N.
Hypothesis Hname : audio_name o.

Lemma versioned_name_sanitized :
  sanitize_filename
    (path.basename o (path.extname o) ++ "_extended_v" ++ N_toString k
     ++ path.extname o)
  = (sanitize_filename (path.basename o (path.extname o))
     ++ "_extended_v" ++ N_toString k)
    ++ path.extname o.
Proof.
  destruct Hname as (Hext & _).
  destruct (allowed_extension_safe _ Hext) as [_ He].
  unfold sanitize_filename in *. rewrite !map_chars_app, He.
  fold (sanitize_filename (N_toString k)).
  rewrite (sanitize_digits _ (N_toString_digits k)).
  by rewrite !str_app_assoc.
Qed.

Lemma versioned_name_extname :
  path.extname
    (sanitize_filename
       (path.basename o (path.extname o) ++ "_extended_v" ++ N_toString k
        ++ path.extname o))
  = path.extname o.
Proof.
  pose proof (sanitize_versioned_plain (path.basename o (path.extname o))
                (N_toString k ++ path.extname o)) as Hplain.
  destruct Hname as (Hext & _).
  destruct (allowed_extension_safe _ Hext) as [Hne _].
  destruct (extname_shape o) as [[He | He] _]; [done|].
  unfold path.extname at 1. cbv zeta.
  rewrite (last_component_plain_only _ Hplain).
  destruct Hplain as (_ & _ & Hdd & _). apply String.eqb_neq in Hdd.
  rewrite Hdd, versioned_name_sanitized, last_dot_app, He, Nat.add_0_r.
  set (X := sanitize_filename _ ++ "_extended_v" ++ N_toString k).
  assert (Hlen : (String.length X = S (Nat.pred (String.length X)))%nat).
  { unfold X. rewrite !str_length_app. simpl. lia. }
  rewrite Hlen, <- Hlen. apply drop_chars_app.
Qed.

Lemma versioned_name_clean :
  let g :=
    sanitize_filename
      (path.basename o (path.extname o) ++ "_extended_v" ++ N_toString k
       ++ path.extname o) in
  includes g ".." = false /\ includes g "~" = false.
Proof.
  cbv zeta. rewrite versioned_name_sanitized.
  destruct Hname as (Hext & Hdd & Htl).
  pose proof (basename_occurs o (path.extname o)) as Hocc.
  destruct (digits_slashless _ (N_toString_digits k)) as [_ Hk].
  destruct (extname_shape o) as [He _]. split.
  - rewrite str_app_assoc.
    change ("_extended_v" ++ N_toString k)
      with (String "_" ("extended_v" ++ N_toString k)).
    rewrite str_app_cons.
    apply includes_dotdot_join; [done | |].
    + rewrite includes_dotdot_sanitize. by eapply includes_false_sub.
    + rewrite includes_dotdot_dotfree; [by apply includes_dotdot_ext|].
      by rewrite last_dot_app, Hk.
  - rewrite !includes_tilde_app, includes_tilde_sanitize.
    rewrite (includes_false_sub _ _ _ Hocc Htl).
    rewrite (includes_tilde_digits _ (N_toString_digits k)).
    by rewrite (allowed_extension_no_tilde _ Hext).
Qed.

End VersionedName.

(** The output path of version [k] of a track with an ordinary audio
    file name can be made. *)
Lemma versioned_name_accepted (cwd o : string) (k : N) :
  path.isAbsolute cwd = true ->
  includes (resultDir cwd) ".." = false ->
  includes (resultDir cwd) "~" = false ->
  audio_name o ->
  createSafeOutputPath cwd (resultDir cwd)
    (path.basename o (path.extname o) ++ "_extended_v" ++ N_toString k
     ++ path.extname o)
  <> None.
Proof.
  intros Habs Hdd Htl Hname.
  destruct (versioned_name_clean o k Hname) as [Hg1 Hg2].
  rewrite (createSafeOutputPath_accepts cwd _ Habs Hdd Htl); try done.
  - apply sanitize_versioned_plain.
  - rewrite (versioned_name_extname o k Hname). by destruct Hname.
Qed.

Lemma safeFilename_accepted (cwd : string) (t : AudioTrack) :
  path.isAbsolute cwd = true ->
  includes (resultDir cwd) ".." = false ->
  includes (resultDir cwd) "~" = false ->
  audio_name (originalFilename t) ->
  createSafeOutputPath cwd (resultDir cwd) (safeFilename t) <> None.
Proof.
  intros Habs Hdd Htl Hname. rewrite safeFilename_unfold.
  replace (Z.of_nat (length (asArray (extendedPaths t))) + 1)
    with (Z.of_N (N.of_nat (length (asArray (extendedPaths t))) + 1)) by lia.
  rewrite num_toString_N. by apply versioned_name_accepted.
Qed.

(** A request for a track with an ordinary audio file name that is not
    over the limit, followed by the successful end of its job. *)
Lemma round_accepted (cwd : string) (parse : string -> option Settings)
    (db : Store) (params_id body : string) (d : option Q) (i : Z)
    (t : AudioTrack) (st : Settings) :
  path.isAbsolute cwd = true ->
  includes (resultDir cwd) ".." = false ->
  includes (resultDir cwd) "~" = false ->
  parseInt10 params_id = Num i ->
  db !! i = Some t ->
  audio_name (originalFilename t) ->
  ~ over_limit t ->
  parse body = Some st ->
  let r := process_round cwd parse db params_id body ToolDone (InfoDone d) in
  r.2 = Started 202 "Processing started" i "processing"
  /\ exists t' out,
       r.1 !! i = Some t'
       /\ originalFilename t' = originalFilename t
       /\ versionCount t' = Some (next_versionCount (versionCount t))
       /\ asArray (extendedPaths t')
          = (asArray (extendedPaths t) ++ [Some out])%list.
Proof.
  intros Habs Hdd Htl Hid Ht Hname Hlim Hparse. cbv zeta.
  pose proof (safeFilename_accepted cwd t Habs Hdd Htl Hname) as Hout.
  unfold process_round.
  destruct (process_handler cwd parse db params_id body) as [[db1 resp] job]
    eqn:Hrun.
  assert (Hjob : exists j, job = Some j
                           /\ resp = Started 202 "Processing started" i "processing").
  { revert Hrun. unfold process_handler, getAudioTrack. rewrite Hid, Ht.
    destruct (num_gt _ _) eqn:Hgt.
    { exfalso. apply Hlim. by apply num_gt_over_limit. }
    rewrite Hparse. cbv zeta.
    destruct (createSafeOutputPath _ _ _) as [out|]; [|done].
    intros [= <- <- <-]. eauto. }
  destruct Hjob as (j & -> & ->). split; [done|].
  destruct (process_handler_job _ _ _ _ _ _ _ _ Hrun)
    as (t0 & st0 & Hid' & Ht0 & _ & _ & _ & _ & Hrow & _).
  assert (Hi : i = job_id j) by congruence.
  rewrite Hi in Ht |- *. rewrite Ht in Ht0. injection Ht0 as <-.
  cbn [fst snd]. rewrite (run_job_done_lookup _ _ _ _ Hrow).
  eexists _, (job_outputPath j). split; [done|]. split_and!; try done.
  cbn [versionCount apply_update]. by rewrite completed_update_versionCount.
Qed.

(** X14.  Under an absolute working directory whose result directory
    has no [..] and no tilde in its name, a track with an ordinary audio
    file name (an allowed extension, no [..], no tilde) whose counter
    starts unset, at 0 or at 1 accepts three requests with settings
    that parse, each followed by the successful end of its job, and no
    fourth: each of the three is answered 202, after the third the
    counter is 4 and the row holds three more paths, and every further
    request is answered with the version-limit error. *)
Theorem three_versions_then_limit (cwd : string)
    (parse : string -> option Settings) (db : Store)
    (params_id b1 b2 b3 : string) (s1 s2 s3 : Settings) (d1 d2 d3 : option Q)
    (i : Z) (t : AudioTrack) :
  path.isAbsolute cwd = true ->
  includes (resultDir cwd) ".." = false ->
  includes (resultDir cwd) "~" = false ->
  parseInt10 params_id = Num i ->
  db !! i = Some t ->
  audio_name (originalFilename t) ->
  versionCount t = None \/ versionCount t = Some 0 \/ versionCount t = Some 1 ->
  parse b1 = Some s1 -> parse b2 = Some s2 -> parse b3 = Some s3 ->
  let r1 := process_round cwd parse db params_id b1 ToolDone (InfoDone d1) in
  let r2 := process_round cwd parse r1.1 params_id b2 ToolDone (InfoDone d2) in
  let r3 := process_round cwd parse r2.1 params_id b3 ToolDone (InfoDone d3) in
  r1.2 = Started 202 "Processing started" i "processing"
  /\ r2.2 = Started 202 "Processing started" i "processing"
  /\ r3.2 = Started 202 "Processing started" i "processing"
  /\ exists t3,
       r3.1 !! i = Some t3
       /\ versionCount t3 = Some 4
       /\ length (asArray (extendedPaths t3))
          = (3 + length (asArray (extendedPaths t)))%nat
       /\ forall body,
            process_handler cwd parse r3.1 params_id body
            = (r3.1, Json 400 limit_message, None).
Proof.
  intros Habs Hdd Htl Hid Ht Hname Hvc Hp1 Hp2 Hp3 r1 r2 r3.
  assert (Hlim0 : ~ over_limit t).
  { intros (v & Hv & Hlt). destruct Hvc as [H | [H | H]]; rewrite H in Hv;
      [done | injection Hv as <-; lia | injection Hv as <-; lia]. }
  assert (Hv1 : next_versionCount (versionCount t) = 2)
    by by destruct Hvc as [-> | [-> | ->]].
  destruct (round_accepted cwd parse db params_id b1 d1 i t s1
              Habs Hdd Htl Hid Ht Hname Hlim0 Hp1)
    as (Ha1 & t1 & o1 & Ht1 & Hn1 & Hc1 & Hl1).
  fold r1 in Ha1, Ht1. rewrite Hv1 in Hc1.
  assert (Hlim1 : ~ over_limit t1).
  { intros (v & Hv & Hlt). rewrite Hc1 in Hv. injection Hv as <-. lia. }
  rewrite <- Hn1 in Hname.
  destruct (round_accepted cwd parse r1.1 params_id b2 d2 i t1 s2
              Habs Hdd Htl Hid Ht1 Hname Hlim1 Hp2)
    as (Ha2 & t2 & o2 & Ht2 & Hn2 & Hc2 & Hl2).
  fold r2 in Ha2, Ht2. rewrite Hc1 in Hc2. cbn [next_versionCount Z.eqb] in Hc2.
  assert (Hlim2 : ~ over_limit t2).
  { intros (v & Hv & Hlt). rewrite Hc2 in Hv. injection Hv as <-. lia. }
  rewrite <- Hn2 in Hname.
  destruct (round_accepted cwd parse r2.1 params_id b3 d3 i t2 s3
              Habs Hdd Htl Hid Ht2 Hname Hlim2 Hp3)
    as (Ha3 & t3 & o3 & Ht3 & Hn3 & Hc3 & Hl3).
  fold r3 in Ha3, Ht3. rewrite Hc2 in Hc3. cbn [next_versionCount Z.eqb] in Hc3.
  split_and!; [done..|]. exists t3. split_and!; [done | done | |].
  - rewrite Hl3, Hl2, Hl1, !length_app. simpl. lia.
  - intros body. unfold process_handler, getAudioTrack. rewrite Hid, Ht3.
    by rewrite Hc3.
Qed.

Lemma three_versions_then_limit_witness :
  let r1 := process_round Demo.cwd Demo.parse (Demo.db None) "1" "{}" ToolDone
              (InfoDone None) in
  let r2 := process_round Demo.cwd Demo.parse r1.1 "1" "{}" ToolDone
              (InfoDone None) in
  let r3 := process_round Demo.cwd Demo.parse r2.1 "1" "{}" ToolDone
              (InfoDone None) in
  r3.2 = Started 202 "Processing started" 1 "processing"
  /\ process_handler Demo.cwd Demo.parse r3.1 "1" "{}"
     = (r3.1, Json 400 limit_message, None).
Proof.
  intros r1 r2 r3.
  assert (Hname : audio_name (originalFilename (Demo.song None)))
    by (split_and!; reflexivity).
  destruct (three_versions_then_limit Demo.cwd Demo.parse (Demo.db None) "1"
              "{}" "{}" "{}" _ _ _ None None None 1 (Demo.song None)
              eq_refl eq_refl eq_refl eq_refl eq_refl Hname
              (or_introl eq_refl) eq_refl eq_refl eq_refl)
    as (_ & _ & H3 & t3 & _ & _ & _ & H).
  split; [exact H3 | apply H].
Defined.
